(** * pycovjson.write: a shallow embedding of the CoverageJSON writer

    The development follows [pycovjson/write.py]:

    - Python values are a tree type [pyobj] (dictionaries keep insertion
      order, so they are association lists);
    - exceptions are an error type, effects (the output files and the
      [uuid.uuid4] generator) are threaded through an explicit [World];
    - [json.dumps] is embedded as the chunk generator of the pure Python
      encoder ([_make_iterencode]) followed by [''.join];
    - [Writer], [Custom] and [CustomEncoder] are translated method by method.

    Strings are sequences of 8-bit code points ([list ascii]); a finite float is
    carried by its [repr] text, the three non-finite floats are constructors of
    their own; the keys of a dictionary are strings.  Values are trees: no
    dictionary or list stands at two places of a document, so the in-place
    wrapping of [compact] and [no_indent] is a function from the tree to the
    tree that holds the wrapped fields.  Dictionaries are visited in insertion
    order (CPython 3.6 and 3.7, the last version that has [time.clock]).
    [print] and [time.clock] calls only feed the console and are left out. *)

From Stdlib Require Import List Permutation Ascii String ZArith Bool Arith Lia.
From Stdlib Require Import Decimal DecimalFacts DecimalPos DecimalZ.
Import ListNotations.

Set Implicit Arguments.
Local Open Scope list_scope.

(* ================================================================== *)
(** ** Text *)

Definition text := list ascii.

Definition str (s : string) : text := list_ascii_of_string s.

Definition ascii_eqb (a b : ascii) : bool := Ascii.eqb a b.

Fixpoint text_eqb (a b : text) : bool :=
  match a, b with
  | [], [] => true
  | x :: a', y :: b' => ascii_eqb x y && text_eqb a' b'
  | _, _ => false
  end.

Fixpoint startswith (s old : text) {struct old} : bool :=
  match old, s with
  | [], _ => true
  | x :: old', y :: s' => ascii_eqb x y && startswith s' old'
  | _ :: _, [] => false
  end.

(** [str.replace(old, new)] for a non-empty [old]: the text is scanned from
    the left, every occurrence found is replaced and the scan resumes behind
    it.  [skip] counts the characters of an occurrence still to be dropped. *)
Fixpoint replace_from (old new : text) (skip : nat) (s : text) : text :=
  match s with
  | [] => []
  | c :: s' =>
      match skip with
      | S k => replace_from old new k s'
      | O => if startswith s old
             then new ++ replace_from old new (List.length old - 1) s'
             else c :: replace_from old new 0 s'
      end
  end.

(** With an empty [old] Python inserts [new] around every character. *)
Definition str_replace (s old new : text) : text :=
  match old with
  | [] => new ++ flat_map (fun c => c :: new) s
  | _ :: _ => replace_from old new 0 s
  end.

Definition nat_of_char (c : ascii) : nat := nat_of_ascii c.

(** [str.lower] on code points below 256: A-Z and the accented capitals
    U+00C0-U+00DE (but not the multiplication sign U+00D7). *)
Definition lower_char (c : ascii) : ascii :=
  let n := nat_of_char c in
  if ((65 <=? n) && (n <=? 90)) || ((192 <=? n) && (n <=? 222) && negb (n =? 215))
  then ascii_of_nat (n + 32) else c.

Definition str_lower (s : text) : text := map lower_char s.

(** Decimal digits, as [int.__repr__] writes them. *)
Fixpoint digits_of_uint (d : uint) : text :=
  match d with
  | Nil => []
  | D0 d => "0"%char :: digits_of_uint d
  | D1 d => "1"%char :: digits_of_uint d
  | D2 d => "2"%char :: digits_of_uint d
  | D3 d => "3"%char :: digits_of_uint d
  | D4 d => "4"%char :: digits_of_uint d
  | D5 d => "5"%char :: digits_of_uint d
  | D6 d => "6"%char :: digits_of_uint d
  | D7 d => "7"%char :: digits_of_uint d
  | D8 d => "8"%char :: digits_of_uint d
  | D9 d => "9"%char :: digits_of_uint d
  end.

Definition int_repr (z : Z) : text :=
  match Z.to_int z with
  | Pos d => digits_of_uint d
  | Neg d => "-"%char :: digits_of_uint d
  end.

(** [str(count)] for the tile counter. *)
Definition str_of_nat (n : nat) : text := int_repr (Z.of_nat n).

(* ================================================================== *)
(** ** Exceptions *)

Inductive exn : Type :=
| AttributeError (name : string)
| NameError (name : string)
| UnboundLocalError (name : string)
| KeyError (key : text)
| TypeError (msg : string)
| DataSourceError (msg : string).

Inductive result (A : Type) : Type :=
| Ok (a : A)
| Raise (e : exn).
Arguments Ok {A} a.
Arguments Raise {A} e.

Definition rbind {A B} (r : result A) (k : A -> result B) : result B :=
  match r with
  | Ok a => k a
  | Raise e => Raise e
  end.

Declare Scope result_scope.
Delimit Scope result_scope with res.
Notation "x <- r ;; k" := (rbind r (fun x => k))
  (at level 61, r at next level, right associativity) : result_scope.

(** [for x in l: x := f x], stopping at the first exception. *)
Fixpoint rmap {A B} (f : A -> result B) (l : list A) : result (list B) :=
  match l with
  | [] => Ok []
  | x :: l' => (y <- f x ;; ys <- rmap f l' ;; Ok (y :: ys))%res
  end.

(* ================================================================== *)
(** ** Python values *)

Inductive pyfloat : Type :=
| FNaN
| FInf (negative : bool)
| FFinite (repr : text).

(** The keyword arguments a [Custom] marker keeps for its own [json.dumps]
    call; the writer only ever passes [separators]. *)
Record custom_args : Type := { separators : option (text * text) }.

Unset Elimination Schemes.
Inductive pyobj : Type :=
| PNone
| PBool (b : bool)
| PInt (z : Z)
| PFloat (f : pyfloat)
| PStr (s : text)
| PList (l : list pyobj)
| PDict (d : list (text * pyobj))
| PCustom (value : pyobj) (args : custom_args)   (* an instance of [Custom] *)
| POther (type_name : string).                   (* any other object *)
Set Elimination Schemes.

Definition dict (A : Type) := list (text * A).

Fixpoint dict_get {A} (d : dict A) (k : text) : option A :=
  match d with
  | [] => None
  | (k', v) :: d' => if text_eqb k' k then Some v else dict_get d' k
  end.

(** [d[k] = v]: an existing key keeps its position, a new one goes last. *)
Fixpoint dict_set {A} (d : dict A) (k : text) (v : A) : dict A :=
  match d with
  | [] => [(k, v)]
  | (k', v') :: d' =>
      if text_eqb k' k then (k', v) :: d' else (k', v') :: dict_set d' k v
  end.

Definition dict_keys {A} (d : dict A) : list text := map fst d.
Definition dict_values {A} (d : dict A) : list A := map snd d.

(** [k in l] for a list of strings. *)
Definition contains (l : list text) (k : text) : bool := existsb (text_eqb k) l.

(** [obj[name]] *)
Definition getitem (obj : pyobj) (name : text) : result pyobj :=
  match obj with
  | PDict d => match dict_get d name with
               | Some v => Ok v
               | None => Raise (KeyError name)
               end
  | _ => Raise (TypeError "object is not subscriptable")
  end.

(** [obj[name] = v] *)
Definition setitem (obj : pyobj) (name : text) (v : pyobj) : result pyobj :=
  match obj with
  | PDict d => Ok (PDict (dict_set d name v))
  | _ => Raise (TypeError "object does not support item assignment")
  end.

(** [obj.values()] *)
Definition values_of (obj : pyobj) : result (dict pyobj) :=
  match obj with
  | PDict d => Ok d
  | _ => Raise (AttributeError "values")
  end.

(** Iterating [for x in obj] over a list. *)
Definition iter_list (obj : pyobj) : result (list pyobj) :=
  match obj with
  | PList l => Ok l
  | _ => Raise (TypeError "object is not iterable")
  end.

(* ================================================================== *)
(** ** The [json] encoder *)

Definition hex_digit (n : nat) : ascii :=
  nth n (str "0123456789abcdef") "0"%char.

Definition quote : ascii := ascii_of_nat 34.
Definition backslash : ascii := ascii_of_nat 92.

(** [ESCAPE_DCT] and the [\uXXXX] fallback of [py_encode_basestring_ascii]:
    everything outside [' '..'~'], the quote and the backslash are escaped. *)
Definition escape_char (c : ascii) : text :=
  let n := nat_of_char c in
  if n =? 34 then [backslash; quote]
  else if n =? 92 then [backslash; backslash]
  else if n =? 10 then str "\n"
  else if n =? 13 then str "\r"
  else if n =? 9 then str "\t"
  else if n =? 8 then str "\b"
  else if n =? 12 then str "\f"
  else if (32 <=? n) && (n <=? 126) then [c]
  else str "\u00" ++ [hex_digit (n / 16); hex_digit (n mod 16)].

Definition encode_basestring_ascii (s : text) : text :=
  quote :: flat_map escape_char s ++ [quote].

(** [floatstr] with [allow_nan=True], the default. *)
Definition floatstr (f : pyfloat) : text :=
  match f with
  | FNaN => str "NaN"
  | FInf false => str "Infinity"
  | FInf true => str "-Infinity"
  | FFinite r => r
  end.

Record JSONEncoder : Type := {
  indent : option nat;
  item_separator : text;
  key_separator : text
}.

(** [JSONEncoder.__init__]: explicit separators win; otherwise an indented
    encoder drops the blank after the comma. *)
Definition JSONEncoder_init (ind : option nat) (seps : option (text * text))
  : JSONEncoder :=
  match seps with
  | Some (i, k) => {| indent := ind; item_separator := i; key_separator := k |}
  | None =>
      match ind with
      | Some _ => {| indent := ind; item_separator := str ",";
                     key_separator := str ": " |}
      | None => {| indent := ind; item_separator := str ", ";
                   key_separator := str ": " |}
      end
  end.

(** What [_iterencode] yields: text, or an object it has to hand to
    [self.default] before going on. *)
Inductive chunk : Type :=
| Lit (t : text)
| Dflt (o : pyobj).

Definition newline : ascii := ascii_of_nat 10.
Definition space : ascii := " "%char.

Definition newline_indent (width level : nat) : text :=
  newline :: repeat space (width * level).

(** The chunks of the items of a container, [separator] between them. *)
Fixpoint join_items (separator : text) (items : list (list chunk)) : list chunk :=
  match items with
  | [] => []
  | [x] => x
  | x :: rest => x ++ Lit separator :: join_items separator rest
  end.

(** [_iterencode], [_iterencode_list] and [_iterencode_dict].  A scalar item
    is yielded glued to the separator before it; chunk boundaries do not
    survive [''.join], so every item is yielded after its separator here. *)
Fixpoint iterencode (enc : JSONEncoder) (o : pyobj) (level : nat) : list chunk :=
  match o with
  | PStr s => [Lit (encode_basestring_ascii s)]
  | PNone => [Lit (str "null")]
  | PBool true => [Lit (str "true")]
  | PBool false => [Lit (str "false")]
  | PInt z => [Lit (int_repr z)]
  | PFloat f => [Lit (floatstr f)]
  | PList [] => [Lit (str "[]")]
  | PList l =>
      match indent enc with
      | Some w =>
          Lit ("["%char :: newline_indent w (level + 1))
          :: join_items (item_separator enc ++ newline_indent w (level + 1))
               (map (fun v => iterencode enc v (level + 1)) l)
          ++ [Lit (newline_indent w level); Lit (str "]")]
      | None =>
          Lit (str "[")
          :: join_items (item_separator enc)
               (map (fun v => iterencode enc v level) l)
          ++ [Lit (str "]")]
      end
  | PDict [] => [Lit (str "{}")]
  | PDict d =>
      match indent enc with
      | Some w =>
          Lit (str "{") :: Lit (newline_indent w (level + 1))
          :: join_items (item_separator enc ++ newline_indent w (level + 1))
               (map (fun kv => Lit (encode_basestring_ascii (fst kv))
                               :: Lit (key_separator enc)
                               :: iterencode enc (snd kv) (level + 1)) d)
          ++ [Lit (newline_indent w level); Lit (str "}")]
      | None =>
          Lit (str "{")
          :: join_items (item_separator enc)
               (map (fun kv => Lit (encode_basestring_ascii (fst kv))
                               :: Lit (key_separator enc)
                               :: iterencode enc (snd kv) level) d)
          ++ [Lit (str "}")]
      end
  | PCustom _ _ | POther _ => [Dflt o]
  end.

(** [JSONEncoder.default] raises for whatever it is given. *)
Definition JSONEncoder_default (o : pyobj) : result text :=
  Raise (TypeError "Object is not JSON serializable").

(** [''.join(chunks)] for the base class. *)
Fixpoint JSONEncoder_join (chunks : list chunk) : result text :=
  match chunks with
  | [] => Ok []
  | Lit t :: cs => (r <- JSONEncoder_join cs ;; Ok (t ++ r))%res
  | Dflt o :: cs =>
      (s <- JSONEncoder_default o ;;
       r <- JSONEncoder_join cs ;;
       Ok (encode_basestring_ascii s ++ r))%res
  end.

Definition JSONEncoder_encode (enc : JSONEncoder) (o : pyobj) : result text :=
  JSONEncoder_join (iterencode enc o 0).

(** [json.dumps(value, **custom_args)] without [cls]. *)
Definition json_dumps (value : pyobj) (args : custom_args) : result text :=
  JSONEncoder_encode (JSONEncoder_init None (separators args)) value.

(* ================================================================== *)
(** ** The world: output files and the uuid generator *)

(** [uuid4_hex n] is what the [n]-th call of [uuid.uuid4().hex] returns in
    this run; [files] maps a path to the content written to it. *)
Record World : Type := {
  files : dict text;
  uuid4_hex : nat -> text;
  uuid4_calls : nat
}.

Definition Py (A : Type) : Type := World -> result A * World.

Definition ret {A} (a : A) : Py A := fun w => (Ok a, w).
Definition raise {A} (e : exn) : Py A := fun w => (Raise e, w).
Definition lift {A} (r : result A) : Py A := fun w => (r, w).

Definition bind {A B} (m : Py A) (k : A -> Py B) : Py B :=
  fun w => match m w with
           | (Ok a, w') => k a w'
           | (Raise e, w') => (Raise e, w')
           end.

Declare Scope py_scope.
Delimit Scope py_scope with py.
Notation "x <- m ;; k" := (bind m (fun x => k))
  (at level 61, m at next level, right associativity) : py_scope.
Notation "m ;; k" := (bind m (fun _ => k))
  (at level 61, right associativity) : py_scope.

(** [uuid.uuid4().hex] *)
Definition uuid4 : Py text :=
  fun w => (Ok (uuid4_hex w (uuid4_calls w)),
            {| files := files w; uuid4_hex := uuid4_hex w;
               uuid4_calls := S (uuid4_calls w) |}).

(** [open(path, 'w')] creates the file or empties it. *)
Definition file_open (path : text) : Py unit :=
  fun w => (Ok tt, {| files := dict_set (files w) path [];
                      uuid4_hex := uuid4_hex w; uuid4_calls := uuid4_calls w |}).

(** [fp.write(s)] *)
Definition file_write (path : text) (s : text) : Py unit :=
  fun w => (Ok tt,
            {| files := dict_set (files w) path
                          (match dict_get (files w) path with
                           | Some old => old ++ s
                           | None => s
                           end);
               uuid4_hex := uuid4_hex w; uuid4_calls := uuid4_calls w |}).

(* ================================================================== *)
(** ** [Custom] and [CustomEncoder] *)

(** [Custom(value, **custom_args)] is the constructor [PCustom]. *)

Record CustomEncoder : Type := {
  encoder : JSONEncoder;
  _replacement_map : dict text
}.

Definition CustomEncoder_init (ind : option nat) (seps : option (text * text))
  : CustomEncoder :=
  {| encoder := JSONEncoder_init ind seps; _replacement_map := [] |}.

(** ["@@%s@@" % (key,)] *)
Definition placeholder (key : text) : text := str "@@" ++ key ++ str "@@".

(** ['"@@%s@@"' % (k,)] *)
Definition quoted_placeholder (key : text) : text :=
  quote :: placeholder key ++ [quote].

Definition CustomEncoder_default (self : CustomEncoder) (o : pyobj)
  : Py (text * CustomEncoder) :=
  match o with
  | PCustom value args =>
      (key <- uuid4 ;;
       rendered <- lift (json_dumps value args) ;;
       ret (placeholder key,
            {| encoder := encoder self;
               _replacement_map := dict_set (_replacement_map self) key rendered |}))%py
  | _ => (s <- lift (JSONEncoder_default o) ;; ret (s, self))%py
  end.

(** [''.join(chunks)] while the generator calls [self.default]: both
    [default] methods return a [str] or raise, so the object they return is
    encoded as a string. *)
Fixpoint CustomEncoder_join (self : CustomEncoder) (chunks : list chunk)
  : Py (text * CustomEncoder) :=
  match chunks with
  | [] => ret ([], self)
  | Lit t :: cs =>
      (rs <- CustomEncoder_join self cs ;;
       ret (t ++ fst rs, snd rs))%py
  | Dflt o :: cs =>
      (ss <- CustomEncoder_default self o ;;
       rs <- CustomEncoder_join (snd ss) cs ;;
       ret (encode_basestring_ascii (fst ss) ++ fst rs, snd rs))%py
  end.

Definition CustomEncoder_encode (self : CustomEncoder) (o : pyobj) : Py text :=
  (rs <- CustomEncoder_join self (iterencode (encoder self) o 0) ;;
   ret (fold_left (fun result kv =>
                     str_replace result (quoted_placeholder (fst kv)) (snd kv))
                  (_replacement_map (snd rs)) (fst rs)))%py.

(** [json.dumps(obj, cls=CustomEncoder, **kw)], [kw] being [indent] *)
Definition json_dumps_cls (obj : pyobj) (kw_indent : option nat) : Py text :=
  CustomEncoder_encode (CustomEncoder_init kw_indent None) obj.

(* ================================================================== *)
(** ** The document model ([pycovjson.model]) *)

(** Modelled from the spec: the three reference-system descriptors of
    [pycovjson.model], built without arguments by the writer. *)
Inductive ReferenceSystem : Type :=
| TemporalReferenceSystem
| SpatialReferenceSystem2d
| SpatialReferenceSystem3d.

(** Modelled from the spec: [Domain] of [pycovjson.model], a domain type
    and the coordinate values of the four axes. *)
Record Domain : Type := {
  domain_type : text;
  x_values : list pyobj;
  y_values : list pyobj;
  z_values : list pyobj;
  t_values : list pyobj
}.

(** Modelled from the spec: [Parameter] of [pycovjson.model], the
    descriptive metadata of one variable ([Parameter] is a reserved word
    here, hence [Param]). *)
Record Param : Type := {
  description : pyobj;
  param_variable_name : text;
  symbol : pyobj;
  unit_ : pyobj;
  observed_property : pyobj
}.

(** Modelled from the spec: [Range] of [pycovjson.model]; the constructor
    stores its arguments and checks nothing. *)
Record Range : Type := {
  range_range_type : text;
  data_type : pyobj;
  axes : list text;
  shape : list Z;
  values : list pyobj;
  range_variable_name : text;
  tile_sets : pyobj
}.

(** Modelled from the spec: [Reference] of [pycovjson.model] wraps the list
    of reference systems. *)
Record Reference : Type := { obj_list : list ReferenceSystem }.

Definition PText (s : string) : pyobj := PStr (str s).

(** Modelled from the spec: the mapping of one reference system,
    [coordinates] and [system]. *)
Definition ReferenceSystem_to_dict (r : ReferenceSystem) : pyobj :=
  match r with
  | TemporalReferenceSystem =>
      PDict [(str "coordinates", PList [PText "t"]);
             (str "system", PDict [(str "type", PText "TemporalRS");
                                   (str "calendar", PText "Gregorian")])]
  | SpatialReferenceSystem2d =>
      PDict [(str "coordinates", PList [PText "x"; PText "y"]);
             (str "system", PDict [(str "type", PText "GeographicCRS")])]
  | SpatialReferenceSystem3d =>
      PDict [(str "coordinates", PList [PText "x"; PText "y"; PText "z"]);
             (str "system", PDict [(str "type", PText "GeographicCRS")])]
  end.

(** Modelled from the spec: [Domain.to_dict], [domainType] and [axes];
    the optional axes [z] and [t] are left out when they have no value. *)
Definition axis_entry (name : string) (vs : list pyobj) : dict pyobj :=
  [(str name, PDict [(str "values", PList vs)])].

Definition optional_axis (name : string) (vs : list pyobj) : dict pyobj :=
  match vs with
  | [] => []
  | _ :: _ => axis_entry name vs
  end.

Definition Domain_to_dict (d : Domain) : dict pyobj :=
  [(str "domainType", PStr (domain_type d));
   (str "axes", PDict (axis_entry "x" (x_values d) ++ axis_entry "y" (y_values d)
                       ++ optional_axis "t" (t_values d)
                       ++ optional_axis "z" (z_values d)))].

(** Modelled from the spec: [Parameter.to_dict], a mapping from the
    variable name to the parameter's fields. *)
Definition Parameter_to_dict (p : Param) : pyobj :=
  PDict [(param_variable_name p,
          PDict [(str "type", PText "Parameter");
                 (str "description", description p);
                 (str "unit", PDict [(str "label", unit_ p);
                                     (str "symbol", symbol p)]);
                 (str "observedProperty",
                  PDict [(str "label", observed_property p)])])].

(** Modelled from the spec: [Range.to_dict], a mapping from the variable
    name to the range; inline [values] for an NdArray, [tileSets] for a
    TiledNdArray. *)
Definition Range_to_dict (r : Range) : pyobj :=
  PDict [(range_variable_name r,
          PDict ([(str "type", PStr (range_range_type r));
                  (str "dataType", data_type r);
                  (str "axisNames", PList (map PStr (axes r)));
                  (str "shape", PList (map PInt (shape r)))]
                 ++ (if text_eqb (range_range_type r) (str "TiledNdArray")
                     then [(str "tileSets", tile_sets r)]
                     else [(str "values", PList (values r))])))].

(** Modelled from the spec: [Coverage(...).to_dict()]; the references sit
    under the domain, where [_save_covjson] reads them. *)
Definition Coverage_to_dict (d : Domain) (r : Range) (p : Param)
  (refs : Reference) : pyobj :=
  PDict [(str "type", PText "Coverage");
         (str "domain",
          PDict (Domain_to_dict d
                 ++ [(str "referencing",
                      PList (map ReferenceSystem_to_dict (obj_list refs)))]));
         (str "parameters", Parameter_to_dict p);
         (str "ranges", Range_to_dict r)].

(* ================================================================== *)
(** ** The data source ([pycovjson.read_netcdf]) *)

(** A numpy array: its shape and its elements in row-major order, which is
    what [flatten().tolist()] returns. *)
Record ndarray : Type := { nd_shape : list Z; nd_flat : list pyobj }.

Definition flatten_tolist (a : ndarray) : list pyobj := nd_flat a.

(** One variable of [reader.dataset]. *)
Record DataArray : Type := {
  da_units : result pyobj;
  da_long_name : result pyobj;
  da_values : ndarray
}.

(** The accessors of the reader the writer calls; each may raise. *)
Record Reader : Type := {
  get_axes : result (dict pyobj);
  get_x : result ndarray;
  get_y : result ndarray;
  get_z : result ndarray;
  get_t : result (list pyobj);
  get_std_name : text -> result pyobj;
  get_units : text -> result pyobj;
  dataset : text -> result DataArray;
  get_axis : text -> result (list text);
  get_type : text -> result pyobj;
  get_shape : text -> result (list Z);
  get_values : text -> result ndarray
}.

(* ================================================================== *)
(** ** [class Writer] *)

Record Writer : Type := {
  output_name : text;
  tile_shape : list Z;
  vars_to_write : list text;
  url_template : text;
  tiled : bool;
  range_type : text;
  dataset_path : text;
  reader : Reader;
  axis_dict : dict pyobj;
  axis_list : list text;
  ref_list : list ReferenceSystem;
  endpoint_url : option text;
  covjson_ld : bool
}.

(** [self.<name>] for the string attributes [__init__] assigns; any other
    name is an [AttributeError]. *)
Definition Writer_getattr (self : Writer) (name : string) : result text :=
  if String.eqb name "output_name" then Ok (output_name self)
  else if String.eqb name "url_template" then Ok (url_template self)
  else if String.eqb name "range_type" then Ok (range_type self)
  else if String.eqb name "dataset_path" then Ok (dataset_path self)
  else Raise (AttributeError name).

(** The names bound at module level in [write.py]: its imports and its
    three classes. *)
Definition module_globals : list string :=
  ["Coverage"; "Domain"; "Parameter"; "Range"; "Reference";
   "SpatialReferenceSystem2d"; "SpatialReferenceSystem3d";
   "TemporalReferenceSystem"; "TileSet"; "Reader"; "json"; "jsonld";
   "MongoClient"; "SONManipulator"; "time"; "uuid"; "Writer"; "Custom";
   "CustomEncoder"]%string.

(** Reading a bare name inside a method: a local, else a module global,
    else [NameError]. *)
Definition load_name (locals : list (string * pyobj)) (name : string)
  : result pyobj :=
  match find (fun kv => String.eqb (fst kv) name) locals with
  | Some kv => Ok (snd kv)
  | None => if existsb (String.eqb name) module_globals
            then Ok (POther name)
            else Raise (NameError name)
  end.

(** Truth value of an object in an [if]. *)
Definition truthy (o : pyobj) : bool :=
  match o with
  | PNone => false
  | PBool b => b
  | PInt z => negb (Z.eqb z 0)
  | PFloat (FFinite r) => negb (text_eqb r (str "0.0") || text_eqb r (str "-0.0"))
  | PFloat _ => true
  | PStr s => negb (text_eqb s [])
  | PList l => match l with [] => false | _ => true end
  | PDict d => match d with [] => false | _ => true end
  | PCustom _ _ | POther _ => true
  end.

(** Leaving a [for] body: go on with the next element, or [return]. *)
Inductive flow (A : Type) : Type :=
| Next
| Return (a : A).
Arguments Next {A}.
Arguments Return {A} a.

(** A [for] loop whose body may [return]; [None] when the loop runs out
    and the function falls off its end. *)
Fixpoint for_each {X A} (body : X -> Py (flow A)) (l : list X) : Py (option A) :=
  match l with
  | [] => ret None
  | x :: l' =>
      (r <- body x ;;
       match r with
       | Return a => ret (Some a)
       | Next => for_each body l'
       end)%py
  end.

(** [for k, x in d.items(): x = f(x)] on the values of a dictionary that
    are changed in place. *)
Definition for_values (f : pyobj -> result pyobj) (d : dict pyobj)
  : result (dict pyobj) :=
  rmap (fun kv => (v <- f (snd kv) ;; Ok (fst kv, v))%res) d.

Definition compact_args : custom_args :=
  {| separators := Some (str ",", str ":") |}.
Definition no_indent_args : custom_args := {| separators := None |}.

(** [Writer.compact(obj, *names)] *)
Definition Writer_compact (obj : pyobj) (names : list text) : result pyobj :=
  fold_left (fun acc name =>
               (o <- acc ;;
                v <- getitem o name ;;
                setitem o name (PCustom v compact_args))%res)
            names (Ok obj).

(** [Writer.no_indent(obj, *names)] *)
Definition Writer_no_indent (obj : pyobj) (names : list text) : result pyobj :=
  fold_left (fun acc name =>
               (o <- acc ;;
                v <- getitem o name ;;
                setitem o name (PCustom v no_indent_args))%res)
            names (Ok obj).

(** [for axis in obj['domain']['axes'].values(): self.compact(axis, 'values')];
    the axes are changed in place, so [obj] holds them afterwards. *)
Definition mark_axes (obj : pyobj) : result pyobj :=
  (domain <- getitem obj (str "domain") ;;
   axes_obj <- getitem domain (str "axes") ;;
   axes_d <- values_of axes_obj ;;
   axes_d' <- for_values (fun axis => Writer_compact axis [str "values"]) axes_d ;;
   domain' <- setitem domain (str "axes") (PDict axes_d') ;;
   setitem obj (str "domain") domain')%res.

(** [for ref in obj['domain']['referencing']: self.no_indent(ref, 'coordinates')] *)
Definition mark_referencing (obj : pyobj) : result pyobj :=
  (domain <- getitem obj (str "domain") ;;
   refs_obj <- getitem domain (str "referencing") ;;
   refs <- iter_list refs_obj ;;
   refs' <- rmap (fun ref => Writer_no_indent ref [str "coordinates"]) refs ;;
   domain' <- setitem domain (str "referencing") (PList refs') ;;
   setitem obj (str "domain") domain')%res.

(** [for covrange in obj['ranges'].values(): ...] *)
Definition mark_ranges (obj : pyobj) : result pyobj :=
  (ranges_obj <- getitem obj (str "ranges") ;;
   ranges_d <- values_of ranges_obj ;;
   ranges_d' <- for_values
                  (fun covrange =>
                     (r <- Writer_no_indent covrange [str "axisNames"; str "shape"] ;;
                      Writer_compact r [str "values"])%res)
                  ranges_d ;;
   setitem obj (str "ranges") (PDict ranges_d'))%res.

(** [Writer.save_json(obj, path, **kw)] *)
Definition Writer_save_json (obj : pyobj) (path : text) (kw_indent : option nat)
  : Py unit :=
  (file_open path ;;
   jsonstr <- json_dumps_cls obj kw_indent ;;
   file_write path jsonstr)%py.

(** [Writer._save_covjson(obj, path)] *)
Definition Writer__save_covjson (obj : pyobj) (path : text) : Py unit :=
  (obj1 <- lift (mark_axes obj) ;;
   obj2 <- lift (mark_referencing obj1) ;;
   obj3 <- lift (mark_ranges obj2) ;;
   Writer_save_json obj3 path (Some 2))%py.

(** [Writer.save_covjson_tiled(obj, path)] *)
Definition Writer_save_covjson_tiled (obj : pyobj) (path : text) : Py unit :=
  (obj1 <- lift (mark_axes obj) ;;
   obj2 <- lift (mark_referencing obj1) ;;
   Writer_save_json obj2 path (Some 2))%py.

(** [Writer.save_covjson_range(obj, path)] *)
Definition Writer_save_covjson_range (obj : pyobj) (path : text) : Py unit :=
  (obj1 <- lift (mark_ranges obj) ;;
   Writer_save_json obj1 path (Some 2))%py.

Section WriterMethods.

(** The collaborators of [write.py] that live outside it. *)

(** [Reader(dataset_path)], the NetCDF reader of [pycovjson.read_netcdf]. *)
Variable NetCDFReader : text -> result Reader.

(** [TileSet(tile_shape, url_template).get_tiles(tile_shape, array)]: the
    tiles, each a pair of its values and its axes. *)
Variable TileSet_get_tiles :
  list Z -> text -> list Z -> ndarray -> result (list (ndarray * list text)).

(** [TileSet(tile_shape, url_template).generate_url_template(base_url, axis_names)] *)
Variable TileSet_generate_url_template :
  list Z -> text -> text -> list text -> text.

(** [TileSet(variable_shape, url_template).create_tileset(tile_shape)] *)
Variable TileSet_create_tileset : list Z -> text -> list Z -> pyobj.

(** [jsonld.compact(document, context)] of [pyld]. *)
Variable jsonld_compact : text -> dict text -> result text.

(** [Writer.__init__] *)
Definition Writer_init (output_name dataset_path : text)
  (vars_to_write : list text) (endpoint_url : option text)
  (tiled : bool) (tile_shape : list Z) (covjson_ld : bool) : result Writer :=
  (reader <- NetCDFReader dataset_path ;;
   axis_dict <- get_axes reader ;;
   let axis_list := dict_keys axis_dict in
   let has_t := contains axis_list (str "t") in
   let has_z := contains axis_list (str "z") in
   let ref_list := [] in
   let ref_list :=
     if has_t && has_z
     then ref_list ++ [TemporalReferenceSystem] ++ [SpatialReferenceSystem3d]
     else ref_list in
   let ref_list :=
     if has_t && negb has_z
     then ref_list ++ [TemporalReferenceSystem] ++ [SpatialReferenceSystem2d]
     else if negb has_t && negb has_z
          then ref_list ++ [SpatialReferenceSystem2d]
          else ref_list in
   Ok {| output_name := output_name;
         tile_shape := tile_shape;
         vars_to_write := vars_to_write;
         url_template := str "localhost:8080/{t}.covjson";
         tiled := tiled;
         range_type := if tiled then str "TiledNdArray" else str "NdArray";
         dataset_path := dataset_path;
         reader := reader;
         axis_dict := axis_dict;
         axis_list := axis_list;
         ref_list := ref_list;
         endpoint_url := match endpoint_url with
                         | Some u => Some u
                         | None => None
                         end;
         covjson_ld := covjson_ld |})%res.

(** [Writer._construct_domain] *)
Definition Writer__construct_domain (self : Writer) : result Domain :=
  (x <- get_x (reader self) ;;
   y <- get_y (reader self) ;;
   t <- (if contains (axis_list self) (str "t")
         then get_t (reader self) else Ok []) ;;
   z <- (if contains (axis_list self) (str "z")
         then (a <- get_z (reader self) ;; Ok (flatten_tolist a))
         else Ok []) ;;
   Ok {| domain_type := str "Grid";
         x_values := flatten_tolist x;
         y_values := flatten_tolist y;
         z_values := z;
         t_values := t |})%res.

(** The body of the loop of [_construct_params]. *)
Definition construct_params_body (self : Writer) (variable : text)
  : result Param :=
  (description <- get_std_name (reader self) variable ;;
   unit <- get_units (reader self) variable ;;
   da <- dataset (reader self) variable ;;
   symbol <- da_units da ;;
   da' <- dataset (reader self) variable ;;
   label <- da_long_name da' ;;
   Ok {| description := description;
         param_variable_name := variable;
         symbol := symbol;
         unit_ := unit;
         observed_property := label |})%res.

(** The loop of [_construct_params]: [params] is the local variable, not
    bound before the first iteration. *)
Fixpoint construct_params_loop (self : Writer) (params : option Param)
  (vars : list text) : result (option Param) :=
  match vars with
  | [] => Ok params
  | variable :: vars' =>
      (p <- construct_params_body self variable ;;
       construct_params_loop self (Some p) vars')%res
  end.

(** [Writer._construct_params] *)
Definition Writer__construct_params (self : Writer) : result Param :=
  (params <- construct_params_loop self None (vars_to_write self) ;;
   match params with
   | Some p => Ok p
   | None => Raise (UnboundLocalError "params")
   end)%res.

(** [Writer._construct_refs] *)
Definition Writer__construct_refs (self : Writer) : Reference :=
  {| obj_list := ref_list self |}.

(** The loop over the tiles in [_construct_range]; [count] is the local
    counter. *)
Fixpoint save_tiles (variable_type : pyobj) (variable_shape : list Z)
  (count : nat) (tiles : list (ndarray * list text)) : Py unit :=
  match tiles with
  | [] => ret tt
  | tile :: tiles' =>
      let count := count + 1 in
      let covrange :=
        PDict [(str "ranges",
                Range_to_dict {| range_range_type := str "NdArray";
                                 data_type := variable_type;
                                 axes := snd tile;
                                 shape := variable_shape;
                                 values := flatten_tolist (fst tile);
                                 range_variable_name := [];
                                 tile_sets := PList [] |})] in
      (Writer_save_covjson_range covrange (str_of_nat count ++ str ".covjson") ;;
       save_tiles variable_type variable_shape count tiles')%py
  end.

(** The body of the loop of [_construct_range]. *)
Definition construct_range_body (self : Writer) (variable : text)
  : Py (flow Range) :=
  (axis <- lift (get_axis (reader self) variable) ;;
   let axis_names := map str_lower axis in
   if tiled self then
     urlTemplate <- lift (Writer_getattr self "urlTemplate") ;;
     variable_type <- lift (get_type (reader self) variable) ;;
     variable_shape <- lift (get_shape (reader self) variable) ;;
     da <- lift (dataset (reader self) variable) ;;
     tiles <- lift (TileSet_get_tiles (tile_shape self) urlTemplate
                      (tile_shape self) (da_values da)) ;;
     save_tiles variable_type variable_shape 0 tiles ;;
     let url_template :=
       TileSet_generate_url_template (tile_shape self) urlTemplate
         (str "localhost:8080") [str "t"] in
     let tileset :=
       TileSet_create_tileset variable_shape url_template (tile_shape self) in
     ret (Return {| range_range_type := str "TiledNdArray";
                    data_type := variable_type;
                    axes := axis_names;
                    shape := variable_shape;
                    values := [];
                    range_variable_name := variable;
                    tile_sets := tileset |})
   else
     shape <- lift (get_shape (reader self) variable) ;;
     vals <- lift (get_values (reader self) variable) ;;
     data_type <- lift (get_type (reader self) variable) ;;
     _axes <- lift (get_axis (reader self) variable) ;;
     ret (Return {| range_range_type := str "NdArray";
                    data_type := data_type;
                    axes := axis_names;
                    shape := shape;
                    values := flatten_tolist vals;
                    range_variable_name := variable;
                    tile_sets := PList [] |}))%py.

(** [Writer._construct_range] *)
Definition Writer__construct_range (self : Writer) : Py (option Range) :=
  for_each (construct_range_body self) (vars_to_write self).

(** [Writer._construct_coverage]: the four arguments are evaluated from
    left to right before [Coverage] is called; a range that is [None] has
    no [to_dict]. *)
Definition Writer__construct_coverage (self : Writer) : Py pyobj :=
  (domain <- lift (Writer__construct_domain self) ;;
   covrange <- Writer__construct_range self ;;
   params <- lift (Writer__construct_params self) ;;
   let refs := Writer__construct_refs self in
   match covrange with
   | Some r => ret (Coverage_to_dict domain r params refs)
   | None => raise (AttributeError "to_dict")
   end)%py.

(** [Writer.write] *)
Definition Writer_write (self : Writer) : Py unit :=
  (coverage <- Writer__construct_coverage self ;;
   if tiled self
   then Writer_save_covjson_tiled coverage (output_name self)
   else Writer__save_covjson coverage (output_name self))%py.

(** The fixed JSON-LD context of [_save_json]. *)
Definition jsonld_context : dict text :=
  [(str "dataType", str "http://schema.org/DataType");
   (str "description", str "http://schema.org/description");
   (str "domainType", str "http://schema.org/additionalType");
   (str "type", str "http://schema.org/additionalType")].

(** [Writer._save_json(obj, path, **kw)]: [covjson_ld] is read as a bare
    name, which is neither a local of the method nor a module global. *)
Definition Writer__save_json (self : Writer) (obj : pyobj) (path : text)
  (kw_indent : option nat) : Py unit :=
  (file_open path ;;
   flag <- lift (load_name [("self", POther "Writer"); ("obj", obj);
                            ("path", PStr path); ("fp", POther "file")]%string
                   "covjson_ld") ;;
   jsonstr <- (if truthy flag
               then s <- json_dumps_cls obj kw_indent ;;
                    lift (jsonld_compact s jsonld_context)
               else json_dumps_cls obj kw_indent) ;;
   file_write path jsonstr)%py.

End WriterMethods.

(* ================================================================== *)
(** ** A standard JSON parser (RFC 8259)

    The reader of the documents: a lexer over the text, then a parser over
    the tokens.  It accepts insignificant whitespace between tokens and
    nothing outside the grammar (no [NaN], no [Infinity]). *)

Inductive token : Type :=
| TLBrace | TRBrace | TLBracket | TRBracket | TComma | TColon
| TString (s : text)
| TInt (z : Z)
| TFloat (repr : text)
| TTrue | TFalse | TNull.

Definition is_ws (c : ascii) : bool :=
  let n := nat_of_char c in
  (n =? 32) || (n =? 9) || (n =? 10) || (n =? 13).

Definition is_digit (c : ascii) : bool :=
  let n := nat_of_char c in (48 <=? n) && (n <=? 57).

(** The characters a number is made of. *)
Definition is_numchar (c : ascii) : bool :=
  let n := nat_of_char c in
  is_digit c || (n =? 45) || (n =? 43) || (n =? 46) || (n =? 101) || (n =? 69).

Definition hex_value (c : ascii) : option nat :=
  let n := nat_of_char c in
  if (48 <=? n) && (n <=? 57) then Some (n - 48)
  else if (97 <=? n) && (n <=? 102) then Some (n - 87)
  else if (65 <=? n) && (n <=? 70) then Some (n - 55)
  else None.

(** The character of a two-character escape. *)
Definition unescape (e : ascii) : option ascii :=
  let n := nat_of_char e in
  if n =? 34 then Some quote
  else if n =? 92 then Some backslash
  else if n =? 47 then Some "/"%char
  else if n =? 98 then Some (ascii_of_nat 8)
  else if n =? 102 then Some (ascii_of_nat 12)
  else if n =? 110 then Some (ascii_of_nat 10)
  else if n =? 114 then Some (ascii_of_nat 13)
  else if n =? 116 then Some (ascii_of_nat 9)
  else None.

Definition cons_fst {A B} (a : A) (r : option (list A * B)) : option (list A * B) :=
  match r with
  | Some (l, b) => Some (a :: l, b)
  | None => None
  end.

(** The content of a string literal, after its opening quote: the decoded
    characters and the text behind the closing quote.  A [\uXXXX] escape
    beyond the 8-bit code points has no value here. *)
Fixpoint scan_string (s : text) : option (text * text) :=
  match s with
  | [] => None
  | c :: s' =>
      if ascii_eqb c quote then Some ([], s')
      else if ascii_eqb c backslash then
        match s' with
        | [] => None
        | e :: s'' =>
            if ascii_eqb e "u"%char then
              match s'' with
              | h1 :: h2 :: h3 :: h4 :: s3 =>
                  match hex_value h1, hex_value h2, hex_value h3, hex_value h4 with
                  | Some 0, Some 0, Some a, Some b =>
                      cons_fst (ascii_of_nat (16 * a + b)) (scan_string s3)
                  | _, _, _, _ => None
                  end
              | _ => None
              end
            else
              match unescape e with
              | Some ch => cons_fst ch (scan_string s'')
              | None => None
              end
        end
      else if nat_of_char c <? 32 then None
      else cons_fst c (scan_string s')
  end.

Fixpoint span (p : ascii -> bool) (s : text) : text * text :=
  match s with
  | [] => ([], [])
  | c :: s' => if p c then let (a, b) := span p s' in (c :: a, b) else ([], s)
  end.

Fixpoint uint_of_digits (s : text) : option uint :=
  match s with
  | [] => Some Nil
  | c :: s' =>
      match uint_of_digits s' with
      | None => None
      | Some d =>
          match nat_of_char c - 48 with
          | 0 => if is_digit c then Some (D0 d) else None
          | 1 => Some (D1 d) | 2 => Some (D2 d) | 3 => Some (D3 d)
          | 4 => Some (D4 d) | 5 => Some (D5 d) | 6 => Some (D6 d)
          | 7 => Some (D7 d) | 8 => Some (D8 d) | 9 => Some (D9 d)
          | _ => None
          end
      end
  end.

(** [int = "0" | digit1-9 *digit] *)
Definition int_part_ok (d : uint) : bool :=
  match d with
  | Nil => false
  | D0 Nil => true
  | D0 _ => false
  | _ => true
  end.

(** [frac = "." 1*digit], optional: the text behind it, if well formed. *)
Definition skip_frac (s : text) : option (bool * text) :=
  match s with
  | c :: s' =>
      if ascii_eqb c "."%char then
        match span is_digit s' with
        | ([], _) => None
        | (_, r) => Some (true, r)
        end
      else Some (false, s)
  | [] => Some (false, s)
  end.

(** [exp = ("e" | "E") ["-" | "+"] 1*digit], optional. *)
Definition skip_exp (s : text) : option (bool * text) :=
  match s with
  | c :: s' =>
      if ascii_eqb c "e"%char || ascii_eqb c "E"%char then
        let s'' := match s' with
                   | g :: r => if ascii_eqb g "+"%char || ascii_eqb g "-"%char
                               then r else s'
                   | [] => s'
                   end in
        match span is_digit s'' with
        | ([], _) => None
        | (_, r) => Some (true, r)
        end
      else Some (false, s)
  | [] => Some (false, s)
  end.

(** The token of a whole number literal: an integer when it has neither a
    fraction nor an exponent, else a float, which keeps its text. *)
Definition classify_number (lit : text) : option token :=
  let (negative, s1) :=
    match lit with
    | c :: r => if ascii_eqb c "-"%char then (true, r) else (false, lit)
    | [] => (false, lit)
    end in
  let (ds, s2) := span is_digit s1 in
  match uint_of_digits ds with
  | None => None
  | Some d =>
      if int_part_ok d then
        match skip_frac s2 with
        | None => None
        | Some (has_frac, s3) =>
            match skip_exp s3 with
            | Some (has_exp, []) =>
                if has_frac || has_exp then Some (TFloat lit)
                else Some (TInt (Z.of_int (if negative then Neg d else Pos d)))
            | _ => None
            end
        end
      else None
  end.

(** The lexer; [skip_ws] tells whether whitespace between tokens is
    accepted (it is, in JSON) or refused. *)
Fixpoint lex (skip_ws : bool) (fuel : nat) (s : text) : option (list token) :=
  match fuel with
  | O => None
  | S n =>
      match s with
      | [] => Some []
      | c :: s' =>
          if is_ws c then (if skip_ws then lex skip_ws n s' else None)
          else if ascii_eqb c "{"%char then option_map (cons TLBrace) (lex skip_ws n s')
          else if ascii_eqb c "}"%char then option_map (cons TRBrace) (lex skip_ws n s')
          else if ascii_eqb c "["%char then option_map (cons TLBracket) (lex skip_ws n s')
          else if ascii_eqb c "]"%char then option_map (cons TRBracket) (lex skip_ws n s')
          else if ascii_eqb c ","%char then option_map (cons TComma) (lex skip_ws n s')
          else if ascii_eqb c ":"%char then option_map (cons TColon) (lex skip_ws n s')
          else if ascii_eqb c quote then
            match scan_string s' with
            | Some (t, rest) => option_map (cons (TString t)) (lex skip_ws n rest)
            | None => None
            end
          else if is_digit c || ascii_eqb c "-"%char then
            let (lit, rest) := span is_numchar s in
            match classify_number lit with
            | Some tok => option_map (cons tok) (lex skip_ws n rest)
            | None => None
            end
          else if startswith s (str "true")
          then option_map (cons TTrue) (lex skip_ws n (skipn 4 s))
          else if startswith s (str "false")
          then option_map (cons TFalse) (lex skip_ws n (skipn 5 s))
          else if startswith s (str "null")
          then option_map (cons TNull) (lex skip_ws n (skipn 4 s))
          else None
      end
  end.

Definition tokenize (s : text) : option (list token) :=
  lex true (S (List.length s)) s.

(** [dict(pairs)]: a later pair with the same key replaces the value. *)
Definition dict_of_pairs {A} (pairs : list (text * A)) : dict A :=
  fold_left (fun d kv => dict_set d (fst kv) (snd kv)) pairs [].

Section Parser.
Variable parse_value : list token -> option (pyobj * list token).

(** [value *( "," value ) "]"] *)
Fixpoint parse_elements (fuel : nat) (ts : list token)
  : option (list pyobj * list token) :=
  match fuel with
  | O => None
  | S n =>
      match parse_value ts with
      | Some (v, TComma :: r) => cons_fst v (parse_elements n r)
      | Some (v, TRBracket :: r) => Some ([v], r)
      | _ => None
      end
  end.

(** [member *( "," member ) "}"], a member being [string ":" value] *)
Fixpoint parse_members (fuel : nat) (ts : list token)
  : option (list (text * pyobj) * list token) :=
  match fuel with
  | O => None
  | S n =>
      match ts with
      | TString k :: TColon :: r =>
          match parse_value r with
          | Some (v, TComma :: r') => cons_fst (k, v) (parse_members n r')
          | Some (v, TRBrace :: r') => Some ([(k, v)], r')
          | _ => None
          end
      | _ => None
      end
  end.
End Parser.

Fixpoint parse_value (fuel : nat) (ts : list token) : option (pyobj * list token) :=
  match fuel with
  | O => None
  | S n =>
      match ts with
      | TNull :: r => Some (PNone, r)
      | TTrue :: r => Some (PBool true, r)
      | TFalse :: r => Some (PBool false, r)
      | TInt z :: r => Some (PInt z, r)
      | TFloat f :: r => Some (PFloat (FFinite f), r)
      | TString s :: r => Some (PStr s, r)
      | TLBracket :: TRBracket :: r => Some (PList [], r)
      | TLBracket :: r =>
          match parse_elements (parse_value n) n r with
          | Some (l, r') => Some (PList l, r')
          | None => None
          end
      | TLBrace :: TRBrace :: r => Some (PDict [], r)
      | TLBrace :: r =>
          match parse_members (parse_value n) n r with
          | Some (d, r') => Some (PDict (dict_of_pairs d), r')
          | None => None
          end
      | _ => None
      end
  end.

(** [json.loads] of a strict parser: one value and nothing behind it. *)
Definition json_loads (s : text) : option pyobj :=
  match tokenize s with
  | None => None
  | Some ts =>
      match parse_value (S (List.length ts)) ts with
      | Some (v, []) => Some v
      | _ => None
      end
  end.

Definition sample_json : pyobj :=
  PDict [(str "a", PList [PInt 1; PInt (-20); PFloat (FFinite (str "1.5e-05"))]);
         (str "b", PDict [(str "c", PStr (str "x, y")); (str "d", PNone)]);
         (str "e", PList [])].

(* ================================================================== *)
(** ** Vocabulary of the statements *)

(** The value a marked tree stands for: the [Custom] wrappers removed. *)
Fixpoint unmark (o : pyobj) : pyobj :=
  match o with
  | PList l => PList (map unmark l)
  | PDict d => PDict (map (fun kv => (fst kv, unmark (snd kv))) d)
  | PCustom v _ => unmark v
  | _ => o
  end.

Fixpoint join_tokens (items : list (list token)) : list token :=
  match items with
  | [] => []
  | [x] => x
  | x :: rest => x ++ TComma :: join_tokens rest
  end.

(** The tokens of the JSON text of a value; a marker is transparent. *)
Fixpoint tokens (o : pyobj) : list token :=
  match o with
  | PNone => [TNull]
  | PBool true => [TTrue]
  | PBool false => [TFalse]
  | PInt z => [TInt z]
  | PFloat (FFinite r) => [TFloat r]
  | PFloat _ => []
  | PStr s => [TString s]
  | PList l => TLBracket :: join_tokens (map tokens l) ++ [TRBracket]
  | PDict d =>
      TLBrace
      :: join_tokens (map (fun kv => TString (fst kv) :: TColon :: tokens (snd kv)) d)
      ++ [TRBrace]
  | PCustom v _ => tokens v
  | POther _ => []
  end.

Fixpoint nodupb (l : list text) : bool :=
  match l with
  | [] => true
  | x :: l' => negb (contains l' x) && nodupb l'
  end.

(** The [repr] of a finite float: a JSON number with a fraction or an
    exponent. *)
Definition float_repr_ok (r : text) : bool :=
  match r with
  | [] => false
  | c :: _ =>
      (is_digit c || ascii_eqb c "-"%char) && forallb is_numchar r
      && match classify_number r with
         | Some (TFloat _) => true
         | _ => false
         end
  end.

Definition float_ok (f : pyfloat) : bool :=
  match f with
  | FFinite r => float_repr_ok r
  | _ => false
  end.

(** A value of the JSON data model: no marker, no foreign object, finite
    floats, and dictionaries whose keys are pairwise different. *)
Fixpoint json_ok (o : pyobj) : bool :=
  match o with
  | PNone | PBool _ | PInt _ | PStr _ => true
  | PFloat f => float_ok f
  | PList l => forallb json_ok l
  | PDict d => nodupb (map fst d) && forallb (fun kv => json_ok (snd kv)) d
  | PCustom _ _ | POther _ => false
  end.

(** A separator: its character, then whitespace only. *)
Definition sep_ok (c : ascii) (s : text) : bool :=
  match s with
  | [] => false
  | c' :: ws => ascii_eqb c' c && forallb is_ws ws
  end.

Definition enc_ok (enc : JSONEncoder) : bool :=
  sep_ok ","%char (item_separator enc) && sep_ok ":"%char (key_separator enc).

Definition args_ok (a : custom_args) : bool :=
  enc_ok (JSONEncoder_init None (separators a)).

(** A JSON value some parts of which are wrapped in a marker. *)
Fixpoint marked_ok (o : pyobj) : bool :=
  match o with
  | PNone | PBool _ | PInt _ | PStr _ => true
  | PFloat f => float_ok f
  | PList l => forallb marked_ok l
  | PDict d => nodupb (map fst d) && forallb (fun kv => marked_ok (snd kv)) d
  | PCustom v a => json_ok v && args_ok a
  | POther _ => false
  end.

(** A tree the encoder can be run on: a finite float carries the [repr] of
    a float, a marker separators of the usual form. *)
Fixpoint encodable (o : pyobj) : bool :=
  match o with
  | PFloat (FFinite r) => float_repr_ok r
  | PList l => forallb encodable l
  | PDict d => forallb (fun kv => encodable (snd kv)) d
  | PCustom v a => encodable v && args_ok a
  | _ => true
  end.

(** The number of values [default] is called on while the tree is encoded
    (what lies inside a marker is rendered by the base encoder). *)
Fixpoint markers (o : pyobj) : nat :=
  match o with
  | PList l => list_sum (map markers l)
  | PDict d => list_sum (map (fun kv => markers (snd kv)) d)
  | PCustom _ _ | POther _ => 1
  | _ => 0
  end.

(** The strings of a tree: dictionary keys and string values. *)
Fixpoint strings_of (o : pyobj) : list text :=
  match o with
  | PStr s => [s]
  | PList l => flat_map strings_of l
  | PDict d => flat_map (fun kv => fst kv :: strings_of (snd kv)) d
  | PCustom v _ => strings_of v
  | _ => []
  end.

Fixpoint occursb (pat s : text) : bool :=
  startswith s pat
  || match s with
     | [] => false
     | _ :: s' => occursb pat s'
     end.

Definition is_hex_lower (c : ascii) : bool :=
  let n := nat_of_char c in
  ((48 <=? n) && (n <=? 57)) || ((97 <=? n) && (n <=? 102)).

(** The shape of [uuid.uuid4().hex]: 32 lower-case hexadecimal digits. *)
Definition is_uuid_hex (k : text) : bool :=
  (List.length k =? 32) && forallb is_hex_lower k.

(** A key is fresh for a tree when no string of the tree contains its
    placeholder. *)
Definition fresh_key (o : pyobj) (k : text) : bool :=
  is_uuid_hex k
  && forallb (fun s => negb (occursb (placeholder k) s)) (strings_of o).

(** The keys the generator hands out next. *)
Definition next_keys (w : World) (n : nat) : list text :=
  map (uuid4_hex w) (seq (uuid4_calls w) n).

(** The generator behaves like a generator of unique identifiers for the
    encoding of [o]: the keys it hands out are pairwise different and
    fresh for [o]. *)
Definition fresh_keys (w : World) (o : pyobj) : bool :=
  nodupb (next_keys w (markers o))
  && forallb (fresh_key o) (next_keys w (markers o)).

(** The text of one chunk once its marker is rendered. *)
Definition chunk_text (c : chunk) : result text :=
  match c with
  | Lit t => Ok t
  | Dflt (PCustom v a) => json_dumps v a
  | Dflt o => JSONEncoder_default o
  end.

Fixpoint expand (chunks : list chunk) : result text :=
  match chunks with
  | [] => Ok []
  | c :: cs => (t <- chunk_text c ;; r <- expand cs ;; Ok (t ++ r))%res
  end.

(** The document with mixed formatting: the indented rendering of the
    tree in which every marked value stands in its own rendering. *)
Definition mixed_dumps (o : pyobj) (kw_indent : option nat) : result text :=
  expand (iterencode (JSONEncoder_init kw_indent None) o 0).


(** The three loops of [_save_covjson], one after the other. *)
Definition mark_covjson (obj : pyobj) : result pyobj :=
  (obj1 <- mark_axes obj ;;
   obj2 <- mark_referencing obj1 ;;
   mark_ranges obj2)%res.


(** [o] is a dictionary that has every key of [names]. *)
Definition has_keys (names : list text) (o : pyobj) : bool :=
  match o with
  | PDict d => forallb (fun n => match dict_get d n with
                                 | Some _ => true
                                 | None => false
                                 end) names
  | _ => false
  end.

(** The shape of a Coverage mapping, as far as [_save_covjson] walks
    through it: the axes of the domain have [values], the references have
    [coordinates], the ranges have [axisNames], [shape] and [values]. *)
Definition is_coverage (obj : pyobj) : bool :=
  match obj with
  | PDict d =>
      match dict_get d (str "domain"), dict_get d (str "ranges") with
      | Some (PDict dd), Some (PDict dr) =>
          match dict_get dd (str "axes"), dict_get dd (str "referencing") with
          | Some (PDict da), Some (PList refs) =>
              forallb (fun kv => has_keys [str "values"] (snd kv)) da
              && forallb (has_keys [str "coordinates"]) refs
              && forallb (fun kv => has_keys [str "axisNames"; str "shape";
                                              str "values"] (snd kv)) dr
          | _, _ => false
          end
      | _, _ => false
      end
  | _ => false
  end.

(** The generator hands out fresh unique keys for the markers
    [_save_covjson] puts into [obj]. *)
Definition covjson_keys_fresh (w : World) (obj : pyobj) : bool :=
  match mark_covjson obj with
  | Ok marked => fresh_keys w marked
  | Raise _ => false
  end.

(* ================================================================== *)
(** ** Notions used in the proofs *)

Unset Implicit Arguments.

(** The writer with another value of its [covjson_ld] flag. *)
Definition with_covjson_ld (self : Writer) (ld : bool) : Writer :=
  {| output_name := output_name self; tile_shape := tile_shape self;
     vars_to_write := vars_to_write self; url_template := url_template self;
     tiled := tiled self; range_type := range_type self;
     dataset_path := dataset_path self; reader := reader self;
     axis_dict := axis_dict self; axis_list := axis_list self;
     ref_list := ref_list self; endpoint_url := endpoint_url self;
     covjson_ld := ld |}.


(** [pat] occurs in [s]. *)
Definition occurs (pat s : text) : Prop := exists a b, s = a ++ pat ++ b.

Definition at_sign : ascii := "@"%char.

(** A word that can serve as the inside of a quoted placeholder: it
    begins with [@] and holds no quote. *)
Definition placeholder_like (W : text) : Prop :=
  (exists W', W = at_sign :: W') /\ ~ In quote W.

(** [s] is safe for the word [W]: [W] does not occur in it, and the
    stretches of [s] before its first quote and behind its last quote hold
    no [@].  Safe texts can be concatenated. *)
Record safe (W s : text) : Prop := {
  safe_occ : ~ occurs W s;
  safe_pre : forall p q, s = p ++ q -> ~ In quote p -> ~ In at_sign p;
  safe_suf : forall p q, s = p ++ q -> ~ In quote q -> ~ In at_sign q
}.


(** A word between quotes. *)
Definition quoted (W : text) : text := quote :: W ++ [quote].

(** The document as a sequence of pieces: text, or a marked value with its
    key [k] and its own rendering [v]. *)
Inductive piece : Type :=
| PLit (t : text)
| PMark (k v : text).

Definition piece_placeholder (p : piece) : text :=
  match p with
  | PLit t => t
  | PMark k _ => quoted_placeholder k
  end.

Definition piece_final (p : piece) : text :=
  match p with
  | PLit t => t
  | PMark _ v => v
  end.

Definition placeholder_text (pcs : list piece) : text :=
  List.concat (map piece_placeholder pcs).

Definition final_text (pcs : list piece) : text :=
  List.concat (map piece_final pcs).

Fixpoint marks (pcs : list piece) : dict text :=
  match pcs with
  | [] => []
  | PLit _ :: r => marks r
  | PMark k v :: r => (k, v) :: marks r
  end.

(** A piece while the loop of [encode] runs: the marked values whose keys
    are in [done] stand in their own rendering, the others as quoted
    placeholders. *)
Definition piece_partial (done : list text) (p : piece) : text :=
  match p with
  | PLit t => t
  | PMark k v => if contains done k then v else quoted_placeholder k
  end.

Definition partial_text (done : list text) (pcs : list piece) : text :=
  List.concat (map (piece_partial done) pcs).

(** One turn of the loop of [CustomEncoder.encode]. *)
Definition replace_step (result : text) (kv : text * text) : text :=
  str_replace result (quoted_placeholder (fst kv)) (snd kv).

(** The rendering of each chunk, up to the first that raises. *)
Fixpoint prerender (chunks : list chunk) : result (list (text + text)) :=
  match chunks with
  | [] => Ok []
  | Lit t :: cs => (r <- prerender cs ;; Ok (inl t :: r))%res
  | Dflt o :: cs =>
      (v <- chunk_text (Dflt o) ;; r <- prerender cs ;; Ok (inr v :: r))%res
  end.

(** The keys the generator [uuid] gives to the marked pieces, from its
    [n]-th call on. *)
Fixpoint with_keys (uuid : nat -> text) (n : nat) (ps : list (text + text))
  : list piece :=
  match ps with
  | [] => []
  | inl t :: r => PLit t :: with_keys uuid n r
  | inr v :: r => PMark (uuid n) v :: with_keys uuid (S n) r
  end.

(** The pieces agree with their keys: the keys are pairwise different
    identifiers, and every text of the document is safe for each of them. *)
Definition pieces_ok (pcs : list piece) : Prop :=
  NoDup (map fst (marks pcs)) /\
  forall k, In k (map fst (marks pcs)) ->
            is_uuid_hex k = true /\
            forall p, In p pcs -> safe (placeholder k) (piece_final p).

(** The characters of a placeholder. *)
Definition placeholder_char (c : ascii) : Prop :=
  c = at_sign \/ is_hex_lower c = true.

(** A key is fresh for a tree. *)
Definition fresh (k : text) (o : pyobj) : Prop :=
  is_uuid_hex k = true /\
  forall s, In s (strings_of o) -> ~ occurs (placeholder k) s.

(** A chunk is safe for a key when its text, if it has one, is. *)
Definition chunk_safe (k : text) (c : chunk) : Prop :=
  forall r, chunk_text c = Ok r -> safe (placeholder k) r.

(** The number of chunks handed to [default]. *)
Fixpoint dflts (chunks : list chunk) : nat :=
  match chunks with
  | [] => 0
  | Lit _ :: cs => dflts cs
  | Dflt _ :: cs => S (dflts cs)
  end.

(** The world after [n] more calls of the generator. *)
Definition after_calls (w : World) (n : nat) : World :=
  {| files := files w; uuid4_hex := uuid4_hex w;
     uuid4_calls := uuid4_calls w + n |}.

(** The encoder with more entries in its replacement map. *)
Definition with_marks (self : CustomEncoder) (kvs : dict text) : CustomEncoder :=
  {| encoder := encoder self;
     _replacement_map :=
       fold_left (fun m kv => dict_set m (fst kv) (snd kv)) kvs
                 (_replacement_map self) |}.

(** A text that cannot prolong a number that stands before it. *)
Definition delimits (rest : text) : Prop :=
  match rest with
  | [] => True
  | c :: _ => is_numchar c = false
  end.

(** [T] is read as the tokens [toks], whatever follows it. *)
Definition lexes_any (ws : bool) (T : text) (toks : list token) : Prop :=
  forall rest n r,
    lex ws n rest = Some r ->
    lex ws (n + List.length T) (T ++ rest) = Some (toks ++ r).

(** [T] is read as the tokens [toks] when what follows cannot prolong a
    number. *)
Definition lexes (ws : bool) (T : text) (toks : list token) : Prop :=
  forall rest n r,
    delimits rest ->
    lex ws n rest = Some r ->
    lex ws (n + List.length T) (T ++ rest) = Some (toks ++ r).

(** An encoder whose output the lexer reads: separators of the usual
    form, and no whitespace at all when the lexer refuses whitespace. *)
Definition enc_lexable (ws : bool) (enc : JSONEncoder) : Prop :=
  enc_ok enc = true /\
  (ws = false ->
   indent enc = None /\ item_separator enc = [","%char]
   /\ key_separator enc = [":"%char]).

(** The six structural characters and their tokens. *)
Definition structural (c : ascii) : option token :=
  if ascii_eqb c "{"%char then Some TLBrace
  else if ascii_eqb c "}"%char then Some TRBrace
  else if ascii_eqb c "["%char then Some TLBracket
  else if ascii_eqb c "]"%char then Some TRBracket
  else if ascii_eqb c ","%char then Some TComma
  else if ascii_eqb c ":"%char then Some TColon
  else None.

(** Whitespace the lexer accepts: any when it skips whitespace, none
    otherwise. *)
Definition blank (ws : bool) (W : text) : Prop :=
  forallb is_ws W = true /\ (ws = false -> W = []).

(** [obj[name] = Custom(obj[name], **args)] for each pair of [specs], in
    turn: the loop [compact] and [no_indent] have in common. *)
Definition wrap_fold (acc : result pyobj) (specs : list (text * custom_args))
  : result pyobj :=
  fold_left (fun acc spec =>
               (o <- acc ;;
                v <- getitem o (fst spec) ;;
                setitem o (fst spec) (PCustom v (snd spec)))%res)
            specs acc.

(** The first token of a value opens it: it is not a closing bracket. *)
Definition closes (t : token) : bool :=
  match t with
  | TRBracket | TRBrace => true
  | _ => false
  end.



(* ================================================================== *)
(** ** Sample data *)

Definition demo_variable (vals : list pyobj) : DataArray :=
  {| da_units := Ok (PText "K");
     da_long_name := Ok (PText "air temperature");
     da_values := {| nd_shape := [Z.of_nat (List.length vals)]; nd_flat := vals |} |}.

(** A data source with the given axes; every variable has the given shape,
    and [vals] gives its values. *)
Definition demo_reader (axes : list string) (shp : list Z)
  (vals : text -> list pyobj) : Reader :=
  {| get_axes := Ok (map (fun a => (str a, PNone)) axes);
     get_x := Ok {| nd_shape := [2%Z]; nd_flat := [PInt 10; PInt 20] |};
     get_y := Ok {| nd_shape := [2%Z]; nd_flat := [PInt 50; PInt 60] |};
     get_z := Ok {| nd_shape := [1%Z]; nd_flat := [PInt 5] |};
     get_t := Ok [PText "2016-01-01T00:00:00"];
     get_std_name := fun v => Ok (PStr (str "standard name of " ++ v));
     get_units := fun _ => Ok (PText "kelvin");
     dataset := fun v => Ok (demo_variable (vals v));
     get_axis := fun _ => Ok [str "Y"; str "X"];
     get_type := fun _ => Ok (PText "integer");
     get_shape := fun _ => Ok shp;
     get_values := fun v => Ok {| nd_shape := shp; nd_flat := vals v |} |}.

Definition demo_open (axes : list string) (shp : list Z)
  (vals : text -> list pyobj) : text -> result Reader :=
  fun _ => Ok (demo_reader axes shp vals).

Definition demo_get_tiles : list Z -> text -> list Z -> ndarray
  -> result (list (ndarray * list text)) :=
  fun _ _ _ a => Ok (map (fun v => ({| nd_shape := [1%Z]; nd_flat := [v] |}, [str "x"]))
                         (nd_flat a)).
Definition demo_url_template : list Z -> text -> text -> list text -> text :=
  fun _ _ base _ => base ++ str "/{t}.covjson".
Definition demo_tileset : list Z -> text -> list Z -> pyobj :=
  fun _ url _ => PList [PDict [(str "urlTemplate", PStr url)]].
Definition demo_jsonld : text -> dict text -> result text := fun s _ => Ok s.

(** Thirty-two lower-case hexadecimal digits, different for the first 256
    calls. *)
Definition demo_uuid (n : nat) : text :=
  str "6f1d2c3b4a5968778695a4b3c2d1e0" ++ [hex_digit (n / 16 mod 16); hex_digit (n mod 16)].

Definition demo_world : World :=
  {| files := []; uuid4_hex := demo_uuid; uuid4_calls := 0 |}.

Definition demo_values (v : text) : list pyobj :=
  map (fun c => PInt (Z.of_nat (nat_of_char c))) v.

(** A writer on the sample data source. *)
Definition demo_writer (axes : list string) (shp : list Z) (vars : list text)
  (is_tiled ld : bool) : result Writer :=
  Writer_init (demo_open axes shp demo_values) (str "out.covjson")
    (str "data.nc") vars None is_tiled [2%Z; 2%Z] ld.

(** The writer [__init__] builds on the sample data source, written out. *)
Definition demo_self (axes : list string) (shp : list Z) (vars : list text)
  (is_tiled ld : bool) : Writer :=
  {| output_name := str "out.covjson";
     tile_shape := [2%Z; 2%Z];
     vars_to_write := vars;
     url_template := str "localhost:8080/{t}.covjson";
     tiled := is_tiled;
     range_type := if is_tiled then str "TiledNdArray" else str "NdArray";
     dataset_path := str "data.nc";
     reader := demo_reader axes shp demo_values;
     axis_dict := map (fun a => (str a, PNone)) axes;
     axis_list := map str axes;
     ref_list := [TemporalReferenceSystem; SpatialReferenceSystem2d];
     endpoint_url := None;
     covjson_ld := ld |}.

(** The NdArray range of a variable of the sample data source. *)
Definition demo_range (shp : list Z) (v : text) : Range :=
  {| range_range_type := str "NdArray";
     data_type := PText "integer";
     axes := [str "y"; str "x"];
     shape := shp;
     values := demo_values v;
     range_variable_name := v;
     tile_sets := PList [] |}.

(** A coverage with the given values for its variable [v]. *)
Definition demo_coverage (vals : list pyobj) : pyobj :=
  Coverage_to_dict
    {| domain_type := str "Grid";
       x_values := [PInt 10; PInt 20];
       y_values := [PFloat (FFinite (str "50.5")); PFloat (FFinite (str "-6e-05"))];
       z_values := [];
       t_values := [PText "2016-01-01T00:00:00"] |}
    {| range_range_type := str "NdArray";
       data_type := PText "float";
       axes := [str "y"; str "x"];
       shape := [2%Z; 2%Z];
       values := vals;
       range_variable_name := str "v";
       tile_sets := PList [] |}
    {| description := PText "air_temperature";
       param_variable_name := str "v";
       symbol := PText "K";
       unit_ := PText "kelvin, K";
       observed_property := PNone |}
    {| obj_list := [TemporalReferenceSystem; SpatialReferenceSystem2d] |}.

Definition finite_values : list pyobj :=
  [PFloat (FFinite (str "1.5")); PInt 2; PFloat (FFinite (str "1e+16")); PNone].

Definition nan_values : list pyobj :=
  [PFloat (FFinite (str "1.5")); PFloat FNaN; PInt 3; PInt 4].

(** Another run of the generator. *)
Definition other_uuid (n : nat) : text :=
  str "00112233445566778899aabbccdd" ++ [hex_digit (n mod 16); hex_digit (n / 16 mod 16)]
  ++ str "ee".

Definition other_world : World :=
  {| files := []; uuid4_hex := other_uuid; uuid4_calls := 7 |}.

(** A writer whose variable [abc] has three values and the shape 2 x 2. *)
Definition mismatch_writer : Writer :=
  demo_self ["x"; "y"]%string [2; 2]%Z [str "abc"] false false.

(** The sample coverage once [_save_covjson] has marked it. *)
Definition demo_marked : pyobj :=
  match mark_covjson (demo_coverage finite_values) with
  | Ok marked => marked
  | Raise _ => PNone
  end.

(** The member [ranges.<variable>.<field>] of a document. *)
Definition range_field (doc : pyobj) (variable field : text) : result pyobj :=
  (ranges <- getitem doc (str "ranges") ;;
   r <- getitem ranges variable ;;
   getitem r field)%res.

(* ================================================================== *)
(** ** Vocabulary of the further properties *)

(** A tree [json.dumps] with the custom encoder can render: no foreign
    object, and inside a marker neither a foreign object nor another
    marker. *)
Fixpoint renderable (o : pyobj) : bool :=
  match o with
  | PList l => forallb renderable l
  | PDict d => forallb (fun kv => renderable (snd kv)) d
  | PCustom v _ => markers v =? 0
  | POther _ => false
  | _ => true
  end.

(** The same for the chunks of a tree. *)
Definition chunk_renderable (c : chunk) : bool :=
  match c with
  | Lit _ => true
  | Dflt (PCustom v _) => markers v =? 0
  | Dflt _ => false
  end.

(** The error of [JSONEncoder.default]. *)
Definition not_serializable : exn := TypeError "Object is not JSON serializable".

(** A text on one line. *)
Definition oneline (t : text) : Prop := ~ In newline t.

(** A chunk whose text, if it has one, is on one line. *)
Definition chunk_oneline (c : chunk) : Prop :=
  forall t, chunk_text c = Ok t -> oneline t.

(** The two loops of [save_covjson_tiled], one after the other. *)
Definition mark_domain (obj : pyobj) : result pyobj :=
  (obj1 <- mark_axes obj ;;
   mark_referencing obj1)%res.

(** The shape of a mapping as far as [save_covjson_tiled] walks through
    it: the axes of the domain have [values], the references have
    [coordinates]. *)
Definition has_domain (obj : pyobj) : bool :=
  match obj with
  | PDict d =>
      match dict_get d (str "domain") with
      | Some (PDict dd) =>
          match dict_get dd (str "axes"), dict_get dd (str "referencing") with
          | Some (PDict da), Some (PList refs) =>
              forallb (fun kv => has_keys [str "values"] (snd kv)) da
              && forallb (has_keys [str "coordinates"]) refs
          | _, _ => false
          end
      | _ => false
      end
  | _ => false
  end.

(** The shape of a mapping as far as [save_covjson_range] walks through
    it: the ranges have [axisNames], [shape] and [values]. *)
Definition has_ranges (obj : pyobj) : bool :=
  match obj with
  | PDict d =>
      match dict_get d (str "ranges") with
      | Some (PDict dr) =>
          forallb (fun kv => has_keys [str "axisNames"; str "shape";
                                       str "values"] (snd kv)) dr
      | _ => false
      end
  | _ => false
  end.

(** The generator hands out fresh unique keys for the markers the loops
    [mark] put into [obj]. *)
Definition marks_fresh (mark : pyobj -> result pyobj) (w : World) (obj : pyobj)
  : bool :=
  match mark obj with
  | Ok marked => fresh_keys w marked
  | Raise _ => false
  end.

(* ================================================================== *)
(** ** More sample data *)

(** A world that already holds two files. *)
Definition stocked_world : World :=
  {| files := [(str "notes.txt", str "kept"); (str "out.covjson", str "old")];
     uuid4_hex := demo_uuid; uuid4_calls := 3 |}.

(** The sample writer with other values for the attributes [write] does
    not read. *)
Definition demo_self_variant (axes : list string) (shp : list Z)
  (vars : list text) (is_tiled : bool) : Writer :=
  {| output_name := str "out.covjson";
     tile_shape := [7%Z];
     vars_to_write := vars;
     url_template := str "example.org/{x}";
     tiled := is_tiled;
     range_type := str "Other";
     dataset_path := str "elsewhere.nc";
     reader := demo_reader axes shp demo_values;
     axis_dict := [];
     axis_list := map str axes;
     ref_list := [TemporalReferenceSystem; SpatialReferenceSystem2d];
     endpoint_url := Some (str "mongodb://localhost:27017");
     covjson_ld := true |}.

(** A writer on a data source that has no standard name for the variable
    [bad]. *)
Definition failing_self (vars : list text) : Writer :=
  {| output_name := str "out.covjson";
     tile_shape := [];
     vars_to_write := vars;
     url_template := str "localhost:8080/{t}.covjson";
     tiled := false;
     range_type := str "NdArray";
     dataset_path := str "data.nc";
     reader :=
       {| get_axes := Ok [(str "x", PNone); (str "y", PNone)];
          get_x := Ok {| nd_shape := [2%Z]; nd_flat := [PInt 10; PInt 20] |};
          get_y := Ok {| nd_shape := [2%Z]; nd_flat := [PInt 50; PInt 60] |};
          get_z := Raise (DataSourceError "no z axis");
          get_t := Raise (DataSourceError "no t axis");
          get_std_name :=
            fun v => if text_eqb v (str "bad")
                     then Raise (DataSourceError "no standard name")
                     else Ok (PStr v);
          get_units := fun _ => Ok (PText "kelvin");
          dataset := fun v => Ok (demo_variable (demo_values v));
          get_axis := fun _ => Ok [str "Y"; str "X"];
          get_type := fun _ => Ok (PText "integer");
          get_shape := fun _ => Ok [2%Z; 2%Z];
          get_values := fun v => Ok {| nd_shape := [2%Z; 2%Z];
                                       nd_flat := demo_values v |} |};
     axis_dict := [(str "x", PNone); (str "y", PNone)];
     axis_list := [str "x"; str "y"];
     ref_list := [SpatialReferenceSystem2d];
     endpoint_url := None;
     covjson_ld := false |}.

(** The fields of a range. *)
Definition demo_range_fields : dict pyobj :=
  [(str "type", PText "NdArray");
   (str "axisNames", PList [PText "y"; PText "x"]);
   (str "shape", PList [PInt 2; PInt 2]);
   (str "values", PList finite_values)].

(** A value whose strings hold a line break and a blank. *)
Definition multiline_value : pyobj :=
  PList [PStr [ascii_of_nat 97; newline; ascii_of_nat 98]; PText "c d";
         PFloat FNaN; PDict [(str "k", PInt 1)]].

(** A document of one range, as the tile loop builds them. *)
Definition demo_range_document : pyobj :=
  PDict [(str "ranges", Range_to_dict (demo_range [2; 2]%Z (str "abcd")))].


(** What [join] returns for the marked sample coverage. *)
Definition demo_joined : result (text * CustomEncoder) * World :=
  CustomEncoder_join (CustomEncoder_init (Some 2) None)
    (iterencode (JSONEncoder_init (Some 2) None) demo_marked 0) demo_world.

(** The sample writer on the variable [abcd], four values under the shape
    2 x 2. *)
Definition square_writer : Writer :=
  demo_self ["x"; "y"; "t"]%string [2; 2]%Z [str "abcd"] false false.

Definition square_domain : Domain :=
  {| domain_type := str "Grid";
     x_values := [PInt 10; PInt 20];
     y_values := [PInt 50; PInt 60];
     z_values := [];
     t_values := [PText "2016-01-01T00:00:00"] |}.

Definition square_param : Param :=
  {| description := PStr (str "standard name of abcd");
     param_variable_name := str "abcd";
     symbol := PText "K";
     unit_ := PText "kelvin";
     observed_property := PText "air temperature" |}.

(* ================================================================== *)
(** * Basic facts on text and values *)


Lemma ascii_eqb_eq : forall a b, ascii_eqb a b = true <-> a = b.
Proof. intros a b. unfold ascii_eqb. apply Ascii.eqb_eq. Qed.

Lemma ascii_eqb_refl : forall a, ascii_eqb a a = true.
Proof. intros a. apply ascii_eqb_eq. reflexivity. Qed.

Lemma ascii_eqb_neq : forall a b, ascii_eqb a b = false <-> a <> b.
Proof.
  intros a b. unfold ascii_eqb. apply Ascii.eqb_neq.
Qed.

Lemma text_eqb_eq : forall a b, text_eqb a b = true <-> a = b.
Proof.
  induction a as [|x a IH]; destruct b as [|y b]; cbn; split; intros H;
    try reflexivity; try discriminate.
  - apply andb_true_iff in H. destruct H as [Hx Ha].
    apply ascii_eqb_eq in Hx. apply IH in Ha. subst. reflexivity.
  - inversion H; subst. rewrite ascii_eqb_refl. cbn. apply IH. reflexivity.
Qed.

Lemma text_eqb_refl : forall a, text_eqb a a = true.
Proof. intros a. apply text_eqb_eq. reflexivity. Qed.

Lemma text_eqb_neq : forall a b, text_eqb a b = false <-> a <> b.
Proof.
  intros a b. split.
  - intros H E. apply text_eqb_eq in E. congruence.
  - intros H. destruct (text_eqb a b) eqn:E; [|reflexivity].
    apply text_eqb_eq in E. contradiction.
Qed.

Lemma startswith_iff :
  forall old s, startswith s old = true <-> exists r, s = old ++ r.
Proof.
  induction old as [|x old IH]; intros s.
  - destruct s; cbn; (split; [intros _; eexists; reflexivity | reflexivity]).
  - destruct s as [|y s]; cbn.
    + split; [discriminate | intros [r Hr]; discriminate].
    + rewrite andb_true_iff, ascii_eqb_eq, IH. split.
      * intros [-> [r ->]]. exists r. reflexivity.
      * intros [r Hr]. inversion Hr; subst. split; [reflexivity|].
        exists r. reflexivity.
Qed.

Lemma startswith_app : forall old r, startswith (old ++ r) old = true.
Proof. intros old r. apply startswith_iff. exists r. reflexivity. Qed.


Lemma occursb_iff : forall pat s, occursb pat s = true <-> occurs pat s.
Proof.
  intros pat s. induction s as [|c s IH].
  - cbn [occursb]. rewrite orb_false_r, startswith_iff. split.
    + intros [r Hr]. exists [], r. exact Hr.
    + intros [a [b Hab]]. destruct a; [exists b; exact Hab | discriminate].
  - cbn [occursb]. rewrite orb_true_iff, startswith_iff, IH. split.
    + intros [[r Hr] | [a [b Hab]]].
      * exists [], r. exact Hr.
      * exists (c :: a), b. rewrite Hab. reflexivity.
    + intros [a [b Hab]]. destruct a as [|x a].
      * left. exists b. exact Hab.
      * right. inversion Hab. exists a, b. reflexivity.
Qed.

Lemma occurs_cons : forall pat c s, occurs pat s -> occurs pat (c :: s).
Proof.
  intros pat c s [a [b H]]. exists (c :: a), b. rewrite H. reflexivity.
Qed.

(** Structural induction on values, through lists and dictionaries. *)
Lemma pyobj_ind :
  forall P : pyobj -> Prop,
    P PNone ->
    (forall b, P (PBool b)) ->
    (forall z, P (PInt z)) ->
    (forall f, P (PFloat f)) ->
    (forall s, P (PStr s)) ->
    (forall l, Forall P l -> P (PList l)) ->
    (forall d, Forall (fun kv => P (snd kv)) d -> P (PDict d)) ->
    (forall v a, P v -> P (PCustom v a)) ->
    (forall n, P (POther n)) ->
    forall o, P o.
Proof.
  intros P HN HB HI HF HS HL HD HC HO.
  fix IH 1. intros o. destruct o as [|b|z|f|s|l|d|v a|n].
  - exact HN.
  - apply HB.
  - apply HI.
  - apply HF.
  - apply HS.
  - apply HL. induction l as [|x l IHl]; constructor; [apply IH | exact IHl].
  - apply HD. induction d as [|[k x] d IHd]; constructor; [apply IH | exact IHd].
  - apply HC. apply IH.
  - apply HO.
Qed.

(** The world after an effect. *)
Lemma bind_ok :
  forall (A B : Type) (m : Py A) (k : A -> Py B) w a w',
    m w = (Ok a, w') -> bind m k w = k a w'.
Proof. intros A B m k w a w' H. unfold bind. rewrite H. reflexivity. Qed.

Lemma bind_raise :
  forall (A B : Type) (m : Py A) (k : A -> Py B) w e w',
    m w = (Raise e, w') -> bind m k w = (Raise e, w').
Proof. intros A B m k w e w' H. unfold bind. rewrite H. reflexivity. Qed.

(* ================================================================== *)
(** * Placeholders and replacement *)

Lemma last_cases :
  forall l : text, l = [] \/ exists l' y, l = l' ++ [y].
Proof.
  intros l. induction l as [|y l' _] using rev_ind.
  - left. reflexivity.
  - right. exists l', y. reflexivity.
Qed.

Section Safe.
Variable W : text.
Hypothesis HW : placeholder_like W.

Lemma W_has_at : In at_sign W.
Proof. destruct HW as [[W' HW'] _]. rewrite HW'. left. reflexivity. Qed.

Lemma safe_nil : safe W [].
Proof.
  split.
  - intros [a [b H]]. destruct HW as [[W' HW'] _]. rewrite HW' in H.
    destruct a; discriminate H.
  - intros p q H _. destruct p; [intros []|discriminate H].
  - intros p q H _. symmetry in H. apply app_eq_nil in H.
    destruct H as [_ ->]. intros [].
Qed.

Lemma safe_at_free : forall s, ~ In at_sign s -> safe W s.
Proof.
  intros s Hs. split.
  - intros [a [b H]]. apply Hs. rewrite H.
    apply in_or_app. right. apply in_or_app. left. apply W_has_at.
  - intros p q H _ Hin. apply Hs. rewrite H. apply in_or_app. left. exact Hin.
  - intros p q H _ Hin. apply Hs. rewrite H. apply in_or_app. right. exact Hin.
Qed.

Lemma safe_app : forall a b, safe W a -> safe W b -> safe W (a ++ b).
Proof.
  intros a b Ha Hb. split.
  - intros [x [y H]].
    apply app_eq_app in H. destruct H as [l [[H1 H2] | [H1 H2]]].
    + (* a = x ++ l, W ++ y = l ++ b *)
      apply app_eq_app in H2. destruct H2 as [m [[H3 H4] | [H3 H4]]].
      * (* W = l ++ m, b = m ++ y *)
        assert (Hl : ~ In at_sign l).
        { apply (safe_suf _ _ Ha x l H1).
          intros Hq. apply (proj2 HW). rewrite H3. apply in_or_app. left. exact Hq. }
        assert (Hm : ~ In at_sign m).
        { apply (safe_pre _ _ Hb m y H4).
          intros Hq. apply (proj2 HW). rewrite H3. apply in_or_app. right. exact Hq. }
        pose proof W_has_at as Hat. rewrite H3 in Hat.
        apply in_app_or in Hat. tauto.
      * (* l = W ++ m *)
        apply (safe_occ _ _ Ha). exists x, m. rewrite H1, H3. reflexivity.
    + apply (safe_occ _ _ Hb). exists l, y. exact H2.
  - intros p q H Hq.
    apply app_eq_app in H. destruct H as [l [[H1 H2] | [H1 H2]]].
    + apply (safe_pre _ _ Ha p l H1 Hq).
    + subst p. intros Hin. apply in_app_or in Hin. destruct Hin as [Hin | Hin].
      * revert Hin. apply (safe_pre _ _ Ha a [] (eq_sym (List.app_nil_r a))).
        intros Hx. apply Hq. apply in_or_app. left. exact Hx.
      * revert Hin. apply (safe_pre _ _ Hb l q H2).
        intros Hx. apply Hq. apply in_or_app. right. exact Hx.
  - intros p q H Hq.
    apply app_eq_app in H. destruct H as [l [[H1 H2] | [H1 H2]]].
    + subst q. intros Hin. apply in_app_or in Hin. destruct Hin as [Hin | Hin].
      * revert Hin. apply (safe_suf _ _ Ha p l H1).
        intros Hx. apply Hq. apply in_or_app. left. exact Hx.
      * revert Hin. apply (safe_suf _ _ Hb [] b eq_refl).
        intros Hx. apply Hq. apply in_or_app. right. exact Hx.
    + apply (safe_suf _ _ Hb l q H2 Hq).
Qed.

Lemma safe_concat : forall l, Forall (safe W) l -> safe W (List.concat l).
Proof.
  intros l H. induction H as [|x l Hx _ IH]; cbn.
  - apply safe_nil.
  - apply safe_app; assumption.
Qed.

Lemma W_last_not_quote : forall W' z, W = W' ++ [z] -> z <> quote.
Proof.
  intros W' z Hz E. apply (proj2 HW). rewrite Hz, E.
  apply in_or_app. right. left. reflexivity.
Qed.

(** A quoted text is safe as soon as the word does not occur inside. *)
Lemma safe_quoted : forall s, ~ occurs W s -> safe W (quote :: s ++ [quote]).
Proof.
  intros s Hs. split.
  - intros [a [b H]]. destruct a as [|x a].
    + destruct HW as [[W' HW'] _]. rewrite HW' in H. cbn in H.
      injection H as Hq _. discriminate Hq.
    + cbn in H. injection H as Hx H'.
      destruct (last_cases b) as [-> | [b' [y ->]]].
      * rewrite List.app_nil_r in H'.
        destruct (last_cases W) as [HWn | [W' [z Hz]]].
        -- pose proof W_has_at as Hat. rewrite HWn in Hat. exact Hat.
        -- apply (W_last_not_quote W' z Hz).
           rewrite Hz in H'. rewrite app_assoc in H'.
           apply app_inj_tail in H'. destruct H' as [_ Hzq].
           symmetry. exact Hzq.
      * rewrite !app_assoc in H'. apply app_inj_tail in H'.
        destruct H' as [H' _]. apply Hs. exists a, b'.
        rewrite H'. rewrite app_assoc. reflexivity.
  - intros p q H Hq. destruct p as [|x p]; [intros []|].
    cbn in H. injection H as Hx _. exfalso. apply Hq. left.
    symmetry. exact Hx.
  - intros p q H Hq.
    destruct (last_cases q) as [-> | [q' [y ->]]]; [intros []|].
    exfalso.
    change (quote :: s ++ [quote]) with ((quote :: s) ++ [quote]) in H.
    rewrite app_assoc in H. apply app_inj_tail in H. destruct H as [_ Hy].
    apply Hq. apply in_or_app. right. left. symmetry. exact Hy.
Qed.

End Safe.

Lemma first_quote_is_last :
  forall (W a b : text),
    ~ In quote W -> W ++ [quote] = a ++ quote :: b -> a = W /\ b = [].
Proof.
  induction W as [|c W IH]; intros a b HW H.
  - destruct a as [|x a].
    + cbn in H. injection H as H. subst b. split; reflexivity.
    + cbn in H. injection H as _ H. destruct a; discriminate H.
  - destruct a as [|x a].
    + cbn in H. injection H as Hc _. exfalso. apply HW. left. exact Hc.
    + cbn in H. injection H as Hc H.
      destruct (IH a b) as [Ha Hb].
      * intros Hin. apply HW. right. exact Hin.
      * exact H.
      * subst. split; reflexivity.
Qed.

Section Replace.
Variable W : text.
Hypothesis HW : placeholder_like W.
Variable new : text.

Local Abbreviation P := (quoted W).

Lemma replace_skip :
  forall l Y, replace_from P new (List.length l) (l ++ Y) = replace_from P new 0 Y.
Proof.
  induction l as [|c l IH]; intros Y.
  - reflexivity.
  - cbn [List.length List.app replace_from]. apply IH.
Qed.

(** Where the word does not occur nothing is replaced. *)
Lemma replace_none :
  forall Y, ~ occurs W Y -> replace_from P new 0 Y = Y.
Proof.
  induction Y as [|c Y IH]; intros HY; [reflexivity|].
  cbn [replace_from].
  destruct (startswith (c :: Y) P) eqn:E.
  - exfalso. apply startswith_iff in E. destruct E as [r Hr].
    apply HY. exists [quote], (quote :: r). rewrite Hr. unfold quoted.
    cbn. rewrite <- app_assoc. reflexivity.
  - f_equal. apply IH. intros Ho. apply HY. apply occurs_cons. exact Ho.
Qed.

(** Behind a safe text the quoted word is not met before its own
    position. *)
Lemma no_early_match :
  forall X x1 x2 Y,
    safe W X -> X = x1 ++ x2 -> x2 <> [] ->
    startswith (x2 ++ P ++ Y) P = false.
Proof.
  intros X x1 x2 Y HX HXs Hne.
  destruct (startswith (x2 ++ P ++ Y) P) eqn:E; [|reflexivity].
  exfalso. apply startswith_iff in E. destruct E as [r Hr].
  apply app_eq_app in Hr. destruct Hr as [l [[H1 H2] | [H1 H2]]].
  - (* x2 = P ++ l *)
    apply (safe_occ _ _ HX). exists (x1 ++ [quote]), (quote :: l).
    rewrite HXs, H1. unfold quoted. cbn. rewrite <- !app_assoc. reflexivity.
  - (* P = x2 ++ l, P ++ Y = l ++ r *)
    destruct x2 as [|c x2]; [apply Hne; reflexivity|].
    unfold quoted in H1. cbn in H1. injection H1 as Hc H1.
    destruct l as [|d l].
    + rewrite List.app_nil_r in H1.
      apply (safe_occ _ _ HX). exists (x1 ++ [c]), [quote].
      rewrite HXs, <- H1. rewrite <- app_assoc. reflexivity.
    + unfold quoted in H2. cbn in H2. injection H2 as Hd _. subst d.
      apply first_quote_is_last in H1; [|exact (proj2 HW)].
      destruct H1 as [Hx2 _]. subst x2.
      apply (safe_occ _ _ HX). exists (x1 ++ [c]), [].
      rewrite HXs, List.app_nil_r, <- app_assoc. reflexivity.
Qed.

(** The one occurrence behind a safe text is replaced, and the scan goes
    on behind it. *)
Lemma replace_hit :
  forall X Y,
    safe W X ->
    replace_from P new 0 (X ++ P ++ Y) = X ++ new ++ replace_from P new 0 Y.
Proof.
  intros X Y HX.
  assert (Hs : forall x1 x2, X = x1 ++ x2 ->
               replace_from P new 0 (x2 ++ P ++ Y)
               = x2 ++ new ++ replace_from P new 0 Y).
  { intros x1 x2. revert x1. induction x2 as [|c x2 IH]; intros x1 Hx.
    - cbn [List.app]. unfold quoted at 2. cbn [List.app replace_from].
      change (quote :: (W ++ [quote]) ++ Y) with (P ++ Y).
      rewrite startswith_app. f_equal.
      replace (List.length P - 1) with (List.length (W ++ [quote]))
        by (unfold quoted; cbn [List.length]; lia).
      apply replace_skip.
    - cbn [List.app replace_from].
      change (c :: x2 ++ P ++ Y) with ((c :: x2) ++ P ++ Y).
      rewrite (no_early_match X x1 (c :: x2) Y HX Hx) by discriminate.
      f_equal. apply (IH (x1 ++ [c])). rewrite Hx, <- app_assoc. reflexivity. }
  apply (Hs [] X). reflexivity.
Qed.

End Replace.

(** ** Keys *)

Lemma hex_lower_plain :
  forall c, is_hex_lower c = true ->
            c <> quote /\ c <> at_sign /\ escape_char c = [c].
Proof.
  intros c H.
  destruct c as [[] [] [] [] [] [] [] []]; try discriminate H;
    (split; [discriminate | split; [discriminate | reflexivity]]).
Qed.

Lemma uuid_hex_chars :
  forall k, is_uuid_hex k = true ->
            List.length k = 32 /\ Forall (fun c => is_hex_lower c = true) k.
Proof.
  intros k H. unfold is_uuid_hex in H. apply andb_true_iff in H.
  destruct H as [Hl Hc]. split.
  - apply Nat.eqb_eq. exact Hl.
  - apply Forall_forall. rewrite forallb_forall in Hc. exact Hc.
Qed.

Lemma placeholder_like_uuid :
  forall k, is_uuid_hex k = true -> placeholder_like (placeholder k).
Proof.
  intros k H. apply uuid_hex_chars in H. destruct H as [_ Hc]. split.
  - eexists. unfold placeholder. cbn. reflexivity.
  - unfold placeholder. intros Hin.
    apply in_app_or in Hin. destruct Hin as [Hin | Hin].
    + cbn in Hin. destruct Hin as [E | [E | []]]; discriminate E.
    + apply in_app_or in Hin. destruct Hin as [Hin | Hin].
      * rewrite Forall_forall in Hc. apply Hc in Hin.
        apply hex_lower_plain in Hin. destruct Hin as [Hq _]. apply Hq. reflexivity.
      * cbn in Hin. destruct Hin as [E | [E | []]]; discriminate E.
Qed.

(** A placeholder is left as it is by the string encoder. *)
Lemma escape_placeholder :
  forall k, is_uuid_hex k = true ->
            encode_basestring_ascii (placeholder k) = quoted_placeholder k.
Proof.
  intros k H. apply uuid_hex_chars in H. destruct H as [_ Hc].
  unfold encode_basestring_ascii, quoted_placeholder. do 2 f_equal.
  unfold placeholder. rewrite !flat_map_app. f_equal. f_equal.
  induction Hc as [|c k Hc _ IH]; [reflexivity|].
  cbn [flat_map]. rewrite IH.
  apply hex_lower_plain in Hc. destruct Hc as [_ [_ ->]]. reflexivity.
Qed.

Lemma occurs_same_length :
  forall (W s : text), occurs W s -> List.length W = List.length s -> W = s.
Proof.
  intros W s [a [b H]] Hl. subst s. rewrite !length_app in Hl.
  destruct a; [|cbn in Hl; lia]. destruct b; [|cbn in Hl; lia].
  cbn. rewrite List.app_nil_r. reflexivity.
Qed.

Lemma placeholder_inj : forall k k', placeholder k = placeholder k' -> k = k'.
Proof.
  intros k k' H. unfold placeholder in H.
  apply app_inv_head in H. apply app_inv_tail in H. exact H.
Qed.

Lemma safe_other_placeholder :
  forall k k',
    is_uuid_hex k = true -> is_uuid_hex k' = true -> k <> k' ->
    safe (placeholder k) (quoted_placeholder k').
Proof.
  intros k k' Hk Hk' Hne. unfold quoted_placeholder.
  apply safe_quoted; [apply placeholder_like_uuid; exact Hk|].
  intros Ho. apply Hne. apply placeholder_inj.
  apply occurs_same_length; [exact Ho|].
  apply uuid_hex_chars in Hk. apply uuid_hex_chars in Hk'.
  unfold placeholder. rewrite !length_app. lia.
Qed.

(** ** The loop of [encode] over the pieces of a document *)

Lemma pieces_ok_tail : forall p pcs, pieces_ok (p :: pcs) -> pieces_ok pcs.
Proof.
  intros p pcs [Hnd Hk]. split.
  - destruct p; cbn in Hnd; [exact Hnd | inversion Hnd; assumption].
  - intros k Hin.
    assert (Hin' : In k (map fst (marks (p :: pcs)))).
    { destruct p; cbn; [exact Hin | right; exact Hin]. }
    destruct (Hk k Hin') as [Hu Hs]. split; [exact Hu|].
    intros q Hq. apply Hs. right. exact Hq.
Qed.

(** For a key that marks no piece of [pcs], the text with placeholders is
    safe too. *)
Lemma placeholder_text_safe :
  forall k pcs,
    is_uuid_hex k = true ->
    ~ In k (map fst (marks pcs)) ->
    (forall k', In k' (map fst (marks pcs)) -> is_uuid_hex k' = true) ->
    (forall p, In p pcs -> safe (placeholder k) (piece_final p)) ->
    safe (placeholder k) (placeholder_text pcs).
Proof.
  intros k pcs Hk. induction pcs as [|p pcs IH]; intros Hnin Hu Hs.
  - apply safe_nil. apply placeholder_like_uuid. exact Hk.
  - unfold placeholder_text. cbn [map List.concat].
    apply safe_app; [apply placeholder_like_uuid; exact Hk | |].
    + destruct p as [t | k' v]; cbn [piece_placeholder].
      * apply (Hs (PLit t)). left. reflexivity.
      * apply safe_other_placeholder; [exact Hk | |].
        -- apply Hu. cbn. left. reflexivity.
        -- intros E. apply Hnin. cbn. left. symmetry. exact E.
    + apply IH.
      * intros Hin. apply Hnin. destruct p; cbn; [exact Hin | right; exact Hin].
      * intros k' Hin. apply Hu. destruct p; cbn; [exact Hin | right; exact Hin].
      * intros q Hq. apply Hs. right. exact Hq.
Qed.

Lemma str_replace_quoted :
  forall s k v,
    str_replace s (quoted_placeholder k) v
    = replace_from (quote :: placeholder k ++ [quote]) v 0 s.
Proof. intros s k v. reflexivity. Qed.

(** The replacements turn the text with placeholders into the final
    text, behind any prefix [X] that is safe for the keys to come. *)
Lemma subst_pieces :
  forall pcs X,
    pieces_ok pcs ->
    (forall k, In k (map fst (marks pcs)) -> safe (placeholder k) X) ->
    fold_left replace_step (marks pcs) (X ++ placeholder_text pcs)
    = X ++ final_text pcs.
Proof.
  induction pcs as [|p pcs IH]; intros X Hok HX.
  - reflexivity.
  - pose proof (pieces_ok_tail p pcs Hok) as Hok'.
    destruct p as [t | k v].
    + cbn [marks]. unfold placeholder_text, final_text.
      cbn [map List.concat piece_placeholder piece_final].
      rewrite !app_assoc. apply IH; [exact Hok'|].
      intros k Hin. destruct Hok as [_ Hk].
      destruct (Hk k Hin) as [Hu Hs].
      apply safe_app; [apply placeholder_like_uuid; exact Hu | apply HX; exact Hin |].
      apply (Hs (PLit t)). left. reflexivity.
    + cbn [marks fold_left]. unfold replace_step at 2. cbn [fst snd].
      unfold placeholder_text, final_text.
      cbn [map List.concat piece_placeholder piece_final].
      fold (placeholder_text pcs). fold (final_text pcs).
      destruct Hok as [Hnd Hk]. cbn [marks map fst] in Hnd, Hk.
      destruct (Hk k (or_introl eq_refl)) as [Hu Hs].
      rewrite str_replace_quoted. unfold quoted_placeholder.
      change (quote :: placeholder k ++ [quote]) with (quoted (placeholder k)).
      rewrite (replace_hit (placeholder k) (placeholder_like_uuid k Hu) v X
                 (placeholder_text pcs)).
      * rewrite replace_none.
        -- rewrite (app_assoc X v (placeholder_text pcs)),
             (app_assoc X v (final_text pcs)).
           apply IH; [exact Hok'|].
           intros k' Hin. destruct (Hk k' (or_intror Hin)) as [Hu' Hs'].
           apply safe_app; [apply placeholder_like_uuid; exact Hu' | |].
           ++ apply HX. right. exact Hin.
           ++ apply (Hs' (PMark k v)). left. reflexivity.
        -- apply safe_occ. apply placeholder_text_safe.
           ++ exact Hu.
           ++ inversion Hnd; assumption.
           ++ intros k' Hin. apply (Hk k'). right. exact Hin.
           ++ intros q Hq. apply Hs. right. exact Hq.
      * apply HX. left. reflexivity.
Qed.

(** ** The texts of a document are safe for a fresh key *)

Lemma escape_char_cases :
  forall d, escape_char d = [d] \/
            exists t, escape_char d = backslash :: t /\ ~ In at_sign t.
Proof.
  intros d.
  destruct d as [[] [] [] [] [] [] [] []];
    first [ left; reflexivity
          | right; eexists; split; [reflexivity|];
            cbv; intros H;
            repeat (destruct H as [H | H]; [discriminate H|]); exact H ].
Qed.

Lemma placeholder_char_plain :
  forall c, placeholder_char c -> c <> backslash /\ escape_char c = [c].
Proof.
  intros c [-> | H].
  - split; [discriminate | reflexivity].
  - destruct c as [[] [] [] [] [] [] [] []]; try discriminate H;
      (split; [discriminate | reflexivity]).
Qed.

Lemma placeholder_chars :
  forall k, is_uuid_hex k = true -> Forall placeholder_char (placeholder k).
Proof.
  intros k H. apply uuid_hex_chars in H. destruct H as [_ Hc].
  unfold placeholder. apply Forall_app. split; [|apply Forall_app; split].
  - repeat constructor; left; reflexivity.
  - revert Hc. apply Forall_impl. intros c Hc. right. exact Hc.
  - repeat constructor; left; reflexivity.
Qed.

Lemma startswith_escaped :
  forall W s,
    Forall placeholder_char W ->
    startswith (flat_map escape_char s) W = true -> startswith s W = true.
Proof.
  induction W as [|c W IH]; intros s HW H.
  - destruct s; reflexivity.
  - inversion HW as [|c' W' Hc HW']; subst.
    destruct s as [|d s]; [cbn in H; discriminate H|].
    cbn [flat_map] in H.
    destruct (escape_char_cases d) as [E | [t [E _]]]; rewrite E in H.
    + cbn in H. apply andb_true_iff in H. destruct H as [H1 H2].
      cbn. rewrite H1. cbn. apply IH; assumption.
    + cbn in H. apply andb_true_iff in H. destruct H as [H1 _].
      apply ascii_eqb_eq in H1. subst c.
      apply placeholder_char_plain in Hc. destruct Hc as [Hc _].
      exfalso. apply Hc. reflexivity.
Qed.

Lemma occurs_escaped :
  forall W s,
    placeholder_like W -> Forall placeholder_char W ->
    occurs W (flat_map escape_char s) -> occurs W s.
Proof.
  intros W s HW HWc. induction s as [|d s IH]; intros Ho.
  - exact Ho.
  - cbn [flat_map] in Ho. destruct Ho as [a [b H]].
    apply app_eq_app in H. destruct H as [l [[H1 H2] | [H1 H2]]].
    + (* escape_char d = a ++ l, W ++ b = l ++ flat_map .. s *)
      destruct l as [|x l].
      * apply occurs_cons. apply IH. exists [], b. cbn in H2. symmetry. exact H2.
      * destruct HW as [[W' HW'] HWq].
        destruct (escape_char_cases d) as [E | [t [E Ht]]].
        -- rewrite E in H1. destruct a as [|y a].
           ++ cbn in H1. injection H1 as Hx Hl. subst x l.
              assert (Hst : startswith (flat_map escape_char (d :: s)) W = true).
              { apply startswith_iff. exists b. cbn [flat_map]. rewrite E.
                cbn. cbn in H2. symmetry. exact H2. }
              apply startswith_escaped in Hst; [|exact HWc].
              apply startswith_iff in Hst. destruct Hst as [r Hr].
              exists [], r. exact Hr.
           ++ cbn in H1. injection H1 as _ H1. destruct a; discriminate H1.
        -- exfalso. rewrite HW' in H2. cbn in H2. injection H2 as Hx _.
           subst x. rewrite E in H1. destruct a as [|y a].
           ++ cbn in H1. injection H1 as H1 _. discriminate H1.
           ++ cbn in H1. injection H1 as _ H1. apply Ht. rewrite H1.
              apply in_or_app. right. left. reflexivity.
    + apply occurs_cons. apply IH. exists l, b. exact H2.
Qed.

Lemma fresh_key_fresh : forall o k, fresh_key o k = true -> fresh k o.
Proof.
  intros o k H. unfold fresh_key in H. apply andb_true_iff in H.
  destruct H as [Hu Hs]. split; [exact Hu|].
  intros s Hin Ho. rewrite forallb_forall in Hs. specialize (Hs s Hin).
  apply occursb_iff in Ho. rewrite Ho in Hs. discriminate Hs.
Qed.

Lemma safe_string_literal :
  forall k s,
    is_uuid_hex k = true -> ~ occurs (placeholder k) s ->
    safe (placeholder k) (encode_basestring_ascii s).
Proof.
  intros k s Hk Hs. unfold encode_basestring_ascii.
  apply safe_quoted; [apply placeholder_like_uuid; exact Hk|].
  intros Ho. apply Hs. apply occurs_escaped in Ho.
  - exact Ho.
  - apply placeholder_like_uuid. exact Hk.
  - apply placeholder_chars. exact Hk.
Qed.

Lemma digits_at_free : forall d, ~ In at_sign (digits_of_uint d).
Proof.
  induction d; cbn; intros H; try (destruct H as [H | H]; [discriminate H|]);
    auto.
Qed.

Lemma int_repr_at_free : forall z, ~ In at_sign (int_repr z).
Proof.
  intros z. unfold int_repr. destruct (Z.to_int z) as [d|d].
  - apply digits_at_free.
  - cbn. intros [H | H]; [discriminate H|]. revert H. apply digits_at_free.
Qed.

Lemma numchars_at_free :
  forall r, forallb is_numchar r = true -> ~ In at_sign r.
Proof.
  intros r H Hin. rewrite forallb_forall in H. apply H in Hin.
  discriminate Hin.
Qed.

Lemma float_repr_numchars :
  forall r, float_repr_ok r = true -> forallb is_numchar r = true.
Proof.
  intros r H. unfold float_repr_ok in H. destruct r as [|c r]; [discriminate H|].
  apply andb_true_iff in H. destruct H as [H _].
  apply andb_true_iff in H. destruct H as [_ H]. exact H.
Qed.

Lemma ws_at_free : forall ws, forallb is_ws ws = true -> ~ In at_sign ws.
Proof.
  intros ws H Hin. rewrite forallb_forall in H. apply H in Hin.
  discriminate Hin.
Qed.

Lemma newline_indent_at_free : forall w l, ~ In at_sign (newline_indent w l).
Proof.
  intros w l. unfold newline_indent. intros [H | H]; [discriminate H|].
  apply repeat_spec in H. discriminate H.
Qed.

Lemma sep_at_free :
  forall c s, c <> at_sign -> sep_ok c s = true -> ~ In at_sign s.
Proof.
  intros c s Hc H. destruct s as [|x ws]; [discriminate H|].
  cbn in H. apply andb_true_iff in H. destruct H as [Hx Hws].
  apply ascii_eqb_eq in Hx. subst x. intros [E | Hin].
  - apply Hc. exact E.
  - revert Hin. apply ws_at_free. exact Hws.
Qed.

Lemma Forall_join_items :
  forall (P : chunk -> Prop) sep items,
    P (Lit sep) -> Forall (Forall P) items -> Forall P (join_items sep items).
Proof.
  intros P sep items Hsep H. induction H as [|x items Hx Hitems IH].
  - constructor.
  - cbn [join_items]. destruct items as [|y items]; [exact Hx|].
    apply Forall_app. split; [exact Hx|]. constructor; [exact Hsep | exact IH].
Qed.

Lemma chunk_safe_lit :
  forall k t, safe (placeholder k) t -> chunk_safe k (Lit t).
Proof.
  intros k t H r Hr. cbn in Hr. injection Hr as <-. exact H.
Qed.

Lemma chunk_safe_at_free :
  forall k t, is_uuid_hex k = true -> ~ In at_sign t -> chunk_safe k (Lit t).
Proof.
  intros k t Hk Ht. apply chunk_safe_lit. apply safe_at_free; [|exact Ht].
  apply placeholder_like_uuid. exact Hk.
Qed.

(** What the base encoder returns is the concatenation of its chunks. *)
Lemma join_safe :
  forall k chunks r,
    is_uuid_hex k = true ->
    Forall (chunk_safe k) chunks ->
    JSONEncoder_join chunks = Ok r -> safe (placeholder k) r.
Proof.
  intros k chunks r Hk H. revert r.
  induction H as [|c chunks Hc _ IH]; intros r Hr.
  - cbn in Hr. injection Hr as <-. apply safe_nil.
    apply placeholder_like_uuid. exact Hk.
  - destruct c as [t | o]; cbn in Hr; [|discriminate Hr].
    destruct (JSONEncoder_join chunks) as [r'|e]; [|discriminate Hr].
    cbn in Hr. injection Hr as <-.
    apply safe_app; [apply placeholder_like_uuid; exact Hk | |].
    + apply (Hc t). reflexivity.
    + apply IH. reflexivity.
Qed.

Lemma enc_ok_init : forall ind, enc_ok (JSONEncoder_init ind None) = true.
Proof. intros [n|]; reflexivity. Qed.

Lemma fresh_list_elem :
  forall k l x, fresh k (PList l) -> In x l -> fresh k x.
Proof.
  intros k l x [Hu Hs] Hin. split; [exact Hu|].
  intros s Hsin. apply Hs. cbn [strings_of]. apply in_flat_map.
  exists x. split; assumption.
Qed.

Lemma fresh_dict_value :
  forall k d kv, fresh k (PDict d) -> In kv d -> fresh k (snd kv).
Proof.
  intros k d kv [Hu Hs] Hin. split; [exact Hu|].
  intros s Hsin. apply Hs. cbn [strings_of]. apply in_flat_map.
  exists kv. split; [exact Hin | right; exact Hsin].
Qed.

Lemma fresh_dict_key :
  forall k d kv, fresh k (PDict d) -> In kv d ->
                 ~ occurs (placeholder k) (fst kv).
Proof.
  intros k d kv [Hu Hs] Hin. apply Hs. cbn [strings_of]. apply in_flat_map.
  exists kv. split; [exact Hin | left; reflexivity].
Qed.

Ltac split_chunks := repeat (apply Forall_cons || apply Forall_nil).

(** Every chunk of the encoding of a tree is safe for a fresh key. *)
Lemma chunks_safe :
  forall k o enc level,
    enc_ok enc = true -> encodable o = true -> fresh k o ->
    Forall (chunk_safe k) (iterencode enc o level).
Proof.
  intros k o. induction o as [|b|z|f|s|l IH|d IH|v a IH|n] using pyobj_ind;
    intros enc level Henc Hwf Hfr; pose proof (proj1 Hfr) as Hk.
  - split_chunks. apply chunk_safe_at_free; [exact Hk|].
    cbv. intuition discriminate.
  - destruct b; split_chunks; (apply chunk_safe_at_free; [exact Hk|]);
      cbv; intuition discriminate.
  - split_chunks. apply chunk_safe_at_free; [exact Hk|].
    apply int_repr_at_free.
  - split_chunks. apply chunk_safe_at_free; [exact Hk|].
    destruct f as [|[]|r]; cbn [floatstr]; try (cbv; intuition discriminate).
    apply numchars_at_free. apply float_repr_numchars. exact Hwf.
  - split_chunks. apply chunk_safe_lit. apply safe_string_literal.
    + exact Hk.
    + apply (proj2 Hfr). left. reflexivity.
  - (* list *)
    apply andb_true_iff in Henc. destruct Henc as [Hi Hks].
    assert (Hitems : forall lvl,
               Forall (Forall (chunk_safe k))
                 (map (fun v => iterencode enc v lvl) l)).
    { intros lvl. apply Forall_forall. intros cs Hcs.
      apply in_map_iff in Hcs. destruct Hcs as [x [<- Hx]].
      rewrite Forall_forall in IH. apply IH.
      - exact Hx.
      - unfold enc_ok. rewrite Hi, Hks. reflexivity.
      - cbn [encodable] in Hwf. rewrite forallb_forall in Hwf. apply Hwf. exact Hx.
      - apply (fresh_list_elem k l x Hfr Hx). }
    destruct l as [|x l']; [split_chunks; apply chunk_safe_at_free;
                            [exact Hk | cbv; intuition discriminate]|].
    cbn [iterencode]. destruct (indent enc) as [w|].
    + constructor.
      * apply chunk_safe_at_free; [exact Hk|]. intros [E | Hin]; [discriminate E|].
        revert Hin. apply newline_indent_at_free.
      * apply Forall_app. split.
        -- apply Forall_join_items; [|apply (Hitems (level + 1))].
           apply chunk_safe_at_free; [exact Hk|]. intros Hin.
           apply in_app_or in Hin. destruct Hin as [Hin | Hin].
           ++ revert Hin. apply (sep_at_free ","%char); [discriminate | exact Hi].
           ++ revert Hin. apply newline_indent_at_free.
        -- split_chunks; (apply chunk_safe_at_free; [exact Hk|]).
           ++ apply newline_indent_at_free.
           ++ cbv. intuition discriminate.
    + constructor.
      * apply chunk_safe_at_free; [exact Hk | cbv; intuition discriminate].
      * apply Forall_app. split.
        -- apply Forall_join_items; [|apply (Hitems level)].
           apply chunk_safe_at_free; [exact Hk|].
           apply (sep_at_free ","%char); [discriminate | exact Hi].
        -- split_chunks. apply chunk_safe_at_free; [exact Hk|].
           cbv. intuition discriminate.
  - (* dictionary *)
    apply andb_true_iff in Henc. destruct Henc as [Hi Hks].
    assert (Hitems : forall lvl,
               Forall (Forall (chunk_safe k))
                 (map (fun kv => Lit (encode_basestring_ascii (fst kv))
                                 :: Lit (key_separator enc)
                                 :: iterencode enc (snd kv) lvl) d)).
    { intros lvl. apply Forall_forall. intros cs Hcs.
      apply in_map_iff in Hcs. destruct Hcs as [kv [<- Hkv]].
      constructor; [|constructor].
      - apply chunk_safe_lit. apply safe_string_literal; [exact Hk|].
        apply (fresh_dict_key k d kv Hfr Hkv).
      - apply chunk_safe_at_free; [exact Hk|].
        apply (sep_at_free ":"%char); [discriminate | exact Hks].
      - rewrite Forall_forall in IH. apply (IH kv Hkv).
        + unfold enc_ok. rewrite Hi, Hks. reflexivity.
        + cbn [encodable] in Hwf. rewrite forallb_forall in Hwf.
          apply (Hwf kv Hkv).
        + apply (fresh_dict_value k d kv Hfr Hkv). }
    destruct d as [|kv d']; [split_chunks; apply chunk_safe_at_free;
                             [exact Hk | cbv; intuition discriminate]|].
    cbn [iterencode]. destruct (indent enc) as [w|].
    + constructor; [apply chunk_safe_at_free;
                    [exact Hk | cbv; intuition discriminate]|].
      constructor; [apply chunk_safe_at_free;
                    [exact Hk | apply newline_indent_at_free]|].
      apply Forall_app. split.
      * apply Forall_join_items; [|apply (Hitems (level + 1))].
        apply chunk_safe_at_free; [exact Hk|]. intros Hin.
        apply in_app_or in Hin. destruct Hin as [Hin | Hin].
        -- revert Hin. apply (sep_at_free ","%char); [discriminate | exact Hi].
        -- revert Hin. apply newline_indent_at_free.
      * split_chunks; (apply chunk_safe_at_free; [exact Hk|]).
        -- apply newline_indent_at_free.
        -- cbv. intuition discriminate.
    + constructor; [apply chunk_safe_at_free;
                    [exact Hk | cbv; intuition discriminate]|].
      apply Forall_app. split.
      * apply Forall_join_items; [|apply (Hitems level)].
        apply chunk_safe_at_free; [exact Hk|].
        apply (sep_at_free ","%char); [discriminate | exact Hi].
      * split_chunks. apply chunk_safe_at_free; [exact Hk|].
        cbv. intuition discriminate.
  - (* marker *)
    cbn [iterencode]. split_chunks.
    intros r Hr. cbn [chunk_text] in Hr. unfold json_dumps, JSONEncoder_encode in Hr.
    cbn [encodable] in Hwf. apply andb_true_iff in Hwf. destruct Hwf as [Hv Ha].
    apply (join_safe k _ r Hk) in Hr; [exact Hr|].
    apply IH; [exact Ha | exact Hv |].
    split; [exact Hk | exact (proj2 Hfr)].
  - cbn [iterencode]. split_chunks.
    intros r Hr. cbn in Hr. discriminate Hr.
Qed.

(* ================================================================== *)
(** * The custom encoder *)

Lemma contains_In : forall l k, contains l k = true <-> In k l.
Proof.
  intros l k. unfold contains. rewrite existsb_exists. split.
  - intros [x [Hx E]]. apply text_eqb_eq in E. subst x. exact Hx.
  - intros H. exists k. split; [exact H | apply text_eqb_refl].
Qed.

Lemma nodupb_NoDup : forall l, nodupb l = true <-> NoDup l.
Proof.
  induction l as [|x l IH]; cbn [nodupb].
  - split; [constructor | reflexivity].
  - rewrite andb_true_iff, negb_true_iff, IH. split.
    + intros [Hx Hl]. constructor; [|exact Hl].
      intros Hin. apply contains_In in Hin. congruence.
    + intros H. inversion H as [|y l' Hx Hl]; subst. split; [|exact Hl].
      destruct (contains l x) eqn:E; [|reflexivity].
      apply contains_In in E. contradiction.
Qed.

Lemma dict_set_new :
  forall (A : Type) (m : dict A) k v,
    ~ In k (map fst m) -> dict_set m k v = m ++ [(k, v)].
Proof.
  intros A m k v. induction m as [|[k' v'] m IH]; intros H; [reflexivity|].
  cbn [dict_set]. destruct (text_eqb k' k) eqn:E.
  - apply text_eqb_eq in E. exfalso. apply H. left. exact E.
  - cbn [List.app]. f_equal. apply IH. intros Hin. apply H. right. exact Hin.
Qed.

Lemma dict_set_all_new :
  forall (A : Type) (kvs m : dict A),
    NoDup (map fst m ++ map fst kvs) ->
    fold_left (fun m kv => dict_set m (fst kv) (snd kv)) kvs m = m ++ kvs.
Proof.
  intros A kvs. induction kvs as [|[k v] kvs IH]; intros m H.
  - cbn. rewrite List.app_nil_r. reflexivity.
  - cbn [fold_left fst snd]. rewrite dict_set_new.
    + rewrite IH.
      * rewrite <- app_assoc. reflexivity.
      * rewrite map_app. cbn [map fst]. rewrite <- app_assoc. exact H.
    + cbn [map fst] in H. apply NoDup_remove_2 in H.
      intros Hin. apply H. apply in_or_app. left. exact Hin.
Qed.

Lemma marks_keys :
  forall u ps n,
    map fst (marks (with_keys u n ps))
    = map u (seq n (List.length (marks (with_keys u n ps)))).
Proof.
  intros u ps. induction ps as [|[t|v] ps IH]; intros n.
  - reflexivity.
  - cbn [with_keys marks]. apply IH.
  - cbn [with_keys marks map fst List.length seq]. f_equal. apply IH.
Qed.

Lemma marks_count :
  forall u chunks ps n,
    prerender chunks = Ok ps ->
    List.length (marks (with_keys u n ps)) = dflts chunks.
Proof.
  intros u chunks. induction chunks as [|[t|o] cs IH]; intros ps n H.
  - cbn in H. injection H as <-. reflexivity.
  - cbn [prerender] in H. destruct (prerender cs) as [r|e]; [|discriminate H].
    cbn in H. injection H as <-. cbn [with_keys marks dflts]. apply IH. reflexivity.
  - cbn [prerender] in H. destruct (chunk_text (Dflt o)) as [v|e]; [|discriminate H].
    cbn [rbind] in H. destruct (prerender cs) as [r|e]; [|discriminate H].
    cbn in H. injection H as <-. cbn [with_keys marks dflts List.length].
    f_equal. apply IH. reflexivity.
Qed.

Lemma expand_prerender :
  forall u chunks n,
    expand chunks
    = rbind (prerender chunks) (fun ps => Ok (final_text (with_keys u n ps))).
Proof.
  intros u chunks. induction chunks as [|[t|o] cs IH]; intros n.
  - reflexivity.
  - cbn [expand prerender chunk_text rbind]. rewrite (IH n).
    destruct (prerender cs); reflexivity.
  - cbn [expand prerender]. destruct (chunk_text (Dflt o)) as [v|e]; [|reflexivity].
    cbn [rbind]. rewrite (IH (S n)). destruct (prerender cs); reflexivity.
Qed.

Lemma pieces_safe :
  forall k u chunks ps n,
    prerender chunks = Ok ps ->
    Forall (chunk_safe k) chunks ->
    forall p, In p (with_keys u n ps) -> safe (placeholder k) (piece_final p).
Proof.
  intros k u chunks. induction chunks as [|[t|o] cs IH]; intros ps n H Hs p Hp.
  - cbn in H. injection H as <-. destruct Hp.
  - inversion Hs as [|c cs' Hc Hcs]; subst.
    cbn [prerender] in H. destruct (prerender cs) as [r|e]; [|discriminate H].
    cbn in H. injection H as <-. cbn [with_keys] in Hp. destruct Hp as [<- | Hp].
    + apply (Hc t). reflexivity.
    + apply (IH r n eq_refl Hcs p Hp).
  - inversion Hs as [|c cs' Hc Hcs]; subst.
    cbn [prerender] in H.
    destruct (chunk_text (Dflt o)) as [v|e] eqn:Ev; [|discriminate H].
    cbn [rbind] in H. destruct (prerender cs) as [r|e]; [|discriminate H].
    cbn in H. injection H as <-. cbn [with_keys] in Hp. destruct Hp as [<- | Hp].
    + apply (Hc v). exact Ev.
    + apply (IH r (S n) eq_refl Hcs p Hp).
Qed.

Lemma default_marker :
  forall self v a r w,
    json_dumps v a = Ok r ->
    CustomEncoder_default self (PCustom v a) w
    = (Ok (placeholder (uuid4_hex w (uuid4_calls w)),
           {| encoder := encoder self;
              _replacement_map :=
                dict_set (_replacement_map self) (uuid4_hex w (uuid4_calls w)) r |}),
       after_calls w 1).
Proof.
  intros self v a r w H. cbn [CustomEncoder_default].
  unfold bind, uuid4, lift, ret, after_calls. cbn [uuid4_hex uuid4_calls files].
  rewrite H. rewrite Nat.add_1_r. reflexivity.
Qed.

Lemma default_marker_raise :
  forall self v a e w,
    json_dumps v a = Raise e ->
    CustomEncoder_default self (PCustom v a) w = (Raise e, after_calls w 1).
Proof.
  intros self v a r w H. cbn [CustomEncoder_default].
  unfold bind, uuid4, lift, ret, after_calls. cbn [uuid4_hex uuid4_calls files].
  rewrite H. rewrite Nat.add_1_r. reflexivity.
Qed.

(** [join] when every chunk has a text: the text with placeholders, the
    marks entered in the map, one call of the generator for each marker. *)
Lemma join_ok :
  forall chunks ps self w,
    prerender chunks = Ok ps ->
    (forall i, i < dflts chunks ->
               is_uuid_hex (uuid4_hex w (uuid4_calls w + i)) = true) ->
    CustomEncoder_join self chunks w
    = (Ok (placeholder_text (with_keys (uuid4_hex w) (uuid4_calls w) ps),
           with_marks self (marks (with_keys (uuid4_hex w) (uuid4_calls w) ps))),
       after_calls w (dflts chunks)).
Proof.
  induction chunks as [|[t|o] cs IH]; intros ps self w H Hu.
  - cbn in H. injection H as <-. cbn. unfold ret, with_marks, after_calls. cbn.
    destruct self, w. cbn. rewrite Nat.add_0_r. reflexivity.
  - cbn [prerender] in H. destruct (prerender cs) as [r|e] eqn:Er; [|discriminate H].
    cbn in H. injection H as <-.
    cbn [CustomEncoder_join]. rewrite (bind_ok _ _ _ _ _ _ _ (IH r self w eq_refl Hu)).
    reflexivity.
  - cbn [prerender] in H.
    destruct (chunk_text (Dflt o)) as [v|e] eqn:Ev; [|discriminate H].
    cbn [rbind] in H. destruct (prerender cs) as [r|e] eqn:Er; [|discriminate H].
    cbn in H. injection H as <-.
    destruct o as [|b|z|f|s|l|d|v0 a|n]; try discriminate Ev.
    cbn [chunk_text] in Ev.
    cbn [CustomEncoder_join].
    rewrite (bind_ok _ _ _ _ _ _ _ (default_marker self v0 a v w Ev)).
    cbn [fst snd].
    pose proof (IH r {| encoder := encoder self;
                        _replacement_map :=
                          dict_set (_replacement_map self)
                            (uuid4_hex w (uuid4_calls w)) v |}
                  (after_calls w 1) eq_refl) as IH'.
    cbn [after_calls uuid4_hex uuid4_calls] in IH'.
    assert (Hu' : forall i, i < dflts cs ->
                  is_uuid_hex (uuid4_hex w (uuid4_calls w + 1 + i)) = true).
    { intros i Hi.
      replace (uuid4_calls w + 1 + i) with (uuid4_calls w + S i) by lia.
      apply Hu. cbn [dflts]. lia. }
    rewrite (bind_ok _ _ _ _ _ _ _ (IH' Hu')).
    unfold ret. cbn [fst snd with_keys marks dflts].
    rewrite escape_placeholder.
    + unfold placeholder_text, with_marks, after_calls.
      cbn [map List.concat piece_placeholder fold_left fst snd encoder
           _replacement_map files uuid4_hex uuid4_calls].
      rewrite Nat.add_1_r, Nat.add_succ_r. reflexivity.
    + rewrite <- (Nat.add_0_r (uuid4_calls w)). apply Hu. cbn [dflts]. lia.
Qed.

(** [join] when a chunk has no text: the first error comes out. *)
Lemma join_raise :
  forall chunks e self w,
    prerender chunks = Raise e ->
    exists w', CustomEncoder_join self chunks w = (Raise e, w')
               /\ files w' = files w.
Proof.
  induction chunks as [|[t|o] cs IH]; intros e self w H.
  - discriminate H.
  - cbn [prerender] in H. destruct (prerender cs) as [r|e'] eqn:Er; [discriminate H|].
    cbn in H. injection H as <-.
    destruct (IH e' self w eq_refl) as [w' [Hj Hf]].
    exists w'. split; [|exact Hf].
    cbn [CustomEncoder_join]. apply bind_raise. exact Hj.
  - cbn [prerender] in H.
    destruct (chunk_text (Dflt o)) as [v|e'] eqn:Ev.
    + cbn [rbind] in H.
      destruct (prerender cs) as [r|e'] eqn:Er; [discriminate H|].
      cbn in H. injection H as <-.
      destruct o as [|b|z|f|s|l|d|v0 a|n]; try discriminate Ev.
      cbn [chunk_text] in Ev.
      cbn [CustomEncoder_join].
      rewrite (bind_ok _ _ _ _ _ _ _ (default_marker self v0 a v w Ev)).
      cbn [fst snd].
      destruct (IH e' {| encoder := encoder self;
                         _replacement_map :=
                           dict_set (_replacement_map self)
                             (uuid4_hex w (uuid4_calls w)) v |}
                   (after_calls w 1) eq_refl) as [w' [Hj Hf]].
      exists w'. split; [|exact Hf].
      apply bind_raise. exact Hj.
    + cbn in H. injection H as <-.
      destruct o as [|b|z|f|s|l|d|v0 a|n];
        try (cbn in Ev; injection Ev as <-; eexists; split; reflexivity).
      cbn [chunk_text] in Ev.
      cbn [CustomEncoder_join].
      rewrite (bind_raise _ _ _ _ _ _ _ (default_marker_raise self v0 a e' w Ev)).
      eexists. split; reflexivity.
Qed.

Lemma dflts_app : forall a b, dflts (a ++ b) = dflts a + dflts b.
Proof.
  induction a as [|[t|o] a IH]; intros b; cbn [List.app dflts].
  - reflexivity.
  - apply IH.
  - rewrite IH. reflexivity.
Qed.

Lemma dflts_join_items :
  forall sep items, dflts (join_items sep items) = list_sum (map dflts items).
Proof.
  intros sep items. unfold list_sum.
  induction items as [|x items IH]; [reflexivity|].
  cbn [join_items map fold_right]. destruct items as [|y items].
  - cbn. lia.
  - rewrite dflts_app. cbn [dflts]. rewrite IH. reflexivity.
Qed.

Lemma list_sum_map_ext :
  forall (A : Type) (f g : A -> nat) l,
    Forall (fun x => f x = g x) l -> list_sum (map f l) = list_sum (map g l).
Proof.
  intros A f g l H. unfold list_sum.
  induction H as [|x l Hx _ IH]; [reflexivity|].
  cbn [map fold_right]. rewrite Hx, IH. reflexivity.
Qed.

(** [default] is called once for each marker of the tree. *)
Lemma dflts_iterencode :
  forall o enc level, dflts (iterencode enc o level) = markers o.
Proof.
  induction o as [|b|z|f|s|l IH|d IH|v a IH|n] using pyobj_ind; intros enc level;
    try reflexivity.
  - destruct b; reflexivity.
  - destruct l as [|x l']; [reflexivity|].
    cbn [iterencode markers]. destruct (indent enc) as [w|]; cbn [dflts];
      rewrite dflts_app, dflts_join_items, map_map; cbn [dflts];
      rewrite Nat.add_0_r; apply list_sum_map_ext;
      revert IH; apply Forall_impl; intros y Hy; apply Hy.
  - destruct d as [|kv d']; [reflexivity|].
    cbn [iterencode markers]. destruct (indent enc) as [w|]; cbn [dflts];
      rewrite dflts_app, dflts_join_items, map_map; cbn [dflts];
      rewrite Nat.add_0_r; apply list_sum_map_ext;
      revert IH; apply Forall_impl; intros y Hy; apply Hy.
Qed.

Lemma next_keys_fresh :
  forall w o,
    fresh_keys w o = true ->
    NoDup (next_keys w (markers o)) /\
    forall k, In k (next_keys w (markers o)) -> fresh k o.
Proof.
  intros w o H. unfold fresh_keys in H. apply andb_true_iff in H.
  destruct H as [Hnd Hfr]. split.
  - apply nodupb_NoDup. exact Hnd.
  - intros k Hk. rewrite forallb_forall in Hfr. apply fresh_key_fresh.
    apply Hfr. exact Hk.
Qed.

(** The encoder returns the document with mixed formatting, or raises
    what its first faulty marker raises; it writes no file. *)
Theorem encode_is_mixed :
  forall o kw_indent w,
    encodable o = true ->
    fresh_keys w o = true ->
    exists w',
      json_dumps_cls o kw_indent w = (mixed_dumps o kw_indent, w') /\
      files w' = files w.
Proof.
  intros o ind w Hwf Hfr.
  apply next_keys_fresh in Hfr. destruct Hfr as [Hnd Hfr].
  unfold json_dumps_cls, CustomEncoder_encode, mixed_dumps.
  cbn [CustomEncoder_init encoder].
  set (enc := JSONEncoder_init ind None).
  set (self := {| encoder := enc; _replacement_map := [] |}).
  set (chunks := iterencode enc o 0).
  assert (Hcount : dflts chunks = markers o) by apply dflts_iterencode.
  rewrite (expand_prerender (uuid4_hex w) chunks (uuid4_calls w)).
  destruct (prerender chunks) as [ps|e] eqn:Eps.
  - set (pcs := with_keys (uuid4_hex w) (uuid4_calls w) ps).
    assert (Hkeys : map fst (marks pcs) = next_keys w (markers o)).
    { unfold pcs, next_keys. rewrite marks_keys.
      rewrite (marks_count (uuid4_hex w) chunks ps (uuid4_calls w) Eps), Hcount.
      reflexivity. }
    assert (Hu : forall i, i < dflts chunks ->
                 is_uuid_hex (uuid4_hex w (uuid4_calls w + i)) = true).
    { intros i Hi. rewrite Hcount in Hi.
      apply (proj1 (Hfr (uuid4_hex w (uuid4_calls w + i))
                      ltac:(unfold next_keys; apply in_map; apply in_seq; lia))). }
    rewrite (bind_ok _ _ _ _ _ _ _ (join_ok chunks ps self w Eps Hu)).
    fold pcs. unfold ret. cbn [fst snd rbind].
    exists (after_calls w (dflts chunks)). split; [|reflexivity].
    f_equal. f_equal. unfold with_marks. cbn [_replacement_map self].
    rewrite dict_set_all_new by (cbn [map List.app]; rewrite Hkeys; exact Hnd).
    cbn [List.app].
    apply (subst_pieces pcs []).
    + split; [rewrite Hkeys; exact Hnd|].
      intros k Hk. rewrite Hkeys in Hk. specialize (Hfr k Hk).
      split; [exact (proj1 Hfr)|].
      apply (pieces_safe k (uuid4_hex w) chunks ps (uuid4_calls w) Eps).
      apply chunks_safe; [apply enc_ok_init | exact Hwf | exact Hfr].
    + intros k Hk. rewrite Hkeys in Hk. apply safe_nil.
      apply placeholder_like_uuid. exact (proj1 (Hfr k Hk)).
  - destruct (join_raise chunks e self w Eps) as [w' [Hj Hf]].
    exists w'. split; [|exact Hf].
    cbn [rbind]. apply bind_raise. exact Hj.
Qed.

(* ================================================================== *)
(** * The order of the replacements *)

Lemma marks_app : forall a b, marks (a ++ b) = marks a ++ marks b.
Proof.
  induction a as [|[t|k v] a IH]; intros b; cbn [List.app marks].
  - reflexivity.
  - apply IH.
  - rewrite IH. reflexivity.
Qed.

Lemma marks_split :
  forall pcs k v, In (k, v) (marks pcs) ->
                  exists pre post, pcs = pre ++ PMark k v :: post.
Proof.
  induction pcs as [|[t|k' v'] pcs IH]; intros k v H.
  - destruct H.
  - destruct (IH k v H) as [pre [post E]].
    exists (PLit t :: pre), post. rewrite E. reflexivity.
  - cbn [marks] in H. destruct H as [H | H].
    + injection H as -> ->. exists [], pcs. reflexivity.
    + destruct (IH k v H) as [pre [post E]].
      exists (PMark k' v' :: pre), post. rewrite E. reflexivity.
Qed.

Lemma partial_text_app :
  forall done a b,
    partial_text done (a ++ b) = partial_text done a ++ partial_text done b.
Proof.
  intros done a b. unfold partial_text. rewrite map_app, concat_app. reflexivity.
Qed.

Lemma partial_text_start : forall pcs, partial_text [] pcs = placeholder_text pcs.
Proof.
  intros pcs. reflexivity.
Qed.

Lemma partial_text_end :
  forall done pcs,
    (forall k, In k (map fst (marks pcs)) -> In k done) ->
    partial_text done pcs = final_text pcs.
Proof.
  intros done pcs H. unfold partial_text, final_text. f_equal.
  apply map_ext_in. intros [t|k v] Hin; [reflexivity|].
  cbn [piece_partial piece_final].
  destruct (in_split _ _ Hin) as [pre [post E]].
  assert (Hk : In k done).
  { apply H. rewrite E, marks_app, map_app. apply in_or_app. right. left. reflexivity. }
  apply contains_In in Hk. rewrite Hk. reflexivity.
Qed.

(** A key that marks no piece changes nothing when it is done. *)
Lemma partial_text_other :
  forall k done pcs,
    ~ In k (map fst (marks pcs)) ->
    partial_text (k :: done) pcs = partial_text done pcs.
Proof.
  intros k done pcs H. unfold partial_text. f_equal.
  apply map_ext_in. intros [t|k' v] Hin; [reflexivity|].
  cbn [piece_partial]. unfold contains. cbn [existsb].
  destruct (text_eqb k' k) eqn:E; [|reflexivity].
  apply text_eqb_eq in E. subst k'. exfalso. apply H.
  destruct (in_split _ _ Hin) as [pre [post E]].
  rewrite E, marks_app, map_app. apply in_or_app. right. left. reflexivity.
Qed.

(** For a key that marks no piece of [pcs], the text is safe at every
    stage of the loop. *)
Lemma partial_text_safe :
  forall k done pcs,
    is_uuid_hex k = true ->
    ~ In k (map fst (marks pcs)) ->
    (forall k', In k' (map fst (marks pcs)) -> is_uuid_hex k' = true) ->
    (forall p, In p pcs -> safe (placeholder k) (piece_final p)) ->
    safe (placeholder k) (partial_text done pcs).
Proof.
  intros k done pcs Hk. induction pcs as [|p pcs IH]; intros Hnin Hu Hs.
  - apply safe_nil. apply placeholder_like_uuid. exact Hk.
  - unfold partial_text. cbn [map List.concat].
    apply safe_app; [apply placeholder_like_uuid; exact Hk | |].
    + destruct p as [t | k' v]; cbn [piece_partial].
      * apply (Hs (PLit t)). left. reflexivity.
      * destruct (contains done k').
        -- apply (Hs (PMark k' v)). left. reflexivity.
        -- apply safe_other_placeholder; [exact Hk | |].
           ++ apply Hu. cbn. left. reflexivity.
           ++ intros E. apply Hnin. cbn. left. symmetry. exact E.
    + apply IH.
      * intros Hin. apply Hnin. destruct p; cbn; [exact Hin | right; exact Hin].
      * intros k' Hin. apply Hu. destruct p; cbn; [exact Hin | right; exact Hin].
      * intros q Hq. apply Hs. right. exact Hq.
Qed.

(** One turn of the loop, at any stage: the placeholder of its key, and
    nothing else, gives way to the rendering. *)
Lemma replace_one :
  forall pcs done k v,
    pieces_ok pcs ->
    In (k, v) (marks pcs) ->
    ~ In k done ->
    replace_step (partial_text done pcs) (k, v) = partial_text (k :: done) pcs.
Proof.
  intros pcs done k v [Hnd Hok] Hin Hdone.
  destruct (marks_split pcs k v Hin) as [pre [post E]]. subst pcs.
  rewrite marks_app, map_app in Hnd, Hok. cbn [marks map fst] in Hnd, Hok.
  assert (Hpre : ~ In k (map fst (marks pre))).
  { intros H. apply NoDup_remove_2 in Hnd. apply Hnd. apply in_or_app. left. exact H. }
  assert (Hpost : ~ In k (map fst (marks post))).
  { intros H. apply NoDup_remove_2 in Hnd. apply Hnd. apply in_or_app. right. exact H. }
  destruct (Hok k ltac:(apply in_or_app; right; left; reflexivity)) as [Hu Hs].
  assert (Hspre : safe (placeholder k) (partial_text done pre)).
  { apply partial_text_safe; [exact Hu | exact Hpre | |].
    - intros k' Hk'. apply (Hok k'). apply in_or_app. left. exact Hk'.
    - intros p Hp. apply Hs. apply in_or_app. left. exact Hp. }
  assert (Hspost : safe (placeholder k) (partial_text done post)).
  { apply partial_text_safe; [exact Hu | exact Hpost | |].
    - intros k' Hk'. apply (Hok k'). apply in_or_app. right. right. exact Hk'.
    - intros p Hp. apply Hs. apply in_or_app. right. right. exact Hp. }
  rewrite !partial_text_app.
  change (PMark k v :: post) with ([PMark k v] ++ post).
  rewrite !partial_text_app.
  rewrite (partial_text_other k done pre Hpre),
          (partial_text_other k done post Hpost).
  unfold partial_text at 2 5. cbn [map List.concat piece_partial].
  rewrite !List.app_nil_r.
  assert (Hc1 : contains done k = false).
  { destruct (contains done k) eqn:Ec; [|reflexivity].
    apply contains_In in Ec. contradiction. }
  assert (Hc2 : contains (k :: done) k = true).
  { apply contains_In. left. reflexivity. }
  rewrite Hc1, Hc2.
  unfold replace_step. cbn [fst snd].
  rewrite str_replace_quoted. unfold quoted_placeholder.
  change (quote :: placeholder k ++ [quote]) with (quoted (placeholder k)).
  rewrite (replace_hit (placeholder k) (placeholder_like_uuid k Hu) v
             (partial_text done pre) (partial_text done post) Hspre).
  rewrite replace_none by (apply safe_occ; exact Hspost).
  reflexivity.
Qed.

Lemma replace_in_any_order :
  forall pcs,
    pieces_ok pcs ->
    forall l done,
      NoDup (map fst l) ->
      (forall kv, In kv l -> In kv (marks pcs)) ->
      (forall k, In k (map fst l) -> ~ In k done) ->
      fold_left replace_step l (partial_text done pcs)
      = partial_text (List.rev (map fst l) ++ done) pcs.
Proof.
  intros pcs Hok l. induction l as [|[k v] l IH]; intros done Hnd Hin Hdone.
  - reflexivity.
  - cbn [fold_left map fst List.rev]. cbn [map fst] in Hnd, Hdone.
    rewrite (replace_one pcs done k v Hok).
    + rewrite IH.
      * rewrite <- app_assoc. reflexivity.
      * inversion Hnd; assumption.
      * intros kv Hkv. apply Hin. right. exact Hkv.
      * intros k' Hk' [E | Hd].
        -- subst k'. inversion Hnd; contradiction.
        -- apply (Hdone k'); [right; exact Hk' | exact Hd].
    + apply Hin. left. reflexivity.
    + apply Hdone. left. reflexivity.
Qed.

(** The loop of [encode] gives the final text in whatever order it visits
    the entries of the replacement map. *)
Lemma replacement_order_irrelevant :
  forall pcs l,
    pieces_ok pcs ->
    Permutation l (marks pcs) ->
    fold_left replace_step l (placeholder_text pcs) = final_text pcs.
Proof.
  intros pcs l Hok Hp.
  rewrite <- partial_text_start.
  rewrite (replace_in_any_order pcs Hok l []).
  - apply partial_text_end. intros k Hk. apply in_or_app. left.
    apply in_rev. rewrite rev_involutive.
    apply (Permutation_in k (Permutation_map fst (Permutation_sym Hp))). exact Hk.
  - apply (Permutation_NoDup (Permutation_map fst (Permutation_sym Hp))).
    exact (proj1 Hok).
  - intros kv Hkv. apply (Permutation_in kv Hp). exact Hkv.
  - intros k _ [].
Qed.

(** What [join] leaves behind for a document with fresh keys: the text
    with placeholders and the replacement map, both read off the pieces
    of the document. *)
Lemma encode_pieces :
  forall o kw_indent w ps,
    encodable o = true ->
    fresh_keys w o = true ->
    prerender (iterencode (JSONEncoder_init kw_indent None) o 0) = Ok ps ->
    pieces_ok (with_keys (uuid4_hex w) (uuid4_calls w) ps)
    /\ CustomEncoder_join (CustomEncoder_init kw_indent None)
         (iterencode (JSONEncoder_init kw_indent None) o 0) w
       = (Ok (placeholder_text (with_keys (uuid4_hex w) (uuid4_calls w) ps),
              {| encoder := JSONEncoder_init kw_indent None;
                 _replacement_map :=
                   marks (with_keys (uuid4_hex w) (uuid4_calls w) ps) |}),
          after_calls w (markers o))
    /\ mixed_dumps o kw_indent
       = Ok (final_text (with_keys (uuid4_hex w) (uuid4_calls w) ps)).
Proof.
  intros o ind w ps Hwf Hfr Eps.
  apply next_keys_fresh in Hfr. destruct Hfr as [Hnd Hfr].
  set (enc := JSONEncoder_init ind None) in *.
  set (chunks := iterencode enc o 0) in *.
  set (pcs := with_keys (uuid4_hex w) (uuid4_calls w) ps).
  assert (Hcount : dflts chunks = markers o) by apply dflts_iterencode.
  assert (Hkeys : map fst (marks pcs) = next_keys w (markers o)).
  { unfold pcs, next_keys. rewrite marks_keys.
    rewrite (marks_count (uuid4_hex w) chunks ps (uuid4_calls w) Eps), Hcount.
    reflexivity. }
  assert (Hu : forall i, i < dflts chunks ->
               is_uuid_hex (uuid4_hex w (uuid4_calls w + i)) = true).
  { intros i Hi. rewrite Hcount in Hi.
    apply (proj1 (Hfr (uuid4_hex w (uuid4_calls w + i))
                    ltac:(unfold next_keys; apply in_map; apply in_seq; lia))). }
  split; [|split].
  - split; [rewrite Hkeys; exact Hnd|].
    intros k Hk. rewrite Hkeys in Hk. specialize (Hfr k Hk).
    split; [exact (proj1 Hfr)|].
    apply (pieces_safe k (uuid4_hex w) chunks ps (uuid4_calls w) Eps).
    apply chunks_safe; [apply enc_ok_init | exact Hwf | exact Hfr].
  - rewrite (join_ok chunks ps (CustomEncoder_init ind None) w Eps Hu).
    fold pcs. rewrite Hcount. f_equal. f_equal.
    unfold with_marks, CustomEncoder_init. cbn [encoder _replacement_map].
    rewrite dict_set_all_new by (cbn [map List.app]; rewrite Hkeys; exact Hnd).
    reflexivity.
  - unfold mixed_dumps. fold enc. fold chunks.
    rewrite (expand_prerender (uuid4_hex w) chunks (uuid4_calls w)), Eps.
    reflexivity.
Qed.

(** X17: for a tree the encoder can be run on and fresh unique keys, the
    text [encode] returns does not depend on the order in which its loop
    visits the replacement map: visiting the entries [join] has left in any
    order gives the document with mixed formatting, so the text is the
    same on interpreters whose dictionaries are not ordered by insertion. *)
Theorem encode_order_irrelevant :
  forall o kw_indent w rs w' l,
    encodable o = true ->
    fresh_keys w o = true ->
    CustomEncoder_join (CustomEncoder_init kw_indent None)
      (iterencode (JSONEncoder_init kw_indent None) o 0) w = (Ok rs, w') ->
    Permutation l (_replacement_map (snd rs)) ->
    mixed_dumps o kw_indent = Ok (fold_left replace_step l (fst rs)).
Proof.
  intros o ind w rs w' l Hwf Hfr Hj Hp.
  destruct (prerender (iterencode (JSONEncoder_init ind None) o 0))
    as [ps|e] eqn:Eps.
  - destruct (encode_pieces o ind w ps Hwf Hfr Eps) as [Hok [Hj' Hm]].
    rewrite Hj' in Hj. injection Hj as <- _.
    cbn [fst snd _replacement_map] in Hp |- *.
    rewrite Hm. f_equal. symmetry.
    apply replacement_order_irrelevant; assumption.
  - destruct (join_raise _ e (CustomEncoder_init ind None) w Eps) as [w1 [Hj' _]].
    rewrite Hj' in Hj. discriminate Hj.
Qed.

(* ================================================================== *)
(** * Reading back what the encoder writes: the lexer *)

Lemma lex_more_fuel :
  forall ws n s r, lex ws n s = Some r -> forall m, n <= m -> lex ws m s = Some r.
Proof.
  intros ws n. induction n as [|n IH]; intros s r H m Hm; [discriminate H|].
  destruct m as [|m]; [lia|]. assert (Hnm : n <= m) by lia.
  cbn [lex] in H |- *. destruct s as [|c s']; [exact H|].
  repeat match type of H with
         | (if ?b then _ else _) = _ => destruct b
         | option_map _ (lex ?b n ?x) = _ =>
             destruct (lex b n x) as [r'|] eqn:E; [|discriminate H];
             rewrite (IH _ _ E m Hnm); exact H
         | match scan_string ?x with _ => _ end = _ =>
             destruct (scan_string x) as [[t rest]|]; [|discriminate H]
         | (let (_, _) := ?p in _) = _ => destruct p as [lit rest]
         | match classify_number ?x with _ => _ end = _ =>
             destruct (classify_number x) as [tok|]; [|discriminate H]
         | lex _ n ?x = _ => apply (IH _ _ H m Hnm)
         | None = Some _ => discriminate H
         end.
Qed.

Lemma lexes_any_lexes : forall ws T toks, lexes_any ws T toks -> lexes ws T toks.
Proof. intros ws T toks H rest n r _ Hr. apply H. exact Hr. Qed.

Lemma lexes_any_nil : forall ws, lexes_any ws [] [].
Proof.
  intros ws rest n r H. cbn. rewrite Nat.add_0_r. exact H.
Qed.

Lemma lexes_any_app :
  forall ws T1 t1 T2 t2,
    lexes_any ws T1 t1 -> lexes_any ws T2 t2 -> lexes_any ws (T1 ++ T2) (t1 ++ t2).
Proof.
  intros ws T1 t1 T2 t2 H1 H2 rest n r Hr.
  rewrite <- !app_assoc, length_app.
  replace (n + (List.length T1 + List.length T2))
    with (n + List.length T2 + List.length T1) by lia.
  apply H1. apply H2. exact Hr.
Qed.

Lemma lexes_app_any :
  forall ws T1 t1 T2 t2,
    lexes_any ws T1 t1 -> lexes ws T2 t2 -> lexes ws (T1 ++ T2) (t1 ++ t2).
Proof.
  intros ws T1 t1 T2 t2 H1 H2 rest n r Hd Hr.
  rewrite <- !app_assoc, length_app.
  replace (n + (List.length T1 + List.length T2))
    with (n + List.length T2 + List.length T1) by lia.
  apply H1. apply H2; assumption.
Qed.

(** A number is not prolonged by a text that begins with another kind
    of character. *)
Lemma lexes_then_any :
  forall ws T1 t1 T2 t2,
    lexes ws T1 t1 -> lexes_any ws T2 t2 ->
    (forall rest, delimits (T2 ++ rest)) ->
    lexes_any ws (T1 ++ T2) (t1 ++ t2).
Proof.
  intros ws T1 t1 T2 t2 H1 H2 Hd rest n r Hr.
  rewrite <- !app_assoc, length_app.
  replace (n + (List.length T1 + List.length T2))
    with (n + List.length T2 + List.length T1) by lia.
  apply H1; [apply Hd|]. apply H2. exact Hr.
Qed.

(** Whitespace between tokens. *)
Lemma lexes_any_ws :
  forall T, forallb is_ws T = true -> lexes_any true T [].
Proof.
  induction T as [|c T IH]; intros H; [apply lexes_any_nil|].
  cbn in H. apply andb_true_iff in H. destruct H as [Hc HT].
  intros rest n r Hr. cbn [List.length List.app].
  rewrite Nat.add_succ_r. cbn [lex]. rewrite Hc. apply (IH HT). exact Hr.
Qed.

Lemma lexes_any_structural :
  forall ws c tok, structural c = Some tok -> lexes_any ws [c] [tok].
Proof.
  intros ws c tok H rest n r Hr. cbn [List.length List.app].
  rewrite Nat.add_1_r. cbn [lex].
  unfold structural in H.
  destruct c as [[] [] [] [] [] [] [] []]; try discriminate H;
    cbn in H |- *; injection H as <-; rewrite Hr; reflexivity.
Qed.

Lemma structural_delimits :
  forall c tok rest, structural c = Some tok -> delimits (c :: rest).
Proof.
  intros c tok rest H. unfold structural in H. cbn [delimits].
  destruct c as [[] [] [] [] [] [] [] []]; try discriminate H; reflexivity.
Qed.

Lemma ws_delimits : forall c rest, is_ws c = true -> delimits (c :: rest).
Proof.
  intros c rest H. cbn [delimits].
  destruct c as [[] [] [] [] [] [] [] []]; try discriminate H; reflexivity.
Qed.

(** ** String literals *)

Lemma scan_escaped_char :
  forall c rest,
    scan_string (escape_char c ++ rest) = cons_fst c (scan_string rest).
Proof.
  intros c rest. destruct c as [[] [] [] [] [] [] [] []]; reflexivity.
Qed.

Lemma scan_escaped :
  forall s rest,
    scan_string (flat_map escape_char s ++ quote :: rest) = Some (s, rest).
Proof.
  induction s as [|c s IH]; intros rest.
  - reflexivity.
  - cbn [flat_map]. rewrite <- app_assoc, scan_escaped_char, IH. reflexivity.
Qed.

Lemma lexes_any_string :
  forall ws s, lexes_any ws (encode_basestring_ascii s) [TString s].
Proof.
  intros ws s rest n r Hr. unfold encode_basestring_ascii.
  cbn [List.length List.app]. rewrite Nat.add_succ_r. cbn [lex].
  change (is_ws quote) with false. cbn match.
  change (ascii_eqb quote "{"%char) with false.
  change (ascii_eqb quote "}"%char) with false.
  change (ascii_eqb quote "["%char) with false.
  change (ascii_eqb quote "]"%char) with false.
  change (ascii_eqb quote ","%char) with false.
  change (ascii_eqb quote ":"%char) with false.
  change (ascii_eqb quote quote) with true. cbn match.
  rewrite <- app_assoc. cbn [List.app]. rewrite scan_escaped.
  rewrite (lex_more_fuel ws n rest r Hr) by lia. reflexivity.
Qed.

Lemma string_delimits : forall s rest, delimits (encode_basestring_ascii s ++ rest).
Proof. intros s rest. reflexivity. Qed.

(** ** The words [true], [false] and [null] *)

Ltac eval_test f c :=
  let v := eval vm_compute in (f c) in
  match v with
  | true => change (f c) with true
  | false => change (f c) with false
  end.

Ltac eval_chars :=
  repeat match goal with
         | |- context [is_ws ?c] => eval_test is_ws c
         | |- context [is_digit ?c] => eval_test is_digit c
         | |- context [is_numchar ?c] => eval_test is_numchar c
         end.

Lemma lexes_any_true : forall ws, lexes_any ws (str "true") [TTrue].
Proof.
  intros ws rest n r Hr. cbn [List.length str list_ascii_of_string].
  rewrite Nat.add_succ_r. cbn [lex List.app]. eval_chars. cbn.
  rewrite (lex_more_fuel ws n rest r Hr) by lia. reflexivity.
Qed.

Lemma lexes_any_false : forall ws, lexes_any ws (str "false") [TFalse].
Proof.
  intros ws rest n r Hr. cbn [List.length str list_ascii_of_string].
  rewrite Nat.add_succ_r. cbn [lex List.app]. eval_chars. cbn.
  rewrite (lex_more_fuel ws n rest r Hr) by lia. reflexivity.
Qed.

Lemma lexes_any_null : forall ws, lexes_any ws (str "null") [TNull].
Proof.
  intros ws rest n r Hr. cbn [List.length str list_ascii_of_string].
  rewrite Nat.add_succ_r. cbn [lex List.app]. eval_chars. cbn.
  rewrite (lex_more_fuel ws n rest r Hr) by lia. reflexivity.
Qed.

(** ** Numbers *)

Lemma span_all :
  forall p T rest,
    forallb p T = true ->
    match rest with [] => True | c :: _ => p c = false end ->
    span p (T ++ rest) = (T, rest).
Proof.
  intros p T rest. induction T as [|c T IH]; intros HT Hr.
  - cbn. destruct rest as [|c rest]; [reflexivity|]. cbn. rewrite Hr. reflexivity.
  - cbn in HT. apply andb_true_iff in HT. destruct HT as [Hc HT].
    cbn [List.app span]. rewrite Hc, (IH HT Hr). reflexivity.
Qed.

Lemma digits_are_digits : forall d, forallb is_digit (digits_of_uint d) = true.
Proof. induction d; cbn [digits_of_uint forallb]; try rewrite IHd; reflexivity. Qed.

Lemma digit_is_numchar : forall c, is_digit c = true -> is_numchar c = true.
Proof. intros c H. unfold is_numchar. rewrite H. reflexivity. Qed.

Lemma digits_are_numchars : forall d, forallb is_numchar (digits_of_uint d) = true.
Proof.
  intros d. apply forallb_forall. intros c Hc. apply digit_is_numchar.
  pose proof (digits_are_digits d) as H. rewrite forallb_forall in H.
  apply H. exact Hc.
Qed.

Lemma uint_of_digits_of_uint : forall d, uint_of_digits (digits_of_uint d) = Some d.
Proof.
  induction d; cbn [digits_of_uint uint_of_digits]; try rewrite IHd; reflexivity.
Qed.

Lemma int_part_ok_unorm : forall d, int_part_ok (unorm d) = true.
Proof.
  intros d. unfold unorm.
  assert (H : forall d, match nzhead d with D0 _ => False | _ => True end).
  { induction d0; cbn; auto. }
  specialize (H d). destruct (nzhead d); try reflexivity. contradiction.
Qed.

Lemma int_part_ok_pos : forall p, int_part_ok (Pos.to_uint p) = true.
Proof.
  intros p.
  replace (Pos.to_uint p) with (unorm (Pos.to_uint p)); [apply int_part_ok_unorm|].
  rewrite <- DecimalPos.Unsigned.to_of, DecimalPos.Unsigned.of_to. reflexivity.
Qed.

Lemma int_part_ok_to_int :
  forall z, int_part_ok (match Z.to_int z with
                         | Decimal.Pos d => d
                         | Decimal.Neg d => d
                         end) = true.
Proof.
  intros [|p|p]; cbn; [reflexivity | apply int_part_ok_pos | apply int_part_ok_pos].
Qed.

Lemma digits_head_not_minus :
  forall d, match digits_of_uint d with
            | c :: _ => ascii_eqb c "-"%char = false
            | [] => True
            end.
Proof. destruct d; cbn; try reflexivity; exact I. Qed.

Lemma classify_digits :
  forall (d : uint) (negative : bool),
    int_part_ok d = true ->
    classify_number ((if negative then ["-"%char] else []) ++ digits_of_uint d)
    = Some (TInt (Z.of_int (if negative then Neg d else Pos d))).
Proof.
  intros d negative Hd. unfold classify_number.
  assert (Hspan : span is_digit (digits_of_uint d) = (digits_of_uint d, [])).
  { rewrite <- (List.app_nil_r (digits_of_uint d)) at 1.
    apply span_all; [apply digits_are_digits | exact I]. }
  destruct negative.
  - cbn [List.app]. change (ascii_eqb "-" "-") with true. cbn match.
    rewrite Hspan, uint_of_digits_of_uint, Hd. reflexivity.
  - cbn [List.app]. pose proof (digits_head_not_minus d) as Hm.
    destruct (digits_of_uint d) as [|c ds] eqn:E.
    + destruct d; discriminate E || discriminate Hd.
    + rewrite Hm, Hspan. rewrite <- E, uint_of_digits_of_uint, Hd. reflexivity.
Qed.

Lemma classify_int : forall z, classify_number (int_repr z) = Some (TInt z).
Proof.
  intros z. unfold int_repr. pose proof (int_part_ok_to_int z) as Hok.
  pose proof (DecimalZ.of_to z) as Hz.
  destruct (Z.to_int z) as [d|d].
  - pose proof (classify_digits d false Hok) as H. cbn [List.app] in H.
    rewrite H, Hz. reflexivity.
  - pose proof (classify_digits d true Hok) as H. cbn [List.app] in H.
    rewrite H, Hz. reflexivity.
Qed.

Lemma number_start :
  forall c, (is_digit c || ascii_eqb c "-"%char) = true ->
            is_ws c = false /\ structural c = None /\ ascii_eqb c quote = false.
Proof.
  intros c H. destruct c as [[] [] [] [] [] [] [] []]; try discriminate H;
    repeat split; reflexivity.
Qed.

(** A number literal is read as its token when the text behind it cannot
    prolong it. *)
Lemma lexes_number :
  forall ws c T tok,
    (is_digit c || ascii_eqb c "-"%char) = true ->
    forallb is_numchar (c :: T) = true ->
    classify_number (c :: T) = Some tok ->
    lexes ws (c :: T) [tok].
Proof.
  intros ws c T tok Hc Hnum Hcl rest n r Hd Hr.
  cbn [List.length]. rewrite Nat.add_succ_r. cbn [lex List.app].
  destruct (number_start c Hc) as [Hws [Hst Hq]].
  rewrite Hws. unfold structural in Hst.
  destruct (ascii_eqb c "{"%char); [discriminate Hst|].
  destruct (ascii_eqb c "}"%char); [discriminate Hst|].
  destruct (ascii_eqb c "["%char); [discriminate Hst|].
  destruct (ascii_eqb c "]"%char); [discriminate Hst|].
  destruct (ascii_eqb c ","%char); [discriminate Hst|].
  destruct (ascii_eqb c ":"%char); [discriminate Hst|].
  rewrite Hq, Hc.
  change (c :: T ++ rest) with ((c :: T) ++ rest).
  rewrite (span_all is_numchar (c :: T) rest Hnum Hd), Hcl.
  rewrite (lex_more_fuel ws n rest r Hr) by lia. reflexivity.
Qed.

Lemma int_repr_start :
  forall z, exists c T,
    int_repr z = c :: T /\ (is_digit c || ascii_eqb c "-"%char) = true /\
    forallb is_numchar (c :: T) = true.
Proof.
  intros z. unfold int_repr. pose proof (int_part_ok_to_int z) as Hok.
  destruct (Z.to_int z) as [d|d].
  - pose proof (digits_are_digits d) as Hd.
    pose proof (digits_are_numchars d) as Hn.
    destruct (digits_of_uint d) as [|c T] eqn:E.
    + destruct d; discriminate E || discriminate Hok.
    + exists c, T. split; [reflexivity|]. split; [|exact Hn].
      cbn in Hd. apply andb_true_iff in Hd. rewrite (proj1 Hd). reflexivity.
  - exists "-"%char, (digits_of_uint d). split; [reflexivity|].
    split; [reflexivity|]. cbn [forallb]. rewrite digits_are_numchars. reflexivity.
Qed.

Lemma lexes_int : forall ws z, lexes ws (int_repr z) [TInt z].
Proof.
  intros ws z. destruct (int_repr_start z) as [c [T [E [Hc Hn]]]].
  pose proof (classify_int z) as Hcl. rewrite E in Hcl |- *.
  apply lexes_number; assumption.
Qed.

Lemma lexes_float :
  forall ws r, float_repr_ok r = true -> lexes ws r [TFloat r].
Proof.
  intros ws r H. unfold float_repr_ok in H. destruct r as [|c T]; [discriminate H|].
  apply andb_true_iff in H. destruct H as [H Hcl].
  apply andb_true_iff in H. destruct H as [Hc Hn].
  destruct (classify_number (c :: T)) as [tok|] eqn:E; [|discriminate Hcl].
  destruct tok; try discriminate Hcl.
  assert (Hrepr : repr = c :: T).
  { unfold classify_number in E.
    repeat match type of E with
           | (let (_, _) := ?p in _) = _ => destruct p
           | match ?x with _ => _ end = _ => destruct x; try discriminate E
           | (if ?b then _ else _) = _ => destruct b; try discriminate E
           end; injection E as E; symmetry; exact E. }
  subst repr. apply lexes_number; assumption.
Qed.

(** ** Values *)

Lemma lexes_any_blank : forall ws W, blank ws W -> lexes_any ws W [].
Proof.
  intros ws W [HW Hws]. destruct ws.
  - apply lexes_any_ws. exact HW.
  - rewrite (Hws eq_refl). apply lexes_any_nil.
Qed.

Lemma lexes_any_sep :
  forall ws c tok W,
    structural c = Some tok -> blank ws W -> lexes_any ws (c :: W) [tok].
Proof.
  intros ws c tok W Hc HW.
  apply (lexes_any_app ws [c] [tok] W []).
  - apply lexes_any_structural. exact Hc.
  - apply lexes_any_blank. exact HW.
Qed.

Lemma blank_app : forall ws a b, blank ws a -> blank ws b -> blank ws (a ++ b).
Proof.
  intros ws a b [Ha Ha'] [Hb Hb']. split.
  - rewrite forallb_app, Ha, Hb. reflexivity.
  - intros E. rewrite (Ha' E), (Hb' E). reflexivity.
Qed.

Lemma blank_newline_indent : forall w l, blank true (newline_indent w l).
Proof.
  intros w l. split; [|discriminate]. unfold newline_indent. cbn [forallb].
  change (is_ws newline) with true. cbn [andb].
  apply forallb_forall. intros c Hc. apply repeat_spec in Hc. subst c. reflexivity.
Qed.

Lemma sep_ok_blank :
  forall c s, sep_ok c s = true -> exists W, s = c :: W /\ forallb is_ws W = true.
Proof.
  intros c s H. destruct s as [|c' W]; [discriminate H|]. cbn in H.
  apply andb_true_iff in H. destruct H as [Hc HW]. apply ascii_eqb_eq in Hc.
  subst c'. exists W. split; [reflexivity | exact HW].
Qed.

Lemma enc_lexable_seps :
  forall ws enc,
    enc_lexable ws enc ->
    (exists Wi, item_separator enc = ","%char :: Wi /\ blank ws Wi) /\
    (exists Wk, key_separator enc = ":"%char :: Wk /\ blank ws Wk) /\
    (ws = false -> indent enc = None).
Proof.
  intros ws enc [Hok Hstrict]. unfold enc_ok in Hok.
  apply andb_true_iff in Hok. destruct Hok as [Hi Hk].
  apply sep_ok_blank in Hi. apply sep_ok_blank in Hk.
  destruct Hi as [Wi [Ei HWi]]. destruct Hk as [Wk [Ek HWk]].
  repeat split.
  - exists Wi. split; [exact Ei|]. split; [exact HWi|].
    intros E. destruct (Hstrict E) as [_ [Hi' _]]. rewrite Hi' in Ei.
    injection Ei as <-. reflexivity.
  - exists Wk. split; [exact Ek|]. split; [exact HWk|].
    intros E. destruct (Hstrict E) as [_ [_ Hk']]. rewrite Hk' in Ek.
    injection Ek as <-. reflexivity.
  - intros E. exact (proj1 (Hstrict E)).
Qed.

Lemma expand_lit :
  forall t cs, expand (Lit t :: cs) = rbind (expand cs) (fun r => Ok (t ++ r)).
Proof. intros t cs. reflexivity. Qed.

Lemma expand_single : forall t, expand [Lit t] = Ok t.
Proof. intros t. cbn. rewrite List.app_nil_r. reflexivity. Qed.

Lemma expand_app :
  forall a b ta tb,
    expand a = Ok ta -> expand b = Ok tb -> expand (a ++ b) = Ok (ta ++ tb).
Proof.
  induction a as [|c a IH]; intros b ta tb Ha Hb.
  - cbn in Ha. injection Ha as <-. exact Hb.
  - cbn [List.app expand] in Ha |- *.
    destruct (chunk_text c) as [t|e]; [|discriminate Ha]. cbn [rbind] in Ha |- *.
    destruct (expand a) as [ra|e] eqn:Ea; [|discriminate Ha].
    cbn in Ha. injection Ha as <-.
    rewrite (IH b ra tb eq_refl Hb). cbn. rewrite app_assoc. reflexivity.
Qed.

Lemma join_items_cons :
  forall sep a b r,
    join_items sep (a :: b :: r) = a ++ Lit sep :: join_items sep (b :: r).
Proof. reflexivity. Qed.

Lemma join_tokens_cons :
  forall a b r, join_tokens (a :: b :: r) = a ++ TComma :: join_tokens (b :: r).
Proof. reflexivity. Qed.

(** The items of a container, read up to and including what closes it. *)
Lemma lexes_items :
  forall ws (A : Type) (f : A -> list chunk) (t : A -> list token)
         sepT closeT closetoks l,
    l <> [] ->
    Forall (fun x => exists T, expand (f x) = Ok T /\ lexes ws T (t x)) l ->
    lexes_any ws sepT [TComma] -> (forall rest, delimits (sepT ++ rest)) ->
    lexes_any ws closeT closetoks -> (forall rest, delimits (closeT ++ rest)) ->
    exists T,
      expand (join_items sepT (map f l)) = Ok T /\
      lexes_any ws (T ++ closeT) (join_tokens (map t l) ++ closetoks).
Proof.
  intros ws A f t sepT closeT closetoks l Hne Hall Hsep Hsepd Hclose Hclosed.
  induction Hall as [|x l [T [HT HTl]] Hall IH]; [contradiction|].
  destruct l as [|y l].
  - exists T. split; [exact HT|]. cbn [map join_tokens].
    apply lexes_then_any; assumption.
  - destruct IH as [T' [HT' HT'l]]; [discriminate|].
    exists (T ++ sepT ++ T'). split.
    + change (map f (x :: y :: l)) with (f x :: f y :: map f l).
      rewrite join_items_cons. apply expand_app; [exact HT|].
      rewrite expand_lit. change (f y :: map f l) with (map f (y :: l)).
      rewrite HT'. reflexivity.
    + change (map t (x :: y :: l)) with (t x :: t y :: map t l).
      rewrite join_tokens_cons. change (t y :: map t l) with (map t (y :: l)).
      rewrite <- !app_assoc. cbn [List.app].
      change (TComma :: join_tokens (map t (y :: l)) ++ closetoks)
        with ([TComma] ++ join_tokens (map t (y :: l)) ++ closetoks).
      apply lexes_then_any; [exact HTl| |].
      * apply (lexes_any_app ws sepT [TComma] (T' ++ closeT)
                 (join_tokens (map t (y :: l)) ++ closetoks)); assumption.
      * intros rest. rewrite <- app_assoc. apply Hsepd.
Qed.

Lemma json_ok_no_marker : forall v, json_ok v = true -> markers v = 0.
Proof.
  induction v as [|b|z|f|s|l IH|d IH|v a IH|n] using pyobj_ind; intros H;
    try reflexivity; try discriminate H.
  - cbn [json_ok markers] in *. rewrite forallb_forall in H.
    rewrite Forall_forall in IH. unfold list_sum.
    induction l as [|x l IHl]; [reflexivity|]. cbn [map fold_right].
    rewrite (IH x (or_introl eq_refl) (H x (or_introl eq_refl))).
    apply IHl; intros; [apply IH | apply H]; try right; assumption.
  - cbn [json_ok markers] in *. apply andb_true_iff in H. destruct H as [_ H].
    rewrite forallb_forall in H. rewrite Forall_forall in IH. unfold list_sum.
    induction d as [|x d IHd]; [reflexivity|]. cbn [map fold_right].
    rewrite (IH x (or_introl eq_refl) (H x (or_introl eq_refl))).
    apply IHd; intros; [apply IH | apply H]; try right; assumption.
Qed.

Lemma json_ok_marked_ok : forall v, json_ok v = true -> marked_ok v = true.
Proof.
  induction v as [|b|z|f|s|l IH|d IH|v a IH|n] using pyobj_ind; intros H;
    try reflexivity; try discriminate H; try exact H.
  - cbn [json_ok marked_ok] in *. rewrite forallb_forall in H |- *.
    rewrite Forall_forall in IH. intros x Hx. apply IH; [exact Hx|].
    apply H. exact Hx.
  - cbn [json_ok marked_ok] in *. apply andb_true_iff in H. destruct H as [Hk H].
    rewrite Hk. cbn [andb]. rewrite forallb_forall in H |- *.
    rewrite Forall_forall in IH. intros x Hx. apply IH; [exact Hx|].
    apply H. exact Hx.
Qed.

(** Without a marker the base encoder raises nothing. *)
Lemma join_is_expand :
  forall chunks, dflts chunks = 0 -> JSONEncoder_join chunks = expand chunks.
Proof.
  induction chunks as [|[t|o] cs IH]; intros H.
  - reflexivity.
  - cbn [JSONEncoder_join expand chunk_text rbind]. rewrite (IH H). reflexivity.
  - discriminate H.
Qed.

Lemma json_dumps_expand :
  forall v a,
    json_ok v = true ->
    json_dumps v a
    = expand (iterencode (JSONEncoder_init None (separators a)) v 0).
Proof.
  intros v a H. unfold json_dumps, JSONEncoder_encode.
  apply join_is_expand. rewrite dflts_iterencode. apply json_ok_no_marker. exact H.
Qed.

Lemma enc_lexable_args : forall a, args_ok a = true ->
  enc_lexable true (JSONEncoder_init None (separators a)).
Proof. intros a H. split; [exact H | discriminate]. Qed.

Lemma lexes_open :
  forall ws c tok W,
    structural c = Some tok -> blank ws W -> lexes_any ws (c :: W) [tok].
Proof. exact lexes_any_sep. Qed.

Lemma lexes_close :
  forall ws c tok W,
    structural c = Some tok -> blank ws W -> lexes_any ws (W ++ [c]) [tok].
Proof.
  intros ws c tok W Hc HW.
  apply (lexes_any_app ws W [] [c] [tok]).
  - apply lexes_any_blank. exact HW.
  - apply lexes_any_structural. exact Hc.
Qed.

Lemma close_delimits :
  forall c tok W rest,
    structural c = Some tok -> forallb is_ws W = true ->
    delimits ((W ++ [c]) ++ rest).
Proof.
  intros c tok W rest Hc HW. destruct W as [|x W].
  - apply (structural_delimits c tok _ Hc).
  - cbn in HW. apply andb_true_iff in HW. apply ws_delimits. exact (proj1 HW).
Qed.

(** What the encoder writes for a value is read as the tokens of the
    value.  [ws] tells whether the lexer accepts whitespace; if it does not,
    the value has no marker and the encoder writes no whitespace. *)
Lemma lexes_value :
  forall ws o,
    marked_ok o = true ->
    (ws = true \/ json_ok o = true) ->
    forall enc level,
      enc_lexable ws enc ->
      exists T, expand (iterencode enc o level) = Ok T /\ lexes ws T (tokens o).
Proof.
  intros ws o.
  induction o as [|b|z|f|s|l IH|d IH|v a IH|n] using pyobj_ind;
    intros Hok Hws enc level Henc.
  - eexists. split; [apply expand_single|].
    apply lexes_any_lexes, lexes_any_null.
  - destruct b; (eexists; split; [apply expand_single|]);
      apply lexes_any_lexes; [apply lexes_any_true | apply lexes_any_false].
  - eexists. split; [apply expand_single|]. apply lexes_int.
  - destruct f as [|neg|r]; try discriminate Hok.
    eexists. split; [apply expand_single|].
    apply lexes_float. exact Hok.
  - eexists. split; [apply expand_single|].
    apply lexes_any_lexes, lexes_any_string.
  - (* list *)
    destruct (enc_lexable_seps ws enc Henc)
      as [[Wi [Ei HWi]] [[Wk [Ek HWk]] Hind]].
    assert (Hitems : forall lvl,
               Forall (fun x => exists T, expand (iterencode enc x lvl) = Ok T
                                          /\ lexes ws T (tokens x)) l).
    { intros lvl. rewrite Forall_forall in IH |- *. intros x Hx.
      apply (IH x Hx).
      - cbn [marked_ok] in Hok. rewrite forallb_forall in Hok. apply Hok. exact Hx.
      - destruct Hws as [Hws | Hws]; [left; exact Hws | right].
        cbn [json_ok] in Hws. rewrite forallb_forall in Hws. apply Hws. exact Hx.
      - exact Henc. }
    destruct l as [|x l'].
    { eexists. split; [apply expand_single|].
      apply lexes_any_lexes.
      apply (lexes_any_app ws ["["%char] [TLBracket] ["]"%char] [TRBracket]);
        apply lexes_any_structural; reflexivity. }
    cbn [iterencode tokens]. destruct (indent enc) as [w|] eqn:Eind.
    + assert (Hwst : ws = true).
      { destruct ws; [reflexivity|]. specialize (Hind eq_refl). discriminate Hind. }
      subst ws.
      destruct (lexes_items true pyobj (fun v => iterencode enc v (level + 1))
                  tokens (item_separator enc ++ newline_indent w (level + 1))
                  (newline_indent w level ++ ["]"%char]) [TRBracket] (x :: l'))
        as [T [HT HTl]].
      * discriminate.
      * apply Hitems.
      * rewrite Ei. cbn [List.app]. apply lexes_any_sep; [reflexivity|].
        apply blank_app; [exact HWi | apply blank_newline_indent].
      * intros rest. rewrite Ei. reflexivity.
      * apply lexes_close; [reflexivity | apply blank_newline_indent].
      * intros rest. apply (close_delimits "]"%char TRBracket); [reflexivity|].
        apply (proj1 (blank_newline_indent w level)).
      * exists ((("["%char :: newline_indent w (level + 1)))
                ++ T ++ newline_indent w level ++ ["]"%char]).
        split.
        -- rewrite expand_lit.
           rewrite (expand_app _ [Lit (newline_indent w level); Lit (str "]")]
                      T (newline_indent w level ++ ["]"%char]) HT).
           ++ reflexivity.
           ++ reflexivity.
        -- apply lexes_any_lexes.
           apply (lexes_any_app true ("["%char :: newline_indent w (level + 1))
                    [TLBracket]).
           ++ apply lexes_open; [reflexivity | apply blank_newline_indent].
           ++ exact HTl.
    + destruct (lexes_items ws pyobj (fun v => iterencode enc v level)
                  tokens (item_separator enc) ["]"%char] [TRBracket] (x :: l'))
        as [T [HT HTl]].
      * discriminate.
      * apply Hitems.
      * rewrite Ei. apply lexes_any_sep; [reflexivity | exact HWi].
      * intros rest. rewrite Ei. reflexivity.
      * apply lexes_any_structural. reflexivity.
      * intros rest. reflexivity.
      * exists (["["%char] ++ T ++ ["]"%char]). split.
        -- rewrite expand_lit.
           rewrite (expand_app _ [Lit (str "]")] T ["]"%char] HT); reflexivity.
        -- apply lexes_any_lexes.
           apply (lexes_any_app ws ["["%char] [TLBracket]).
           ++ apply lexes_any_structural. reflexivity.
           ++ exact HTl.
  - (* dictionary *)
    destruct (enc_lexable_seps ws enc Henc)
      as [[Wi [Ei HWi]] [[Wk [Ek HWk]] Hind]].
    assert (Hitems : forall lvl,
               Forall (fun kv =>
                         exists T,
                           expand (Lit (encode_basestring_ascii (fst kv))
                                   :: Lit (key_separator enc)
                                   :: iterencode enc (snd kv) lvl) = Ok T
                           /\ lexes ws T (TString (fst kv) :: TColon
                                          :: tokens (snd kv))) d).
    { intros lvl. rewrite Forall_forall in IH |- *. intros kv Hkv.
      destruct (IH kv Hkv) with (enc := enc) (level := lvl) as [T [HT HTl]].
      - cbn [marked_ok] in Hok. apply andb_true_iff in Hok.
        destruct Hok as [_ Hok]. rewrite forallb_forall in Hok. apply Hok. exact Hkv.
      - destruct Hws as [Hws | Hws]; [left; exact Hws | right].
        cbn [json_ok] in Hws. apply andb_true_iff in Hws.
        destruct Hws as [_ Hws]. rewrite forallb_forall in Hws. apply Hws. exact Hkv.
      - exact Henc.
      - exists (encode_basestring_ascii (fst kv) ++ key_separator enc ++ T).
        split.
        + rewrite !expand_lit, HT. reflexivity.
        + apply (lexes_app_any ws (encode_basestring_ascii (fst kv))
                   [TString (fst kv)] (key_separator enc ++ T)
                   (TColon :: tokens (snd kv))).
          * apply lexes_any_string.
          * apply (lexes_app_any ws (key_separator enc) [TColon] T
                     (tokens (snd kv))); [|exact HTl].
            rewrite Ek. apply lexes_any_sep; [reflexivity | exact HWk]. }
    destruct d as [|kv d'].
    { eexists. split; [apply expand_single|].
      apply lexes_any_lexes.
      apply (lexes_any_app ws ["{"%char] [TLBrace] ["}"%char] [TRBrace]);
        apply lexes_any_structural; reflexivity. }
    cbn [iterencode tokens]. destruct (indent enc) as [w|] eqn:Eind.
    + assert (Hwst : ws = true).
      { destruct ws; [reflexivity|]. specialize (Hind eq_refl). discriminate Hind. }
      subst ws.
      destruct (lexes_items true (text * pyobj)
                  (fun kv => Lit (encode_basestring_ascii (fst kv))
                             :: Lit (key_separator enc)
                             :: iterencode enc (snd kv) (level + 1))
                  (fun kv => TString (fst kv) :: TColon :: tokens (snd kv))
                  (item_separator enc ++ newline_indent w (level + 1))
                  (newline_indent w level ++ ["}"%char]) [TRBrace] (kv :: d'))
        as [T [HT HTl]].
      * discriminate.
      * apply Hitems.
      * rewrite Ei. cbn [List.app]. apply lexes_any_sep; [reflexivity|].
        apply blank_app; [exact HWi | apply blank_newline_indent].
      * intros rest. rewrite Ei. reflexivity.
      * apply lexes_close; [reflexivity | apply blank_newline_indent].
      * intros rest. apply (close_delimits "}"%char TRBrace); [reflexivity|].
        apply (proj1 (blank_newline_indent w level)).
      * exists (["{"%char] ++ newline_indent w (level + 1)
                ++ T ++ newline_indent w level ++ ["}"%char]).
        split.
        -- rewrite !expand_lit.
           rewrite (expand_app _ [Lit (newline_indent w level); Lit (str "}")]
                      T (newline_indent w level ++ ["}"%char]) HT).
           ++ reflexivity.
           ++ reflexivity.
        -- apply lexes_any_lexes.
           apply (lexes_any_app true ("{"%char :: newline_indent w (level + 1))
                    [TLBrace]).
           ++ apply lexes_open; [reflexivity | apply blank_newline_indent].
           ++ exact HTl.
    + destruct (lexes_items ws (text * pyobj)
                  (fun kv => Lit (encode_basestring_ascii (fst kv))
                             :: Lit (key_separator enc)
                             :: iterencode enc (snd kv) level)
                  (fun kv => TString (fst kv) :: TColon :: tokens (snd kv))
                  (item_separator enc) ["}"%char] [TRBrace] (kv :: d'))
        as [T [HT HTl]].
      * discriminate.
      * apply Hitems.
      * rewrite Ei. apply lexes_any_sep; [reflexivity | exact HWi].
      * intros rest. rewrite Ei. reflexivity.
      * apply lexes_any_structural. reflexivity.
      * intros rest. reflexivity.
      * exists (["{"%char] ++ T ++ ["}"%char]). split.
        -- rewrite expand_lit.
           rewrite (expand_app _ [Lit (str "}")] T ["}"%char] HT); reflexivity.
        -- apply lexes_any_lexes.
           apply (lexes_any_app ws ["{"%char] [TLBrace]).
           ++ apply lexes_any_structural. reflexivity.
           ++ exact HTl.
  - (* marker *)
    cbn [marked_ok] in Hok. apply andb_true_iff in Hok. destruct Hok as [Hv Ha].
    destruct Hws as [Hws | Hws]; [subst ws | discriminate Hws].
    destruct (IH (json_ok_marked_ok v Hv) (or_introl eq_refl)
                (JSONEncoder_init None (separators a)) 0
                (enc_lexable_args a Ha)) as [T [HT HTl]].
    exists T. split.
    + cbn [iterencode expand chunk_text]. rewrite (json_dumps_expand v a Hv), HT.
      cbn. rewrite List.app_nil_r. reflexivity.
    + exact HTl.
  - discriminate Hok.
Qed.

(* ================================================================== *)
(** * Reading back what the encoder writes: the parser *)

Lemma tokens_unmark : forall o, tokens (unmark o) = tokens o.
Proof.
  induction o as [|b|z|f|s|l IH|d IH|v a IH|n] using pyobj_ind;
    try reflexivity.
  - cbn [unmark tokens]. do 3 f_equal. rewrite map_map.
    apply map_ext_Forall. exact IH.
  - cbn [unmark tokens]. do 3 f_equal. rewrite map_map.
    apply map_ext_Forall. revert IH. apply Forall_impl.
    intros kv H. cbn [fst snd]. rewrite H. reflexivity.
  - exact IH.
Qed.

Lemma unmark_json_ok : forall o, marked_ok o = true -> json_ok (unmark o) = true.
Proof.
  induction o as [|b|z|f|s|l IH|d IH|v a IH|n] using pyobj_ind; intros H;
    try reflexivity; try exact H; try discriminate H.
  - cbn [unmark json_ok marked_ok] in *. rewrite forallb_forall in H |- *.
    rewrite Forall_forall in IH. intros y Hy. apply in_map_iff in Hy.
    destruct Hy as [x [<- Hx]]. apply IH; [exact Hx | apply H; exact Hx].
  - cbn [unmark json_ok marked_ok] in *. apply andb_true_iff in H.
    destruct H as [Hk H]. rewrite map_map.
    rewrite (map_ext _ fst) by reflexivity. rewrite Hk. cbn [andb].
    rewrite forallb_forall in H |- *. rewrite Forall_forall in IH.
    intros y Hy. apply in_map_iff in Hy. destruct Hy as [x [<- Hx]].
    cbn [snd]. apply IH; [exact Hx | apply H; exact Hx].
  - cbn [unmark marked_ok] in *. apply andb_true_iff in H. destruct H as [Hv _].
    apply IH. apply json_ok_marked_ok. exact Hv.
Qed.

Lemma unmark_json : forall v, json_ok v = true -> unmark v = v.
Proof.
  induction v as [|b|z|f|s|l IH|d IH|v a IH|n] using pyobj_ind; intros H;
    try reflexivity; try discriminate H.
  - cbn [unmark json_ok] in *. f_equal. rewrite forallb_forall in H.
    rewrite Forall_forall in IH. rewrite <- (map_id l) at 2.
    apply map_ext_in. intros x Hx. apply IH; [exact Hx | apply H; exact Hx].
  - cbn [unmark json_ok] in *. apply andb_true_iff in H. destruct H as [_ H].
    f_equal. rewrite forallb_forall in H. rewrite Forall_forall in IH.
    rewrite <- (map_id d) at 2. apply map_ext_in. intros [k x] Hx. cbn [fst snd].
    f_equal. apply (IH (k, x) Hx). apply (H (k, x) Hx).
Qed.

Lemma tokens_head :
  forall v, json_ok v = true ->
            exists t ts, tokens v = t :: ts /\ closes t = false.
Proof.
  intros v H. destruct v as [|b|z|f|s|l|d|v a|n]; try discriminate H;
    try (eexists; eexists; split; reflexivity).
  - destruct b; eexists; eexists; split; reflexivity.
  - destruct f; try discriminate H. eexists; eexists; split; reflexivity.
Qed.

Lemma dict_of_pairs_nodup :
  forall (A : Type) (d : dict A), nodupb (map fst d) = true -> dict_of_pairs d = d.
Proof.
  intros A d H. unfold dict_of_pairs. apply nodupb_NoDup in H.
  rewrite dict_set_all_new; [reflexivity | exact H].
Qed.

Lemma parse_value_list :
  forall n t r,
    closes t = false ->
    parse_value (S n) (TLBracket :: t :: r)
    = match parse_elements (parse_value n) n (t :: r) with
      | Some (l, r') => Some (PList l, r')
      | None => None
      end.
Proof. intros n t r H. destruct t; try discriminate H; reflexivity. Qed.

Lemma parse_value_dict :
  forall n k r,
    parse_value (S n) (TLBrace :: TString k :: r)
    = match parse_members (parse_value n) n (TString k :: r) with
      | Some (d, r') => Some (PDict (dict_of_pairs d), r')
      | None => None
      end.
Proof. reflexivity. Qed.

Lemma parse_elements_items :
  forall pv l rest fuel,
    l <> [] -> List.length l <= fuel ->
    (forall x rest', In x l -> pv (tokens x ++ rest') = Some (x, rest')) ->
    parse_elements pv fuel (join_tokens (map tokens l) ++ TRBracket :: rest)
    = Some (l, rest).
Proof.
  intros pv l rest. induction l as [|x l IH]; intros fuel Hne Hf Hpv;
    [contradiction|].
  destruct fuel as [|fuel]; [cbn in Hf; lia|].
  destruct l as [|y l].
  - cbn [map join_tokens parse_elements].
    rewrite (Hpv x (TRBracket :: rest) (or_introl eq_refl)). reflexivity.
  - change (map tokens (x :: y :: l)) with (tokens x :: tokens y :: map tokens l).
    rewrite join_tokens_cons. change (tokens y :: map tokens l) with (map tokens (y :: l)).
    rewrite <- app_assoc. cbn [parse_elements List.app].
    rewrite (Hpv x _ (or_introl eq_refl)).
    rewrite IH.
    + reflexivity.
    + discriminate.
    + cbn [List.length] in Hf |- *. lia.
    + intros z rest' Hz. apply Hpv. right. exact Hz.
Qed.

Lemma parse_members_items :
  forall pv (d : dict pyobj) rest fuel,
    d <> [] -> List.length d <= fuel ->
    (forall kv rest', In kv d ->
                      pv (tokens (snd kv) ++ rest') = Some (snd kv, rest')) ->
    parse_members pv fuel
      (join_tokens (map (fun kv => TString (fst kv) :: TColon :: tokens (snd kv)) d)
       ++ TRBrace :: rest)
    = Some (d, rest).
Proof.
  intros pv d rest. induction d as [|[k x] d IH]; intros fuel Hne Hf Hpv;
    [contradiction|].
  destruct fuel as [|fuel]; [cbn in Hf; lia|].
  set (item := fun kv : text * pyobj => TString (fst kv) :: TColon :: tokens (snd kv)).
  destruct d as [|y d].
  - cbn [map join_tokens parse_members item fst snd List.app].
    pose proof (Hpv (k, x) (TRBrace :: rest) (or_introl eq_refl)) as H.
    cbn [snd] in H. rewrite H. reflexivity.
  - change (map item ((k, x) :: y :: d)) with (item (k, x) :: item y :: map item d).
    rewrite join_tokens_cons. change (item y :: map item d) with (map item (y :: d)).
    rewrite <- app_assoc. unfold item at 1. cbn [fst snd parse_members List.app].
    pose proof (fun r => Hpv (k, x) r (or_introl eq_refl)) as H.
    cbn [snd] in H. rewrite H. cbn [List.app].
    rewrite IH.
    + reflexivity.
    + discriminate.
    + cbn [List.length] in Hf |- *. lia.
    + intros z rest' Hz. apply Hpv. right. exact Hz.
Qed.

Lemma join_tokens_length :
  forall (A : Type) (t : A -> list token) l x,
    In x l -> List.length (t x) <= List.length (join_tokens (map t l)).
Proof.
  intros A t l x. induction l as [|y l IH]; intros Hin; [destruct Hin|].
  destruct l as [|z l].
  - destruct Hin as [<- | []]. cbn. lia.
  - change (map t (y :: z :: l)) with (t y :: t z :: map t l).
    rewrite join_tokens_cons. change (t z :: map t l) with (map t (z :: l)).
    rewrite length_app. cbn [List.length]. destruct Hin as [<- | Hin]; [lia|].
    specialize (IH Hin). lia.
Qed.

Lemma join_tokens_count :
  forall (A : Type) (t : A -> list token) l,
    (forall x, In x l -> 1 <= List.length (t x)) ->
    List.length l <= List.length (join_tokens (map t l)).
Proof.
  intros A t l. induction l as [|y l IH]; intros H; [cbn; lia|].
  destruct l as [|z l].
  - cbn. specialize (H y (or_introl eq_refl)). lia.
  - change (map t (y :: z :: l)) with (t y :: t z :: map t l).
    rewrite join_tokens_cons. change (t z :: map t l) with (map t (z :: l)).
    rewrite length_app. cbn [List.length].
    assert (IH' : List.length (z :: l) <= List.length (join_tokens (map t (z :: l)))).
    { apply IH. intros x Hx. apply H. right. exact Hx. }
    cbn [List.length] in IH'. lia.
Qed.

(** The parser gives back the value whose tokens it reads. *)
Lemma parse_tokens :
  forall v, json_ok v = true ->
            forall fuel rest,
              List.length (tokens v) < fuel ->
              parse_value fuel (tokens v ++ rest) = Some (v, rest).
Proof.
  induction v as [|b|z|f|s|l IH|d IH|v a IH|n] using pyobj_ind;
    intros Hok fuel rest Hf; try discriminate Hok;
    (destruct fuel as [|fuel]; [lia|]).
  - reflexivity.
  - destruct b; reflexivity.
  - reflexivity.
  - destruct f as [| |r]; try discriminate Hok. reflexivity.
  - reflexivity.
  - destruct l as [|x l']; [reflexivity|].
    cbn [json_ok] in Hok. rewrite forallb_forall in Hok.
    rewrite Forall_forall in IH.
    cbn [tokens] in Hf |- *. cbn [List.length] in Hf. rewrite length_app in Hf.
    cbn [List.length] in Hf.
    destruct (tokens_head x (Hok x (or_introl eq_refl))) as [t [ts [Et Hc]]].
    assert (Ej : exists r, join_tokens (map tokens (x :: l')) = t :: r).
    { destruct l' as [|y l'].
      - cbn. rewrite Et. eexists. reflexivity.
      - change (map tokens (x :: y :: l')) with (tokens x :: tokens y :: map tokens l').
        rewrite join_tokens_cons, Et. eexists. reflexivity. }
    destruct Ej as [r Er].
    cbn [List.app]. rewrite <- app_assoc.
    pose proof (parse_elements_items (parse_value fuel) (x :: l') rest fuel) as Hp.
    rewrite Er in Hp, Hf |- *. cbn [List.app] in Hp |- *.
    cbn [List.length] in Hf.
    rewrite (parse_value_list fuel t _ Hc). rewrite Hp.
    + reflexivity.
    + discriminate.
    + pose proof (join_tokens_count pyobj tokens (x :: l')) as Hc'.
      rewrite Er in Hc'. cbn [List.length] in Hc' |- *.
      assert (S (List.length l') <= S (List.length r)); [|lia].
      apply Hc'. intros y Hy.
      destruct (tokens_head y (Hok y Hy)) as [t' [ts' [Et' _]]].
      rewrite Et'. cbn. lia.
    + intros y rest' Hy. apply (IH y Hy (Hok y Hy)).
      pose proof (join_tokens_length pyobj tokens (x :: l') y Hy) as Hl.
      rewrite Er in Hl. cbn [List.length] in Hl. lia.
  - destruct d as [|[k x] d']; [reflexivity|].
    cbn [json_ok] in Hok. apply andb_true_iff in Hok. destruct Hok as [Hnd Hok].
    rewrite forallb_forall in Hok. rewrite Forall_forall in IH.
    set (item := fun kv : text * pyobj => TString (fst kv) :: TColon :: tokens (snd kv)).
    cbn [tokens] in Hf |- *. fold item in Hf |- *.
    cbn [List.length] in Hf. rewrite length_app in Hf. cbn [List.length] in Hf.
    assert (Ej : exists r, join_tokens (map item ((k, x) :: d')) = TString k :: r).
    { destruct d' as [|y d'].
      - cbn. eexists. reflexivity.
      - change (map item ((k, x) :: y :: d')) with (item (k, x) :: item y :: map item d').
        rewrite join_tokens_cons. cbn. eexists. reflexivity. }
    destruct Ej as [r Er].
    cbn [List.app]. rewrite <- app_assoc.
    pose proof (parse_members_items (parse_value fuel) ((k, x) :: d') rest fuel) as Hp.
    fold item in Hp. rewrite Er in Hp, Hf |- *. cbn [List.app] in Hp |- *.
    cbn [List.length] in Hf.
    rewrite parse_value_dict. rewrite Hp.
    + rewrite (dict_of_pairs_nodup pyobj _ Hnd). reflexivity.
    + discriminate.
    + pose proof (join_tokens_count (text * pyobj) item ((k, x) :: d')) as Hc'.
      rewrite Er in Hc'. cbn [List.length] in Hc' |- *.
      assert (S (List.length d') <= S (List.length r)); [|lia].
      apply Hc'. intros y Hy. cbn. lia.
    + intros y rest' Hy. apply (IH y Hy (Hok y Hy)).
      pose proof (join_tokens_length (text * pyobj) item ((k, x) :: d') y Hy) as Hl.
      rewrite Er in Hl. cbn [List.length] in Hl. unfold item in Hl at 1.
      cbn [List.length] in Hl. lia.
Qed.

(** A text the lexer reads as the tokens of a marked value is parsed into
    the value without its markers. *)
Lemma loads_lexed :
  forall T o,
    marked_ok o = true -> lexes true T (tokens o) ->
    json_loads T = Some (unmark o).
Proof.
  intros T o Hok Hl. unfold json_loads, tokenize.
  pose proof (Hl [] 1 [] I eq_refl) as H.
  rewrite !List.app_nil_r in H. cbn [Nat.add] in H. rewrite H.
  rewrite <- (List.app_nil_r (tokens o)) at 2.
  rewrite <- tokens_unmark.
  rewrite parse_tokens; [reflexivity | apply unmark_json_ok; exact Hok | lia].
Qed.

(* ================================================================== *)
(** * Properties of the writer *)

Section WriterFacts.

Variable NetCDFReader : text -> result Reader.
Variable TileSet_get_tiles :
  list Z -> text -> list Z -> ndarray -> result (list (ndarray * list text)).
Variable TileSet_generate_url_template :
  list Z -> text -> text -> list text -> text.
Variable TileSet_create_tileset : list Z -> text -> list Z -> pyobj.
Variable jsonld_compact : text -> dict text -> result text.

(** C2: the reference list built by the constructor follows the axis
    set: [t] and [z] give a temporal then a 3D spatial reference, [t]
    without [z] a temporal then a 2D spatial reference, neither of them
    a single 2D spatial reference; the list is the same whatever
    variables (and other arguments) the writer is built with. *)
Theorem ref_list_follows_axes :
  forall out path vars url is_tiled tshape ld rd ad,
    NetCDFReader path = Ok rd ->
    get_axes rd = Ok ad ->
    exists w,
      Writer_init NetCDFReader out path vars url is_tiled tshape ld = Ok w /\
      axis_list w = dict_keys ad /\
      (contains (dict_keys ad) (str "t") = true ->
       contains (dict_keys ad) (str "z") = true ->
       ref_list w = [TemporalReferenceSystem; SpatialReferenceSystem3d]) /\
      (contains (dict_keys ad) (str "t") = true ->
       contains (dict_keys ad) (str "z") = false ->
       ref_list w = [TemporalReferenceSystem; SpatialReferenceSystem2d]) /\
      (contains (dict_keys ad) (str "t") = false ->
       contains (dict_keys ad) (str "z") = false ->
       ref_list w = [SpatialReferenceSystem2d]) /\
      (forall out' vars' url' is_tiled' tshape' ld' w',
          Writer_init NetCDFReader out' path vars' url' is_tiled' tshape' ld'
          = Ok w' ->
          ref_list w' = ref_list w).
Proof.
  intros out path vars url is_tiled tshape ld rd ad Hrd Had.
  unfold Writer_init. rewrite Hrd. cbn [rbind]. rewrite Had. cbn [rbind].
  eexists. split; [reflexivity|]. cbn [axis_list ref_list].
  split; [reflexivity|].
  repeat split.
  - intros Ht Hz. rewrite Ht, Hz. reflexivity.
  - intros Ht Hz. rewrite Ht, Hz. reflexivity.
  - intros Ht Hz. rewrite Ht, Hz. reflexivity.
  - intros out' vars' url' is_tiled' tshape' ld' w' Hw'.
    inversion Hw'. reflexivity.
Qed.

(** The parameter loop keeps the value of its last iteration. *)
Lemma construct_params_loop_last :
  forall self vars0 last acc,
    (forall v, In v vars0 -> exists p, construct_params_body self v = Ok p) ->
    construct_params_loop self acc (vars0 ++ [last])
    = rbind (construct_params_body self last) (fun p => Ok (Some p)).
Proof.
  intros self vars0 last. induction vars0 as [|v vars0 IH]; intros acc Hall.
  - cbn. destruct (construct_params_body self last); reflexivity.
  - rewrite <- app_comm_cons. simpl construct_params_loop.
    destruct (Hall v (or_introl eq_refl)) as [p Hp]. rewrite Hp. cbn [rbind].
    apply IH. intros v' Hv'. apply Hall. right. exact Hv'.
Qed.

(** C5: for a non-empty list of variables, [_construct_params] returns
    one parameter, built from the metadata of the last variable; what the
    earlier iterations built is overwritten. *)
Theorem construct_params_returns_last :
  forall self vars0 last desc unit da sym label,
    vars_to_write self = vars0 ++ [last] ->
    (forall v, In v vars0 -> exists p, construct_params_body self v = Ok p) ->
    get_std_name (reader self) last = Ok desc ->
    get_units (reader self) last = Ok unit ->
    dataset (reader self) last = Ok da ->
    da_units da = Ok sym ->
    da_long_name da = Ok label ->
    Writer__construct_params self
    = Ok {| description := desc; param_variable_name := last;
            symbol := sym; unit_ := unit; observed_property := label |}.
Proof.
  intros self vars0 last desc unit da sym label Hv Hall Hd Hu Hda Hs Hl.
  unfold Writer__construct_params. rewrite Hv.
  rewrite construct_params_loop_last by exact Hall.
  unfold construct_params_body.
  rewrite Hd, Hu, Hda. cbn [rbind]. rewrite Hs, Hl. reflexivity.
Qed.

(** C9: with no variable to write, [write] raises before anything is
    written: the world it leaves is the one it found, and when the domain
    could be built the error is the unbound local [params]. *)
Theorem write_without_variables_raises :
  forall self w,
    vars_to_write self = [] ->
    exists e,
      Writer_write TileSet_get_tiles TileSet_generate_url_template
        TileSet_create_tileset self w = (Raise e, w) /\
      (forall d, Writer__construct_domain self = Ok d ->
                 e = UnboundLocalError "params").
Proof.
  intros self w Hv.
  unfold Writer_write, Writer__construct_coverage, Writer__construct_range,
    Writer__construct_params.
  rewrite Hv. cbn [for_each construct_params_loop rbind].
  unfold bind, lift, ret.
  destruct (Writer__construct_domain self) as [d|e].
  - exists (UnboundLocalError "params"). split; [reflexivity|]. reflexivity.
  - exists e. split; [reflexivity|]. intros d Hd. discriminate Hd.
Qed.

(** The range loop returns in its first iteration. *)
Lemma construct_range_first :
  forall self first rest w,
    vars_to_write self = first :: rest ->
    Writer__construct_range TileSet_get_tiles TileSet_generate_url_template
      TileSet_create_tileset self w
    = bind (construct_range_body TileSet_get_tiles TileSet_generate_url_template
              TileSet_create_tileset self first)
           (fun r => match r with
                     | Return a => ret (Some a)
                     | Next => for_each
                                 (construct_range_body TileSet_get_tiles
                                    TileSet_generate_url_template
                                    TileSet_create_tileset self) rest
                     end) w.
Proof.
  intros self first rest w Hv. unfold Writer__construct_range. rewrite Hv.
  reflexivity.
Qed.

(** C3 (what the code does): in tiled mode the range construction stops
    at the read of [self.urlTemplate], an attribute the constructor never
    sets, before the first tile is generated; no range document is
    written, however many tiles the array has. *)
Theorem tiled_range_writes_no_tile :
  forall self first rest w,
    tiled self = true ->
    vars_to_write self = first :: rest ->
    exists e,
      Writer__construct_range TileSet_get_tiles TileSet_generate_url_template
        TileSet_create_tileset self w = (Raise e, w) /\
      (forall names, get_axis (reader self) first = Ok names ->
                     e = AttributeError "urlTemplate").
Proof.
  intros self first rest w Ht Hv.
  rewrite (construct_range_first self first rest w Hv).
  unfold construct_range_body, bind, lift. rewrite Ht.
  destruct (get_axis (reader self) first) as [names|e].
  - exists (AttributeError "urlTemplate"). split; reflexivity.
  - exists e. split; [reflexivity|]. intros names H. discriminate H.
Qed.

(** Without tiling, the range is built from the first variable. *)
Lemma nontiled_range_of_first :
  forall self first rest w names shp vals dt,
    tiled self = false ->
    vars_to_write self = first :: rest ->
    get_axis (reader self) first = Ok names ->
    get_shape (reader self) first = Ok shp ->
    get_values (reader self) first = Ok vals ->
    get_type (reader self) first = Ok dt ->
    Writer__construct_range TileSet_get_tiles TileSet_generate_url_template
      TileSet_create_tileset self w
    = (Ok (Some {| range_range_type := str "NdArray";
                   data_type := dt;
                   axes := map str_lower names;
                   shape := shp;
                   values := flatten_tolist vals;
                   range_variable_name := first;
                   tile_sets := PList [] |}), w).
Proof.
  intros self first rest w names shp vals dt Ht Hv Ha Hs Hvals Hdt.
  rewrite (construct_range_first self first rest w Hv).
  unfold construct_range_body, bind, lift, ret.
  rewrite Ht, Ha, Hs, Hvals, Hdt. reflexivity.
Qed.

(** C4 (amended): without tiling and with two or more variables, the
    range returned is the one of the first variable of [vars_to_write];
    the loop returns in its first iteration, the later variables are not
    read and the world is left as it was. *)
Theorem construct_range_returns_first :
  forall self first second rest w names shp vals dt,
    tiled self = false ->
    vars_to_write self = first :: second :: rest ->
    get_axis (reader self) first = Ok names ->
    get_shape (reader self) first = Ok shp ->
    get_values (reader self) first = Ok vals ->
    get_type (reader self) first = Ok dt ->
    Writer__construct_range TileSet_get_tiles TileSet_generate_url_template
      TileSet_create_tileset self w
    = (Ok (Some {| range_range_type := str "NdArray";
                   data_type := dt;
                   axes := map str_lower names;
                   shape := shp;
                   values := flatten_tolist vals;
                   range_variable_name := first;
                   tile_sets := PList [] |}), w).
Proof.
  intros self first second rest w names shp vals dt Ht Hv Ha Hs Hvals Hdt.
  exact (nontiled_range_of_first self first (second :: rest) w names shp vals dt
           Ht Hv Ha Hs Hvals Hdt).
Qed.

(** C6 (amended): nothing compares the number of values with the shape.
    When the accessors answer, [write] hands the coverage built from the
    reader's shape and values, as they are, to [_save_covjson]. *)
Theorem write_does_not_check_shape :
  forall self first rest w names shp vals dt dom par,
    tiled self = false ->
    vars_to_write self = first :: rest ->
    get_axis (reader self) first = Ok names ->
    get_shape (reader self) first = Ok shp ->
    get_values (reader self) first = Ok vals ->
    get_type (reader self) first = Ok dt ->
    Writer__construct_domain self = Ok dom ->
    Writer__construct_params self = Ok par ->
    Writer_write TileSet_get_tiles TileSet_generate_url_template
      TileSet_create_tileset self w
    = Writer__save_covjson
        (Coverage_to_dict dom
           {| range_range_type := str "NdArray";
              data_type := dt;
              axes := map str_lower names;
              shape := shp;
              values := flatten_tolist vals;
              range_variable_name := first;
              tile_sets := PList [] |}
           par (Writer__construct_refs self))
        (output_name self) w.
Proof.
  intros self first rest w names shp vals dt dom par
         Ht Hv Ha Hs Hvals Hdt Hdom Hpar.
  unfold Writer_write, Writer__construct_coverage.
  unfold bind at 1. unfold bind at 1. unfold lift at 1. rewrite Hdom.
  unfold bind at 1.
  rewrite (nontiled_range_of_first self first rest w names shp vals dt
             Ht Hv Ha Hs Hvals Hdt).
  unfold bind at 1. unfold lift at 1. rewrite Hpar.
  unfold ret at 1. rewrite Ht. reflexivity.
Qed.

Lemma construct_params_loop_ld :
  forall self ld vars acc,
    construct_params_loop (with_covjson_ld self ld) acc vars
    = construct_params_loop self acc vars.
Proof.
  intros self ld vars. induction vars as [|v vs IH]; intros acc; [reflexivity|].
  simpl construct_params_loop.
  change (construct_params_body (with_covjson_ld self ld) v)
    with (construct_params_body self v).
  destruct (construct_params_body self v); cbn [rbind]; [apply IH|reflexivity].
Qed.

Lemma for_each_ext :
  forall (X A : Type) (f g : X -> Py (flow A)) (l : list X) (w : World),
    (forall x w', f x w' = g x w') -> for_each f l w = for_each g l w.
Proof.
  intros X A f g l. induction l as [|x l IH]; intros w Hfg; [reflexivity|].
  cbn [for_each]. unfold bind. rewrite Hfg.
  destruct (g x w) as [[[|a]|e] w']; try reflexivity. apply IH. exact Hfg.
Qed.

(** C8 (what the code does): [write] never consults the [covjson_ld]
    flag, so the flag changes neither the result nor the files; and
    [_save_json], the only place that mentions the JSON-LD compaction,
    raises [NameError] on the bare name [covjson_ld] once it has opened
    its file. *)
Theorem covjson_ld_is_ignored :
  forall self ld w,
    Writer_write TileSet_get_tiles TileSet_generate_url_template
      TileSet_create_tileset (with_covjson_ld self ld) w
    = Writer_write TileSet_get_tiles TileSet_generate_url_template
        TileSet_create_tileset self w /\
    (forall obj path kw,
        Writer__save_json jsonld_compact self obj path kw w
        = (Raise (NameError "covjson_ld"), snd (file_open path w))).
Proof.
  intros self ld w. split.
  - unfold Writer_write, Writer__construct_coverage, Writer__construct_range,
      Writer__construct_params.
    rewrite construct_params_loop_ld.
    change (Writer__construct_domain (with_covjson_ld self ld))
      with (Writer__construct_domain self).
    assert (Hr : forall w0,
               for_each (construct_range_body TileSet_get_tiles
                           TileSet_generate_url_template TileSet_create_tileset
                           (with_covjson_ld self ld))
                 (vars_to_write (with_covjson_ld self ld)) w0
               = for_each (construct_range_body TileSet_get_tiles
                             TileSet_generate_url_template
                             TileSet_create_tileset self)
                   (vars_to_write self) w0).
    { intros w0. apply for_each_ext. reflexivity. }
    unfold bind, lift.
    destruct (Writer__construct_domain self) as [d|e]; [|reflexivity].
    rewrite Hr. reflexivity.
  - intros obj path kw. reflexivity.
Qed.

End WriterFacts.

(* ================================================================== *)
(** * Marking a coverage *)

Lemma dict_get_set_same :
  forall (A : Type) (d : dict A) k v, dict_get (dict_set d k v) k = Some v.
Proof.
  intros A d k v. induction d as [|[k' v'] d IH]; cbn [dict_set dict_get].
  - rewrite text_eqb_refl. reflexivity.
  - destruct (text_eqb k' k) eqn:E; cbn [dict_get]; rewrite E; [reflexivity|exact IH].
Qed.

Lemma dict_get_set_other :
  forall (A : Type) (d : dict A) k k' v,
    text_eqb k k' = false -> dict_get (dict_set d k v) k' = dict_get d k'.
Proof.
  intros A d k k' v Hk. induction d as [|[k0 v0] d IH]; cbn [dict_set dict_get].
  - rewrite Hk. reflexivity.
  - destruct (text_eqb k0 k) eqn:E; cbn [dict_get].
    + apply text_eqb_eq in E. subst k0. rewrite Hk. reflexivity.
    + destruct (text_eqb k0 k'); [reflexivity | exact IH].
Qed.

Lemma dict_set_set :
  forall (A : Type) (d : dict A) k v v',
    dict_set (dict_set d k v) k v' = dict_set d k v'.
Proof.
  intros A d k v v'. induction d as [|[k0 v0] d IH]; cbn [dict_set].
  - rewrite text_eqb_refl. reflexivity.
  - destruct (text_eqb k0 k) eqn:E; cbn [dict_set]; rewrite E; [reflexivity|].
    rewrite IH. reflexivity.
Qed.

(** Replacing the value under an existing key by a marked form of it
    keeps the dictionary a marked value of the same document. *)
Lemma marked_set :
  forall d k v v',
    marked_ok (PDict d) = true ->
    dict_get d k = Some v ->
    marked_ok v' = true ->
    unmark v' = unmark v ->
    marked_ok (PDict (dict_set d k v')) = true /\
    unmark (PDict (dict_set d k v')) = unmark (PDict d).
Proof.
  intros d k v v' Hok Hget Hv' Hu. cbn [marked_ok unmark] in *.
  apply andb_true_iff in Hok. destruct Hok as [Hnd Hall].
  assert (Hkeys : map fst (dict_set d k v') = map fst d).
  { clear Hnd Hall. induction d as [|[k0 v0] d IH]; [discriminate Hget|].
    cbn [dict_get dict_set] in *. destruct (text_eqb k0 k); [reflexivity|].
    cbn [map fst]. f_equal. apply IH. exact Hget. }
  split.
  - rewrite Hkeys, Hnd. cbn [andb].
    clear Hnd Hkeys. induction d as [|[k0 v0] d IH]; [discriminate Hget|].
    cbn [dict_get dict_set forallb snd] in *.
    apply andb_true_iff in Hall. destruct Hall as [H0 Hall].
    destruct (text_eqb k0 k).
    + cbn [forallb snd]. rewrite Hv', Hall. reflexivity.
    + cbn [forallb snd]. rewrite H0. cbn [andb]. apply IH; assumption.
  - f_equal. clear Hnd Hall Hkeys.
    induction d as [|[k0 v0] d IH]; [discriminate Hget|].
    cbn [dict_get dict_set] in *. destruct (text_eqb k0 k).
    + injection Hget as ->. cbn [map fst snd]. rewrite Hu. reflexivity.
    + cbn [map fst snd]. f_equal. apply IH. exact Hget.
Qed.

Lemma json_ok_value :
  forall d k v, json_ok (PDict d) = true -> dict_get d k = Some v -> json_ok v = true.
Proof.
  intros d k v Hok Hget. cbn [json_ok] in Hok. apply andb_true_iff in Hok.
  destruct Hok as [_ Hall].
  induction d as [|[k0 v0] d IH]; [discriminate Hget|].
  cbn [dict_get forallb snd] in *. apply andb_true_iff in Hall.
  destruct Hall as [H0 Hall]. destruct (text_eqb k0 k).
  - injection Hget as <-. exact H0.
  - apply IH; assumption.
Qed.

Lemma wrap_fold_raise : forall specs e, wrap_fold (Raise e) specs = Raise e.
Proof.
  induction specs as [|s specs IH]; intros e; [reflexivity|].
  cbn [wrap_fold fold_left rbind]. apply IH.
Qed.

Lemma Writer_compact_wrap :
  forall obj names,
    Writer_compact obj names
    = wrap_fold (Ok obj) (map (fun n => (n, compact_args)) names).
Proof.
  intros obj names. unfold Writer_compact, wrap_fold.
  generalize (Ok obj). induction names as [|n names IH]; intros acc; [reflexivity|].
  cbn [map fold_left fst snd]. apply IH.
Qed.

Lemma Writer_no_indent_wrap :
  forall obj names,
    Writer_no_indent obj names
    = wrap_fold (Ok obj) (map (fun n => (n, no_indent_args)) names).
Proof.
  intros obj names. unfold Writer_no_indent, wrap_fold.
  generalize (Ok obj). induction names as [|n names IH]; intros acc; [reflexivity|].
  cbn [map fold_left fst snd]. apply IH.
Qed.

Lemma wrap_fold_app :
  forall acc l1 l2, wrap_fold (wrap_fold acc l1) l2 = wrap_fold acc (l1 ++ l2).
Proof. intros acc l1 l2. unfold wrap_fold. rewrite fold_left_app. reflexivity. Qed.

Lemma wrap_fold_bind :
  forall acc l, rbind acc (fun o => wrap_fold (Ok o) l) = wrap_fold acc l.
Proof.
  intros [o|e] l; cbn [rbind]; [reflexivity|]. rewrite wrap_fold_raise. reflexivity.
Qed.

Lemma wrap_fold_bind_ext :
  forall acc (f : pyobj -> result pyobj) l,
    (forall r, f r = wrap_fold (Ok r) l) -> rbind acc f = wrap_fold acc l.
Proof.
  intros [o|e] f l H; cbn [rbind]; [apply H|]. rewrite wrap_fold_raise. reflexivity.
Qed.

(** Wrapping the values under pairwise different names of a plain
    dictionary gives a marked form of it. *)
Lemma wrap_fold_marked :
  forall specs o0 o o',
    NoDup (map fst specs) ->
    Forall (fun s => args_ok (snd s) = true) specs ->
    json_ok o0 = true ->
    marked_ok o = true -> unmark o = o0 ->
    (forall n, In n (map fst specs) -> getitem o n = getitem o0 n) ->
    wrap_fold (Ok o) specs = Ok o' ->
    marked_ok o' = true /\ unmark o' = o0.
Proof.
  induction specs as [|[n a] specs IH]; intros o0 o o' Hnd Hargs H0 Hok Hu Hfr H.
  - cbn in H. injection H as <-. split; assumption.
  - cbn [wrap_fold fold_left fst snd rbind] in H.
    cbn [map fst] in Hnd. apply NoDup_cons_iff in Hnd. destruct Hnd as [Hn Hnd'].
    pose proof (Forall_inv Hargs) as Ha. cbn [snd] in Ha.
    pose proof (Forall_inv_tail Hargs) as Hargs'.
    destruct (getitem o n) as [v|e] eqn:Eg;
      [|cbn in H; fold (wrap_fold (Raise e) specs) in H;
        rewrite wrap_fold_raise in H; discriminate H].
    cbn [rbind] in H.
    destruct o as [| | | | |  |d| |]; try discriminate Eg.
    cbn [setitem] in H. fold (wrap_fold (Ok (PDict (dict_set d n (PCustom v a)))) specs) in H.
    cbn [getitem] in Eg. destruct (dict_get d n) as [v1|] eqn:Ed; [|discriminate Eg].
    injection Eg as ->.
    assert (Hv : json_ok v = true).
    { pose proof (Hfr n (or_introl eq_refl)) as Hn0. cbn [getitem] in Hn0.
      rewrite Ed in Hn0. destruct o0 as [| | | | |  |d0| |]; try discriminate Hn0.
      cbn [getitem] in Hn0. destruct (dict_get d0 n) as [v0|] eqn:Ed0;
        [|discriminate Hn0].
      injection Hn0 as ->. apply (json_ok_value d0 n v0 H0 Ed0). }
    destruct (marked_set d n v (PCustom v a) Hok Ed) as [Hok' Hu'].
    + cbn [marked_ok]. rewrite Hv, Ha. reflexivity.
    + reflexivity.
    + apply (IH o0 (PDict (dict_set d n (PCustom v a))) o'); try assumption.
      * rewrite Hu'. exact Hu.
      * intros m Hm. rewrite <- (Hfr m (or_intror Hm)). cbn [getitem].
        rewrite dict_get_set_other; [reflexivity|].
        apply text_eqb_neq. intros E. subst m. contradiction.
Qed.

Lemma wrap_plain :
  forall specs o o',
    NoDup (map fst specs) ->
    Forall (fun s => args_ok (snd s) = true) specs ->
    json_ok o = true ->
    wrap_fold (Ok o) specs = Ok o' ->
    marked_ok o' = true /\ unmark o' = o.
Proof.
  intros specs o o' Hnd Hargs Hok H.
  apply (wrap_fold_marked specs o o o' Hnd Hargs Hok).
  - apply json_ok_marked_ok. exact Hok.
  - apply unmark_json. exact Hok.
  - reflexivity.
  - exact H.
Qed.

(** Marking every value of a plain dictionary. *)
Lemma for_values_marked :
  forall f d d',
    (forall v v', json_ok v = true -> f v = Ok v' ->
                  marked_ok v' = true /\ unmark v' = v) ->
    json_ok (PDict d) = true ->
    for_values f d = Ok d' ->
    marked_ok (PDict d') = true /\ unmark (PDict d') = PDict d.
Proof.
  intros f d d' Hf Hok H.
  assert (Hd : map fst d' = map fst d /\
               forallb (fun kv => marked_ok (snd kv)) d' = true /\
               map (fun kv => (fst kv, unmark (snd kv))) d' = d).
  { cbn [json_ok] in Hok. apply andb_true_iff in Hok. destruct Hok as [_ Hall].
    revert d' H. unfold for_values.
    induction d as [|[k v] d IH]; intros d' H.
    - cbn in H. injection H as <-. repeat split.
    - cbn [rmap fst snd] in H. cbn [forallb snd] in Hall.
      apply andb_true_iff in Hall. destruct Hall as [Hv Hall].
      destruct (f v) as [v'|e] eqn:Ef; [|discriminate H]. cbn [rbind] in H.
      destruct (rmap _ d) as [ys|e] eqn:Er; [|discriminate H].
      cbn in H. injection H as <-.
      destruct (IH Hall ys eq_refl) as [Hk [Hm Hu]].
      destruct (Hf v v' Hv Ef) as [Hm' Hu'].
      cbn [map fst snd forallb]. rewrite Hk, Hm, Hm', Hu, Hu'. repeat split. }
  destruct Hd as [Hk [Hm Hu]]. cbn [marked_ok unmark]. rewrite Hk, Hm, Hu.
  cbn [json_ok] in Hok. apply andb_true_iff in Hok. rewrite (proj1 Hok).
  split; reflexivity.
Qed.

(** Marking every element of a plain list. *)
Lemma rmap_marked :
  forall f l l',
    (forall v v', json_ok v = true -> f v = Ok v' ->
                  marked_ok v' = true /\ unmark v' = v) ->
    json_ok (PList l) = true ->
    rmap f l = Ok l' ->
    marked_ok (PList l') = true /\ unmark (PList l') = PList l.
Proof.
  intros f l l' Hf Hok H. cbn [json_ok marked_ok unmark] in *.
  revert l' H. induction l as [|v l IH]; intros l' H.
  - cbn in H. injection H as <-. split; reflexivity.
  - cbn [rmap] in H. cbn [forallb] in Hok. apply andb_true_iff in Hok.
    destruct Hok as [Hv Hall].
    destruct (f v) as [v'|e] eqn:Ef; [|discriminate H]. cbn [rbind] in H.
    destruct (rmap f l) as [ys|e] eqn:Er; [|discriminate H].
    cbn in H. injection H as <-.
    destruct (IH Hall ys eq_refl) as [Hm Hu].
    destruct (Hf v v' Hv Ef) as [Hm' Hu'].
    cbn [map forallb]. rewrite Hm, Hm', Hu'. injection Hu as ->.
    split; reflexivity.
Qed.

Lemma compact_values_marked :
  forall v v',
    json_ok v = true -> Writer_compact v [str "values"] = Ok v' ->
    marked_ok v' = true /\ unmark v' = v.
Proof.
  intros v v' Hok H. rewrite Writer_compact_wrap in H.
  apply (wrap_plain _ v v') in H; [exact H | | | exact Hok].
  - cbn. repeat constructor. intros [].
  - repeat constructor.
Qed.

Lemma no_indent_coordinates_marked :
  forall v v',
    json_ok v = true -> Writer_no_indent v [str "coordinates"] = Ok v' ->
    marked_ok v' = true /\ unmark v' = v.
Proof.
  intros v v' Hok H. rewrite Writer_no_indent_wrap in H.
  apply (wrap_plain _ v v') in H; [exact H | | | exact Hok].
  - cbn. repeat constructor. intros [].
  - repeat constructor.
Qed.

Lemma range_marked :
  forall v v',
    json_ok v = true ->
    rbind (Writer_no_indent v [str "axisNames"; str "shape"])
          (fun r => Writer_compact r [str "values"]) = Ok v' ->
    marked_ok v' = true /\ unmark v' = v.
Proof.
  intros v v' Hok H. rewrite Writer_no_indent_wrap in H.
  assert (E : forall r, Writer_compact r [str "values"]
                        = wrap_fold (Ok r) [(str "values", compact_args)]).
  { intros r. apply Writer_compact_wrap. }
  rewrite (wrap_fold_bind_ext _ _ _ E) in H. rewrite wrap_fold_app in H.
  apply (wrap_plain _ v v') in H; [exact H | | | exact Hok].
  - cbn. repeat constructor; cbn; intros H'; 
      repeat (destruct H' as [H' | H']; [discriminate H'|]); exact H'.
  - repeat constructor.
Qed.

Lemma mark_axes_inv :
  forall obj obj1,
    mark_axes obj = Ok obj1 ->
    exists d dd da da',
      obj = PDict d /\
      dict_get d (str "domain") = Some (PDict dd) /\
      dict_get dd (str "axes") = Some (PDict da) /\
      for_values (fun axis => Writer_compact axis [str "values"]) da = Ok da' /\
      obj1 = PDict (dict_set d (str "domain")
                      (PDict (dict_set dd (str "axes") (PDict da')))).
Proof.
  intros obj obj1 H. unfold mark_axes in H.
  destruct obj as [| | | | |  |d| |]; try discriminate H. cbn [getitem] in H.
  destruct (dict_get d (str "domain")) as [dom|] eqn:Ed; [|discriminate H].
  cbn [rbind] in H.
  destruct dom as [| | | | |  |dd| |]; try discriminate H. cbn [getitem] in H.
  destruct (dict_get dd (str "axes")) as [ax|] eqn:Ea; [|discriminate H].
  cbn [rbind] in H.
  destruct ax as [| | | | |  |da| |]; try discriminate H. cbn [values_of rbind] in H.
  destruct (for_values _ da) as [da'|e] eqn:Ef; [|discriminate H].
  cbn [rbind setitem] in H. injection H as <-.
  exists d, dd, da, da'. repeat split; assumption.
Qed.

Lemma mark_referencing_inv :
  forall obj obj1,
    mark_referencing obj = Ok obj1 ->
    exists d dd refs refs',
      obj = PDict d /\
      dict_get d (str "domain") = Some (PDict dd) /\
      dict_get dd (str "referencing") = Some (PList refs) /\
      rmap (fun ref => Writer_no_indent ref [str "coordinates"]) refs = Ok refs' /\
      obj1 = PDict (dict_set d (str "domain")
                      (PDict (dict_set dd (str "referencing") (PList refs')))).
Proof.
  intros obj obj1 H. unfold mark_referencing in H.
  destruct obj as [| | | | |  |d| |]; try discriminate H. cbn [getitem] in H.
  destruct (dict_get d (str "domain")) as [dom|] eqn:Ed; [|discriminate H].
  cbn [rbind] in H.
  destruct dom as [| | | | |  |dd| |]; try discriminate H. cbn [getitem] in H.
  destruct (dict_get dd (str "referencing")) as [rf|] eqn:Ea; [|discriminate H].
  cbn [rbind] in H.
  destruct rf as [| | | | |refs| | |]; try discriminate H. cbn [iter_list rbind] in H.
  destruct (rmap _ refs) as [refs'|e] eqn:Ef; [|discriminate H].
  cbn [rbind setitem] in H. injection H as <-.
  exists d, dd, refs, refs'. repeat split; assumption.
Qed.

Lemma mark_ranges_inv :
  forall obj obj1,
    mark_ranges obj = Ok obj1 ->
    exists d dr dr',
      obj = PDict d /\
      dict_get d (str "ranges") = Some (PDict dr) /\
      for_values (fun covrange =>
                    rbind (Writer_no_indent covrange [str "axisNames"; str "shape"])
                          (fun r => Writer_compact r [str "values"])) dr = Ok dr' /\
      obj1 = PDict (dict_set d (str "ranges") (PDict dr')).
Proof.
  intros obj obj1 H. unfold mark_ranges in H.
  destruct obj as [| | | | |  |d| |]; try discriminate H. cbn [getitem] in H.
  destruct (dict_get d (str "ranges")) as [rg|] eqn:Ed; [|discriminate H].
  cbn [rbind] in H.
  destruct rg as [| | | | |  |dr| |]; try discriminate H. cbn [values_of rbind] in H.
  destruct (for_values _ dr) as [dr'|e] eqn:Ef; [|discriminate H].
  cbn [rbind setitem] in H. injection H as <-.
  exists d, dr, dr'. repeat split; assumption.
Qed.

(** The three loops of [_save_covjson] turn a plain coverage into a
    marked form of the same coverage. *)
Lemma mark_covjson_marked :
  forall obj obj1 obj2 obj3,
    json_ok obj = true ->
    mark_axes obj = Ok obj1 ->
    mark_referencing obj1 = Ok obj2 ->
    mark_ranges obj2 = Ok obj3 ->
    marked_ok obj3 = true /\ unmark obj3 = obj.
Proof.
  intros obj obj1 obj2 obj3 Hok H1 H2 H3.
  apply mark_axes_inv in H1.
  destruct H1 as [d [dd [da [da' [-> [Hdom [Hax [Hfa ->]]]]]]]].
  apply mark_referencing_inv in H2.
  destruct H2 as [d1 [dd1 [refs [refs' [E1 [Hdom1 [Href [Hfr ->]]]]]]]].
  injection E1 as <-. rewrite dict_get_set_same in Hdom1. injection Hdom1 as <-.
  rewrite dict_get_set_other in Href by reflexivity.
  rewrite dict_set_set in H3.
  apply mark_ranges_inv in H3.
  destruct H3 as [d2 [dr [dr' [E2 [Hrg [Hfg ->]]]]]].
  injection E2 as <-. rewrite dict_get_set_other in Hrg by reflexivity.
  pose proof (json_ok_value d _ _ Hok Hdom) as Hokdd.
  pose proof (json_ok_value dd _ _ Hokdd Hax) as Hokda.
  pose proof (json_ok_value dd _ _ Hokdd Href) as Hokrefs.
  pose proof (json_ok_value d _ _ Hok Hrg) as Hokdr.
  destruct (for_values_marked _ da da' compact_values_marked Hokda Hfa) as [Ma Ua].
  destruct (rmap_marked _ refs refs' no_indent_coordinates_marked Hokrefs Hfr)
    as [Mr Ur].
  destruct (for_values_marked _ dr dr' range_marked Hokdr Hfg) as [Mg Ug].
  (* the domain *)
  destruct (marked_set dd (str "axes") (PDict da) (PDict da')
              (json_ok_marked_ok _ Hokdd) Hax Ma) as [Mdd1 Udd1].
  { rewrite Ua. symmetry. apply unmark_json. exact Hokda. }
  destruct (marked_set (dict_set dd (str "axes") (PDict da')) (str "referencing")
              (PList refs) (PList refs') Mdd1) as [Mdd2 Udd2].
  { rewrite dict_get_set_other by reflexivity. exact Href. }
  { exact Mr. }
  { rewrite Ur. symmetry. apply unmark_json. exact Hokrefs. }
  (* the coverage *)
  destruct (marked_set d (str "domain") (PDict dd)
              (PDict (dict_set (dict_set dd (str "axes") (PDict da'))
                        (str "referencing") (PList refs')))
              (json_ok_marked_ok _ Hok) Hdom Mdd2) as [Md1 Ud1].
  { rewrite Udd2, Udd1. reflexivity. }
  destruct (marked_set _ (str "ranges") (PDict dr) (PDict dr') Md1) as [Md2 Ud2].
  { rewrite dict_get_set_other by reflexivity. exact Hrg. }
  { exact Mg. }
  { rewrite Ug. symmetry. apply unmark_json. exact Hokdr. }
  split; [exact Md2|].
  exact (eq_trans Ud2 (eq_trans Ud1 (unmark_json _ Hok))).
Qed.

(** ** A coverage can be marked *)

Lemma has_keys_set :
  forall names d k v,
    has_keys names (PDict d) = true ->
    has_keys names (PDict (dict_set d k v)) = true.
Proof.
  intros names d k v H. cbn [has_keys] in *. rewrite forallb_forall in H |- *.
  intros n Hn. specialize (H n Hn).
  destruct (text_eqb k n) eqn:E.
  - apply text_eqb_eq in E. subst n. rewrite dict_get_set_same. reflexivity.
  - rewrite dict_get_set_other by exact E. exact H.
Qed.

Lemma wrap_fold_total :
  forall specs o,
    has_keys (map fst specs) o = true -> exists o', wrap_fold (Ok o) specs = Ok o'.
Proof.
  induction specs as [|[n a] specs IH]; intros o H.
  - exists o. reflexivity.
  - destruct o as [| | | | |  |d| |]; try discriminate H.
    pose proof H as H'. cbn [has_keys map fst forallb] in H'.
    apply andb_true_iff in H'. destruct H' as [Hn Hrest].
    destruct (dict_get d n) as [v|] eqn:Ed; [|discriminate Hn].
    destruct (IH (PDict (dict_set d n (PCustom v a)))) as [o' Ho'].
    + apply has_keys_set. cbn [has_keys]. exact Hrest.
    + exists o'. cbn [wrap_fold fold_left fst snd rbind getitem].
      rewrite Ed. cbn [setitem]. exact Ho'.
Qed.

Lemma rmap_total :
  forall (A B : Type) (f : A -> result B) l,
    (forall x, In x l -> exists y, f x = Ok y) -> exists l', rmap f l = Ok l'.
Proof.
  intros A B f l. induction l as [|x l IH]; intros H.
  - exists []. reflexivity.
  - destruct (H x (or_introl eq_refl)) as [y Hy].
    destruct IH as [l' Hl']; [intros z Hz; apply H; right; exact Hz|].
    exists (y :: l'). cbn [rmap]. rewrite Hy. cbn [rbind]. rewrite Hl'. reflexivity.
Qed.

Lemma for_values_total :
  forall f (d : dict pyobj),
    (forall kv, In kv d -> exists y, f (snd kv) = Ok y) ->
    exists d', for_values f d = Ok d'.
Proof.
  intros f d H. unfold for_values. apply rmap_total. intros kv Hkv.
  destruct (H kv Hkv) as [y Hy]. rewrite Hy. eexists. reflexivity.
Qed.

(** A mapping of the shape of a coverage is marked without error. *)
Lemma coverage_can_be_marked :
  forall obj, is_coverage obj = true -> exists marked, mark_covjson obj = Ok marked.
Proof.
  intros obj H. unfold is_coverage in H.
  destruct obj as [| | | | |  |d| |]; try discriminate H.
  destruct (dict_get d (str "domain")) as [[| | | | |  |dd| |]|] eqn:Edom;
    try discriminate H.
  destruct (dict_get d (str "ranges")) as [[| | | | |  |dr| |]|] eqn:Erg;
    try discriminate H.
  destruct (dict_get dd (str "axes")) as [[| | | | |  |da| |]|] eqn:Eax;
    try discriminate H.
  destruct (dict_get dd (str "referencing")) as [[| | | | |refs| | |]|] eqn:Eref;
    try discriminate H.
  apply andb_true_iff in H. destruct H as [H Hdr].
  apply andb_true_iff in H. destruct H as [Hda Hrefs].
  rewrite forallb_forall in Hda, Hrefs, Hdr.
  destruct (for_values_total
              (fun axis => Writer_compact axis [str "values"]) da) as [da' Hda'].
  { intros kv Hkv. rewrite Writer_compact_wrap. apply wrap_fold_total.
    apply (Hda kv Hkv). }
  destruct (rmap_total _ _
              (fun ref => Writer_no_indent ref [str "coordinates"]) refs)
    as [refs' Hrefs'].
  { intros x Hx. rewrite Writer_no_indent_wrap. apply wrap_fold_total.
    apply (Hrefs x Hx). }
  destruct (for_values_total
              (fun covrange =>
                 rbind (Writer_no_indent covrange [str "axisNames"; str "shape"])
                       (fun r => Writer_compact r [str "values"])) dr)
    as [dr' Hdr'].
  { intros kv Hkv. rewrite Writer_no_indent_wrap.
    rewrite (wrap_fold_bind_ext _ _ [(str "values", compact_args)])
      by (intros r; apply Writer_compact_wrap).
    rewrite wrap_fold_app. apply wrap_fold_total. apply (Hdr kv Hkv). }
  eexists. unfold mark_covjson, mark_axes, mark_referencing, mark_ranges.
  cbn [getitem]. rewrite Edom. cbn [rbind getitem]. rewrite Eax.
  cbn [rbind values_of]. rewrite Hda'. cbn [rbind setitem getitem].
  rewrite dict_get_set_same. cbn [rbind getitem].
  rewrite dict_get_set_other by reflexivity. rewrite Eref.
  cbn [rbind iter_list]. rewrite Hrefs'. cbn [rbind setitem getitem].
  rewrite dict_get_set_other by reflexivity.
  rewrite dict_get_set_other by reflexivity. rewrite Erg.
  cbn [rbind values_of]. rewrite Hdr'. cbn [rbind setitem]. reflexivity.
Qed.

(** The mapping [Coverage.to_dict] returns for an NdArray range has the
    shape of a coverage. *)
Lemma Coverage_to_dict_is_coverage :
  forall d r p refs,
    text_eqb (range_range_type r) (str "TiledNdArray") = false ->
    is_coverage (Coverage_to_dict d r p refs) = true.
Proof.
  intros d r p refs Hr. unfold is_coverage, Coverage_to_dict, Range_to_dict.
  rewrite Hr. cbn [dict_get]. cbn -[forallb has_keys map].
  apply andb_true_iff. split; [apply andb_true_iff; split|].
  - unfold optional_axis, axis_entry.
    destruct (t_values d), (z_values d); reflexivity.
  - apply forallb_forall. intros x Hx. apply in_map_iff in Hx.
    destruct Hx as [rs [<- _]]. destruct rs; reflexivity.
  - reflexivity.
Qed.

(* ================================================================== *)
(** * The tile loop *)

(** The encoder touches no file. *)
Lemma CustomEncoder_join_files :
  forall chunks self w, files (snd (CustomEncoder_join self chunks w)) = files w.
Proof.
  induction chunks as [|[t|o] cs IH]; intros self w.
  - reflexivity.
  - cbn [CustomEncoder_join]. unfold bind. specialize (IH self w).
    destruct (CustomEncoder_join self cs w) as [[rs|e] w1]; exact IH.
  - cbn [CustomEncoder_join]. unfold bind at 1.
    assert (Hd : files (snd (CustomEncoder_default self o w)) = files w).
    { destruct o; cbn [CustomEncoder_default]; unfold bind, uuid4, lift, ret;
        cbn [files];
        try match goal with |- context [JSONEncoder_default ?x] =>
              destruct (JSONEncoder_default x) end;
        try match goal with |- context [json_dumps ?x ?y] =>
              destruct (json_dumps x y) end;
        reflexivity. }
    destruct (CustomEncoder_default self o w) as [[ss|e] w1]; [|exact Hd].
    cbn [snd] in Hd. unfold bind. specialize (IH (snd ss) w1).
    destruct (CustomEncoder_join (snd ss) cs w1) as [[rs|e] w2];
      unfold ret; cbn [snd] in IH |- *; congruence.
Qed.

Lemma json_dumps_cls_files :
  forall obj ind w, files (snd (json_dumps_cls obj ind w)) = files w.
Proof.
  intros obj ind w. unfold json_dumps_cls, CustomEncoder_encode, bind.
  pose proof (CustomEncoder_join_files
                (iterencode (encoder (CustomEncoder_init ind None)) obj 0)
                (CustomEncoder_init ind None) w) as H.
  destruct (CustomEncoder_join _ _ w) as [[rs|e] w1]; exact H.
Qed.





(* ================================================================== *)
(** * The serializer *)

Lemma json_ok_encodable : forall v, json_ok v = true -> encodable v = true.
Proof.
  induction v as [|b|z|f|s|l IH|d IH|v a IH|n] using pyobj_ind; intros H;
    try reflexivity; try discriminate H.
  - destruct f; try discriminate H. exact H.
  - cbn [json_ok encodable] in *. rewrite forallb_forall in H |- *.
    rewrite Forall_forall in IH. intros x Hx. apply IH; [exact Hx | apply H; exact Hx].
  - cbn [json_ok encodable] in *. apply andb_true_iff in H. destruct H as [_ H].
    rewrite forallb_forall in H |- *. rewrite Forall_forall in IH.
    intros x Hx. apply IH; [exact Hx | apply H; exact Hx].
Qed.

Lemma marked_ok_encodable : forall o, marked_ok o = true -> encodable o = true.
Proof.
  induction o as [|b|z|f|s|l IH|d IH|v a IH|n] using pyobj_ind; intros H;
    try reflexivity; try discriminate H.
  - destruct f; try discriminate H. exact H.
  - cbn [marked_ok encodable] in *. rewrite forallb_forall in H |- *.
    rewrite Forall_forall in IH. intros x Hx. apply IH; [exact Hx | apply H; exact Hx].
  - cbn [marked_ok encodable] in *. apply andb_true_iff in H. destruct H as [_ H].
    rewrite forallb_forall in H |- *. rewrite Forall_forall in IH.
    intros x Hx. apply IH; [exact Hx | apply H; exact Hx].
  - cbn [marked_ok encodable] in *. apply andb_true_iff in H. destruct H as [Hv Ha].
    rewrite (json_ok_encodable v Hv), Ha. reflexivity.
Qed.

Lemma expand_safe :
  forall k chunks T,
    is_uuid_hex k = true ->
    Forall (chunk_safe k) chunks ->
    expand chunks = Ok T -> safe (placeholder k) T.
Proof.
  intros k chunks T Hk H. revert T.
  induction H as [|c chunks Hc _ IH]; intros T HT.
  - cbn in HT. injection HT as <-. apply safe_nil.
    apply placeholder_like_uuid. exact Hk.
  - cbn [expand] in HT. destruct (chunk_text c) as [t|e] eqn:Et; [|discriminate HT].
    cbn [rbind] in HT. destruct (expand chunks) as [r|e]; [|discriminate HT].
    cbn in HT. injection HT as <-.
    apply safe_app; [apply placeholder_like_uuid; exact Hk | |].
    + apply (Hc t). exact Et.
    + apply IH. reflexivity.
Qed.

(** The document with mixed formatting holds no placeholder of a fresh
    key. *)
Lemma mixed_dumps_safe :
  forall o kw_indent k T,
    encodable o = true -> fresh k o ->
    mixed_dumps o kw_indent = Ok T -> ~ occurs (placeholder k) T.
Proof.
  intros o ind k T Hwf Hfr HT. apply safe_occ.
  apply (expand_safe k _ T (proj1 Hfr)) in HT; [exact HT|].
  apply chunks_safe; [apply enc_ok_init | exact Hwf | exact Hfr].
Qed.

(** The document with mixed formatting is JSON for the value without its
    markers. *)
Lemma mixed_dumps_loads :
  forall o kw_indent,
    marked_ok o = true ->
    exists T, mixed_dumps o kw_indent = Ok T /\ json_loads T = Some (unmark o).
Proof.
  intros o ind Hok. unfold mixed_dumps.
  destruct (lexes_value true o Hok (or_introl eq_refl)
              (JSONEncoder_init ind None) 0) as [T [HT Hl]].
  - split; [apply enc_ok_init | discriminate].
  - exists T. split; [exact HT|]. apply loads_lexed; assumption.
Qed.

(** [save_json] empties the file, then writes the document with mixed
    formatting into it, or raises what the encoder raises. *)
Lemma save_json_spec :
  forall obj path kw_indent w,
    encodable obj = true ->
    fresh_keys w obj = true ->
    fst (Writer_save_json obj path kw_indent w)
    = rbind (mixed_dumps obj kw_indent) (fun _ => Ok tt) /\
    files (snd (Writer_save_json obj path kw_indent w))
    = match mixed_dumps obj kw_indent with
      | Ok T => dict_set (files w) path T
      | Raise _ => dict_set (files w) path []
      end.
Proof.
  intros obj path ind w Hwf Hfr.
  set (wo := {| files := dict_set (files w) path [];
                uuid4_hex := uuid4_hex w; uuid4_calls := uuid4_calls w |}).
  destruct (encode_is_mixed obj ind wo Hwf Hfr) as [w' [He Hf]].
  assert (Hrun : Writer_save_json obj path ind w
                 = match mixed_dumps obj ind with
                   | Ok T => file_write path T w'
                   | Raise e => (Raise e, w')
                   end).
  { unfold Writer_save_json, bind, file_open. fold wo. rewrite He.
    destruct (mixed_dumps obj ind); reflexivity. }
  rewrite Hrun. destruct (mixed_dumps obj ind) as [T|e].
  - unfold file_write. cbn [fst snd files rbind]. split; [reflexivity|].
    rewrite Hf. cbn [files wo]. rewrite dict_get_set_same. cbn [List.app].
    apply dict_set_set.
  - cbn [fst snd rbind]. split; [reflexivity | exact Hf].
Qed.

(** C10: for a fixed object, two runs of [save_json] that differ only in
    the keys the generator hands out (fresh unique identifiers in both
    runs) raise or return alike and leave the same files; what is written
    is the document with mixed formatting, which holds the placeholder of
    none of the keys. *)
Theorem save_json_is_deterministic :
  forall obj path kw_indent w1 w2,
    encodable obj = true ->
    fresh_keys w1 obj = true ->
    fresh_keys w2 obj = true ->
    files w1 = files w2 ->
    fst (Writer_save_json obj path kw_indent w1)
    = fst (Writer_save_json obj path kw_indent w2) /\
    files (snd (Writer_save_json obj path kw_indent w1))
    = files (snd (Writer_save_json obj path kw_indent w2)) /\
    (forall T, mixed_dumps obj kw_indent = Ok T ->
               dict_get (files (snd (Writer_save_json obj path kw_indent w1))) path
               = Some T /\
               forall k, In k (next_keys w1 (markers obj)
                               ++ next_keys w2 (markers obj)) ->
                         ~ occurs (placeholder k) T).
Proof.
  intros obj path ind w1 w2 Hwf H1 H2 Hfiles.
  destruct (save_json_spec obj path ind w1 Hwf H1) as [R1 F1].
  destruct (save_json_spec obj path ind w2 Hwf H2) as [R2 F2].
  split; [rewrite R1, R2; reflexivity|].
  split; [rewrite F1, F2, Hfiles; reflexivity|].
  intros T HT. split.
  - rewrite F1, HT. apply dict_get_set_same.
  - intros k Hk. apply (mixed_dumps_safe obj ind k T Hwf); [|exact HT].
    apply in_app_or in Hk. destruct Hk as [Hk | Hk].
    + apply (proj2 (next_keys_fresh w1 obj H1) k Hk).
    + apply (proj2 (next_keys_fresh w2 obj H2) k Hk).
Qed.

Lemma save_covjson_unfold :
  forall obj path w,
    Writer__save_covjson obj path w
    = match mark_covjson obj with
      | Ok marked => Writer_save_json marked path (Some 2) w
      | Raise e => (Raise e, w)
      end.
Proof.
  intros obj path w. unfold Writer__save_covjson, mark_covjson, bind, lift.
  destruct (mark_axes obj) as [o1|e]; [|reflexivity]. cbn [rbind].
  destruct (mark_referencing o1) as [o2|e]; [|reflexivity]. cbn [rbind].
  destruct (mark_ranges o2) as [o3|e]; reflexivity.
Qed.

Lemma mark_covjson_ok :
  forall obj marked,
    json_ok obj = true -> mark_covjson obj = Ok marked ->
    marked_ok marked = true /\ unmark marked = obj.
Proof.
  intros obj marked Hok H. unfold mark_covjson in H.
  destruct (mark_axes obj) as [o1|e] eqn:E1; [|discriminate H]. cbn [rbind] in H.
  destruct (mark_referencing o1) as [o2|e] eqn:E2; [|discriminate H].
  cbn [rbind] in H.
  apply (mark_covjson_marked obj o1 o2 marked Hok E1 E2 H).
Qed.

(** A field wrapped twice, as happens to a dictionary that stands for two
    axes or two ranges of the same mapping, cannot be written: the inner
    marker reaches the base encoder. *)
Lemma wrapped_twice_raises :
  forall v a b kw_indent w,
    fst (json_dumps_cls (PCustom (PCustom v a) b) kw_indent w)
    = Raise (TypeError "Object is not JSON serializable").
Proof. intros v a b ind w. reflexivity. Qed.

(** C1 (amended): for a coverage made of JSON values (finite floats
    only, no part shared between two places) and a generator of fresh
    unique keys, the non-tiled save returns normally and the text it leaves
    in the file is JSON that a standard parser reads back as the coverage
    before it was marked. *)
Theorem save_covjson_round_trip :
  forall obj path w,
    is_coverage obj = true ->
    json_ok obj = true ->
    covjson_keys_fresh w obj = true ->
    exists T,
      fst (Writer__save_covjson obj path w) = Ok tt /\
      dict_get (files (snd (Writer__save_covjson obj path w))) path = Some T /\
      json_loads T = Some obj.
Proof.
  intros obj path w Hcov Hok Hfr.
  destruct (coverage_can_be_marked obj Hcov) as [marked Hm].
  unfold covjson_keys_fresh in Hfr. rewrite Hm in Hfr.
  destruct (mark_covjson_ok obj marked Hok Hm) as [Hmo Hu].
  destruct (mixed_dumps_loads marked (Some 2) Hmo) as [T [HT Hl]].
  destruct (save_json_spec marked path (Some 2) w
              (marked_ok_encodable marked Hmo) Hfr) as [R F].
  exists T. rewrite save_covjson_unfold, Hm. rewrite R, F, HT.
  split; [reflexivity|]. split; [apply dict_get_set_same|].
  rewrite Hl, Hu. reflexivity.
Qed.

(** ** The compact rendering *)












(** The text of a chunk stands, as it is, in the document. *)
Lemma expand_contains :
  forall c chunks T r,
    In c chunks -> expand chunks = Ok T -> chunk_text c = Ok r -> occurs r T.
Proof.
  intros c chunks. induction chunks as [|c' chunks IH]; intros T r Hin HT Hr;
    [destruct Hin|].
  cbn [expand] in HT. destruct (chunk_text c') as [t|e] eqn:Et; [|discriminate HT].
  cbn [rbind] in HT. destruct (expand chunks) as [T'|e] eqn:ET; [|discriminate HT].
  cbn in HT. injection HT as <-. destruct Hin as [-> | Hin].
  - rewrite Hr in Et. injection Et as <-. exists [], T'. reflexivity.
  - destruct (IH T' r Hin eq_refl Hr) as [a [b Hab]].
    exists (t ++ a), b. rewrite Hab, <- app_assoc. reflexivity.
Qed.

(** The text of a document, cut at one of its chunks. *)
Lemma expand_split :
  forall cs1 c cs2 T,
    expand (cs1 ++ c :: cs2) = Ok T ->
    exists T1 t T2,
      expand cs1 = Ok T1 /\ chunk_text c = Ok t /\ expand cs2 = Ok T2 /\
      T = T1 ++ t ++ T2.
Proof.
  induction cs1 as [|c1 cs1 IH]; intros c cs2 T H.
  - cbn [List.app expand] in H.
    destruct (chunk_text c) as [t|e]; [|discriminate H]. cbn [rbind] in H.
    destruct (expand cs2) as [T2|e]; [|discriminate H].
    cbn in H. injection H as <-. exists [], t, T2. repeat split.
  - cbn [List.app expand] in H |- *.
    destruct (chunk_text c1) as [t1|e]; [|discriminate H]. cbn [rbind] in H |- *.
    destruct (expand (cs1 ++ c :: cs2)) as [T'|e] eqn:E; [|discriminate H].
    cbn in H. injection H as <-.
    destruct (IH c cs2 T' E) as [T1 [t [T2 [H1 [Ht [H2 ->]]]]]].
    exists (t1 ++ T1), t, T2. rewrite H1. cbn [rbind].
    repeat split; try assumption. rewrite <- app_assoc. reflexivity.
Qed.

(** Where the encoding of a document meets a marker, the file [save_json]
    writes holds the rendering [default] has made of the marked value: the
    placeholder [default] returned for it has been replaced by [encode],
    between the text of what stands before the marker and the text of what
    stands behind it. *)
Lemma marker_in_saved_text :
  forall doc kw_indent path w v a r cs1 cs2,
    encodable doc = true ->
    fresh_keys w doc = true ->
    json_dumps v a = Ok r ->
    iterencode (JSONEncoder_init kw_indent None) doc 0
    = cs1 ++ Dflt (PCustom v a) :: cs2 ->
    fst (Writer_save_json doc path kw_indent w) = Ok tt ->
    exists T1 T2,
      expand cs1 = Ok T1 /\ expand cs2 = Ok T2 /\
      dict_get (files (snd (Writer_save_json doc path kw_indent w))) path
      = Some (T1 ++ r ++ T2).
Proof.
  intros doc ind path w v a r cs1 cs2 Hwf Hfr Hr Hcs Hrun.
  destruct (save_json_spec doc path ind w Hwf Hfr) as [R F].
  rewrite R in Hrun. rewrite F.
  destruct (mixed_dumps doc ind) as [T|e] eqn:HT; [|discriminate Hrun].
  unfold mixed_dumps in HT. rewrite Hcs in HT.
  destruct (expand_split cs1 _ cs2 T HT) as [T1 [t [T2 [H1 [Ht [H2 ->]]]]]].
  cbn [chunk_text] in Ht. rewrite Hr in Ht. injection Ht as <-.
  exists T1, T2. split; [exact H1|]. split; [exact H2|].
  apply dict_get_set_same.
Qed.

(** The encoding of a dictionary meets the marker that stands under one
    of its keys. *)
Lemma In_join_items :
  forall sep (items : list (list chunk)) x c,
    In x items -> In c x -> In c (join_items sep items).
Proof.
  intros sep items x c. induction items as [|y items IH]; intros Hx Hc;
    [destruct Hx|].
  cbn [join_items]. destruct items as [|z items].
  - destruct Hx as [-> | []]. exact Hc.
  - apply in_or_app. destruct Hx as [-> | Hx]; [left; exact Hc|].
    right. right. apply IH; assumption.
Qed.

Lemma dict_get_In :
  forall (A : Type) (d : dict A) k v,
    dict_get d k = Some v -> exists k', In (k', v) d.
Proof.
  intros A d k v. induction d as [|[k0 v0] d IH]; intros H; [discriminate H|].
  cbn [dict_get] in H. destruct (text_eqb k0 k).
  - injection H as ->. exists k0. left. reflexivity.
  - destruct (IH H) as [k' Hk']. exists k'. right. exact Hk'.
Qed.

Lemma marker_in_dict_chunks :
  forall enc level d name v a,
    dict_get d name = Some (PCustom v a) ->
    exists cs1 cs2,
      iterencode enc (PDict d) level = cs1 ++ Dflt (PCustom v a) :: cs2.
Proof.
  intros enc level d name v a H. apply in_split.
  destruct (dict_get_In _ d name _ H) as [k Hk].
  destruct d as [|kv d']; [destruct Hk|].
  cbn [iterencode]. destruct (indent enc) as [wd|].
  - right. right. apply in_or_app. left.
    apply (In_join_items _ _
             (Lit (encode_basestring_ascii k) :: Lit (key_separator enc)
              :: iterencode enc (PCustom v a) (level + 1))).
    + apply (in_map (fun kv0 => Lit (encode_basestring_ascii (fst kv0))
                                :: Lit (key_separator enc)
                                :: iterencode enc (snd kv0) (level + 1))
               (kv :: d') (k, PCustom v a) Hk).
    + right. right. left. reflexivity.
  - right. apply in_or_app. left.
    apply (In_join_items _ _
             (Lit (encode_basestring_ascii k) :: Lit (key_separator enc)
              :: iterencode enc (PCustom v a) level)).
    + apply (in_map (fun kv0 => Lit (encode_basestring_ascii (fst kv0))
                                :: Lit (key_separator enc)
                                :: iterencode enc (snd kv0) level)
               (kv :: d') (k, PCustom v a) Hk).
    + right. right. left. reflexivity.
Qed.


(* ================================================================== *)
(** * Further properties of the writer *)

(** [save_json] touches no file but the one at [path]. *)
Lemma save_json_frame :
  forall obj path kw_indent w p,
    text_eqb path p = false ->
    dict_get (files (snd (Writer_save_json obj path kw_indent w))) p
    = dict_get (files w) p.
Proof.
  intros obj path ind w p Hp.
  set (w0 := {| files := dict_set (files w) path []; uuid4_hex := uuid4_hex w;
                uuid4_calls := uuid4_calls w |}).
  assert (E : Writer_save_json obj path ind w
              = match json_dumps_cls obj ind w0 with
                | (Ok s, w1) => file_write path s w1
                | (Raise e, w1) => (Raise e, w1)
                end) by reflexivity.
  rewrite E. clear E.
  pose proof (json_dumps_cls_files obj ind w0) as Hf.
  destruct (json_dumps_cls obj ind w0) as [[s|e] w1]; cbn [snd] in Hf |- *.
  - unfold file_write. cbn [snd files]. rewrite Hf. subst w0. cbn [files].
    rewrite !dict_get_set_other by exact Hp. reflexivity.
  - rewrite Hf. subst w0. cbn [files].
    rewrite dict_get_set_other by exact Hp. reflexivity.
Qed.

Lemma save_covjson_frame :
  forall obj path w p,
    text_eqb path p = false ->
    dict_get (files (snd (Writer__save_covjson obj path w))) p
    = dict_get (files w) p.
Proof.
  intros obj path w p Hp. rewrite save_covjson_unfold.
  destruct (mark_covjson obj) as [m|e]; [|reflexivity].
  apply save_json_frame. exact Hp.
Qed.


Section WriterMore.

Variable NetCDFReader : text -> result Reader.
Variable TileSet_get_tiles :
  list Z -> text -> list Z -> ndarray -> result (list (ndarray * list text)).
Variable TileSet_generate_url_template :
  list Z -> text -> text -> list text -> text.
Variable TileSet_create_tileset : list Z -> text -> list Z -> pyobj.

(** One turn of the range loop writes nothing; it returns or raises, and
    in tiled mode it raises. *)
Lemma construct_range_body_world :
  forall self v w,
    (exists r, construct_range_body TileSet_get_tiles
                 TileSet_generate_url_template TileSet_create_tileset self v w
               = (Ok (Return r), w) /\ tiled self = false)
    \/ exists e, construct_range_body TileSet_get_tiles
                   TileSet_generate_url_template TileSet_create_tileset self v w
                 = (Raise e, w).
Proof.
  intros self v w. unfold construct_range_body, bind, lift, ret.
  destruct (get_axis (reader self) v) as [names|e];
    [|right; exists e; reflexivity].
  destruct (tiled self).
  - right. eexists. reflexivity.
  - destruct (get_shape (reader self) v) as [shp|e];
      [|right; exists e; reflexivity].
    destruct (get_values (reader self) v) as [vals|e];
      [|right; exists e; reflexivity].
    destruct (get_type (reader self) v) as [dt|e];
      [|right; exists e; reflexivity].
    left. eexists. split; reflexivity.
Qed.

(** The range construction writes nothing, and raises in tiled mode
    unless there is no variable. *)
Lemma construct_range_world :
  forall self w,
    (exists r, Writer__construct_range TileSet_get_tiles
                 TileSet_generate_url_template TileSet_create_tileset self w
               = (Ok r, w) /\ (tiled self = false \/ vars_to_write self = []))
    \/ exists e, Writer__construct_range TileSet_get_tiles
                   TileSet_generate_url_template TileSet_create_tileset self w
                 = (Raise e, w).
Proof.
  intros self w. unfold Writer__construct_range.
  destruct (vars_to_write self) as [|v rest].
  - left. exists None. split; [reflexivity | right; reflexivity].
  - cbn [for_each]. unfold bind.
    destruct (construct_range_body_world self v w) as [[r [Hr Ht]] | [e He]].
    + rewrite Hr. left. exists (Some r). split; [reflexivity | left; exact Ht].
    + rewrite He. right. exists e. reflexivity.
Qed.

(** Building the coverage writes nothing, and raises in tiled mode. *)
Lemma construct_coverage_world :
  forall self w,
    (exists c, Writer__construct_coverage TileSet_get_tiles
                 TileSet_generate_url_template TileSet_create_tileset self w
               = (Ok c, w) /\ tiled self = false)
    \/ exists e, Writer__construct_coverage TileSet_get_tiles
                   TileSet_generate_url_template TileSet_create_tileset self w
                 = (Raise e, w).
Proof.
  intros self w. unfold Writer__construct_coverage, bind, lift, ret, raise.
  destruct (Writer__construct_domain self) as [d|e];
    [|right; exists e; reflexivity].
  destruct (construct_range_world self w) as [[r [Hr Ht]] | [e He]].
  - rewrite Hr.
    destruct (Writer__construct_params self) as [p|e] eqn:Ep;
      [|right; exists e; reflexivity].
    destruct r as [r|]; [|right; eexists; reflexivity].
    destruct Ht as [Ht | Hv].
    + left. eexists. split; [reflexivity | exact Ht].
    + exfalso. unfold Writer__construct_params in Ep. rewrite Hv in Ep.
      discriminate Ep.
  - rewrite He. right. exists e. reflexivity.
Qed.

(** X1: in tiled mode [write] always raises and leaves the world as it
    was: no coverage, no tile and no empty file is written, whatever the
    data source answers. *)
Theorem tiled_write_always_raises :
  forall self w,
    tiled self = true ->
    exists e,
      Writer_write TileSet_get_tiles TileSet_generate_url_template
        TileSet_create_tileset self w = (Raise e, w).
Proof.
  intros self w Ht. unfold Writer_write, bind.
  destruct (construct_coverage_world self w) as [[c [Hc Hf]] | [e He]].
  - rewrite Ht in Hf. discriminate Hf.
  - rewrite He. exists e. reflexivity.
Qed.


(** X2: [write] touches no file but the one named [output_name]: every
    other path holds afterwards what it held before, whether [write]
    returns or raises. *)
Theorem write_touches_only_output :
  forall self w p,
    text_eqb (output_name self) p = false ->
    dict_get (files (snd (Writer_write TileSet_get_tiles
                            TileSet_generate_url_template
                            TileSet_create_tileset self w))) p
    = dict_get (files w) p.
Proof.
  intros self w p Hp. unfold Writer_write, bind.
  destruct (construct_coverage_world self w) as [[c [Hc Hf]] | [e He]].
  - rewrite Hc, Hf. apply save_covjson_frame. exact Hp.
  - rewrite He. reflexivity.
Qed.

(** X3: [write] reads six attributes of the writer only: the output
    name, the tiling flag, the variables, the reader, the axis list and
    the reference list.  The endpoint URL, the JSON-LD flag, the tile
    shape, the URL template, the range type, the dataset path and the axis
    dictionary have no influence on what it returns or writes. *)
Theorem write_reads_six_attributes :
  forall self self' w,
    output_name self = output_name self' ->
    tiled self = tiled self' ->
    vars_to_write self = vars_to_write self' ->
    reader self = reader self' ->
    axis_list self = axis_list self' ->
    ref_list self = ref_list self' ->
    Writer_write TileSet_get_tiles TileSet_generate_url_template
      TileSet_create_tileset self w
    = Writer_write TileSet_get_tiles TileSet_generate_url_template
        TileSet_create_tileset self' w.
Proof.
  intros self self' w Ho Ht Hv Hr Ha Hf.
  assert (Hb : forall v w0,
             construct_range_body TileSet_get_tiles TileSet_generate_url_template
               TileSet_create_tileset self v w0
             = construct_range_body TileSet_get_tiles
                 TileSet_generate_url_template TileSet_create_tileset self' v w0).
  { intros v w0. unfold construct_range_body, bind, lift, ret.
    rewrite <- Hr, <- Ht.
    destruct (get_axis (reader self) v) as [names|e]; [|reflexivity].
    destruct (tiled self); reflexivity. }
  assert (Hp : forall vars acc,
             construct_params_loop self acc vars
             = construct_params_loop self' acc vars).
  { induction vars as [|v vars IH]; intros acc; [reflexivity|].
    cbn [construct_params_loop]. unfold construct_params_body.
    rewrite <- Hr.
    match goal with |- rbind ?m _ = rbind ?m _ => destruct m as [p|e] end;
      cbn [rbind]; [apply IH | reflexivity]. }
  unfold Writer_write, Writer__construct_coverage, Writer__construct_range,
    Writer__construct_params, Writer__construct_domain, Writer__construct_refs.
  rewrite <- Ho, <- Ht, <- Hv, <- Hr, <- Ha, <- Hf, <- Hp.
  unfold bind, lift.
  rewrite (for_each_ext _ _ _ _ (vars_to_write self) w Hb).
  reflexivity.
Qed.


(** X4: on a data source that has the axis [z] and no axis [t] the
    constructor builds an empty reference list: none of its three cases
    applies, so the coverage gets no reference system at all. *)
Theorem ref_list_empty_for_z_without_t :
  forall out path vars url is_tiled tshape ld rd ad,
    NetCDFReader path = Ok rd ->
    get_axes rd = Ok ad ->
    contains (dict_keys ad) (str "t") = false ->
    contains (dict_keys ad) (str "z") = true ->
    exists w,
      Writer_init NetCDFReader out path vars url is_tiled tshape ld = Ok w /\
      ref_list w = [] /\
      Writer__construct_refs w = {| obj_list := [] |}.
Proof.
  intros out path vars url is_tiled tshape ld rd ad Hrd Had Ht Hz.
  unfold Writer_init. rewrite Hrd. cbn [rbind]. rewrite Had. cbn [rbind].
  eexists. split; [reflexivity|].
  unfold Writer__construct_refs. cbn [ref_list]. rewrite Ht, Hz.
  split; reflexivity.
Qed.

(** X5: [_construct_domain] always reads the x and y coordinates, and
    reads the t and z coordinates only when the axis list names them; an
    axis that is not named is left empty without its accessor being
    asked, and the domain type is always [Grid]. *)
Theorem construct_domain_reads_named_axes :
  forall self d,
    Writer__construct_domain self = Ok d <->
    exists xs ys,
      get_x (reader self) = Ok xs /\
      get_y (reader self) = Ok ys /\
      (if contains (axis_list self) (str "t")
       then get_t (reader self) = Ok (t_values d)
       else t_values d = []) /\
      (if contains (axis_list self) (str "z")
       then exists zs, get_z (reader self) = Ok zs /\
                       z_values d = flatten_tolist zs
       else z_values d = []) /\
      domain_type d = str "Grid" /\
      x_values d = flatten_tolist xs /\
      y_values d = flatten_tolist ys.
Proof.
  intros self d. unfold Writer__construct_domain. split.
  - intros H.
    destruct (get_x (reader self)) as [xs|e]; [|discriminate H].
    destruct (get_y (reader self)) as [ys|e]; [|discriminate H].
    cbn [rbind] in H. exists xs, ys.
    destruct (contains (axis_list self) (str "t")).
    + destruct (get_t (reader self)) as [ts|e]; [|discriminate H].
      cbn [rbind] in H.
      destruct (contains (axis_list self) (str "z")).
      * destruct (get_z (reader self)) as [zs|e]; [|discriminate H].
        cbn [rbind] in H. injection H as <-. cbn.
        repeat split. exists zs. split; reflexivity.
      * cbn [rbind] in H. injection H as <-. cbn. repeat split.
    + cbn [rbind] in H.
      destruct (contains (axis_list self) (str "z")).
      * destruct (get_z (reader self)) as [zs|e]; [|discriminate H].
        cbn [rbind] in H. injection H as <-. cbn.
        repeat split. exists zs. split; reflexivity.
      * cbn [rbind] in H. injection H as <-. cbn. repeat split.
  - intros [xs [ys [Hx [Hy [Ht [Hz [Hd [Hxv Hyv]]]]]]]].
    rewrite Hx, Hy. cbn [rbind]. destruct d as [dt xv yv zv tv].
    cbn [t_values z_values domain_type x_values y_values] in Ht, Hz, Hd, Hxv, Hyv.
    subst dt xv yv.
    destruct (contains (axis_list self) (str "t")).
    + rewrite Ht. cbn [rbind].
      destruct (contains (axis_list self) (str "z")).
      * destruct Hz as [zs [Hz ->]]. rewrite Hz. reflexivity.
      * subst zv. reflexivity.
    + subst tv. cbn [rbind].
      destruct (contains (axis_list self) (str "z")).
      * destruct Hz as [zs [Hz ->]]. rewrite Hz. reflexivity.
      * subst zv. reflexivity.
Qed.

(** X6: [_construct_params] reads the metadata of every variable in
    turn, although it keeps the last one only: when the standard name of
    some variable cannot be read, and the variables before it could be
    processed, the error is raised, wherever the variable stands in the
    list. *)
Theorem construct_params_stops_at_first_failure :
  forall self before v after e,
    vars_to_write self = before ++ v :: after ->
    (forall u, In u before -> exists p, construct_params_body self u = Ok p) ->
    get_std_name (reader self) v = Raise e ->
    Writer__construct_params self = Raise e.
Proof.
  intros self before v after e Hv Hall He.
  unfold Writer__construct_params. rewrite Hv.
  assert (Hl : forall acc,
             construct_params_loop self acc (before ++ v :: after) = Raise e).
  { clear Hv. revert Hall.
    induction before as [|u before IH]; intros Hall acc.
    - cbn [List.app construct_params_loop]. unfold construct_params_body.
      rewrite He. reflexivity.
    - rewrite <- app_comm_cons. cbn [construct_params_loop].
      destruct (Hall u (or_introl eq_refl)) as [p Hp]. rewrite Hp. cbn [rbind].
      apply IH. intros u' Hu'. apply Hall. right. exact Hu'. }
  rewrite Hl. reflexivity.
Qed.

End WriterMore.

(* ================================================================== *)
(** * Further properties of the markers *)

Lemma dict_set_keys :
  forall (A : Type) (d : dict A) k v v',
    dict_get d k = Some v -> map fst (dict_set d k v') = map fst d.
Proof.
  intros A d k v v'. induction d as [|[k0 v0] d IH]; intros H; [discriminate H|].
  cbn [dict_get dict_set] in *. destruct (text_eqb k0 k); [reflexivity|].
  cbn [map fst]. f_equal. apply IH. exact H.
Qed.

Lemma wrap_fold_step :
  forall d n a v specs,
    dict_get d n = Some v ->
    wrap_fold (Ok (PDict d)) ((n, a) :: specs)
    = wrap_fold (Ok (PDict (dict_set d n (PCustom v a)))) specs.
Proof.
  intros d n a v specs H. unfold wrap_fold.
  cbn [fold_left fst snd rbind getitem]. rewrite H. reflexivity.
Qed.

(** The loop of [compact] and [no_indent] over names that are all
    present: each named field is wrapped, the others and the order of the
    keys are kept. *)
Lemma wrap_fold_fields :
  forall a names d,
    NoDup names ->
    (forall n, In n names -> dict_get d n <> None) ->
    exists d',
      wrap_fold (Ok (PDict d)) (map (fun n => (n, a)) names) = Ok (PDict d') /\
      map fst d' = map fst d /\
      forall k, dict_get d' k
                = if contains names k
                  then option_map (fun v => PCustom v a) (dict_get d k)
                  else dict_get d k.
Proof.
  intros a names. induction names as [|n names IH]; intros d Hnd Hall.
  - exists d. repeat split.
  - inversion Hnd as [|n' ns Hn Hnd']; subst.
    destruct (dict_get d n) as [v|] eqn:Ev;
      [|exfalso; apply (Hall n (or_introl eq_refl)); exact Ev].
    destruct (IH (dict_set d n (PCustom v a)) Hnd') as [d' [Hw [Hk Hg]]].
    { intros m Hm. rewrite dict_get_set_other.
      - apply Hall. right. exact Hm.
      - apply text_eqb_neq. intros E. subst m. contradiction. }
    exists d'. split; [|split].
    + cbn [map]. rewrite (wrap_fold_step d n a v _ Ev). exact Hw.
    + rewrite Hk. apply (dict_set_keys _ d n v). exact Ev.
    + intros k. rewrite Hg. unfold contains. cbn [existsb].
      destruct (text_eqb k n) eqn:E.
      * apply text_eqb_eq in E. subst k. cbn [orb].
        assert (Hc : existsb (text_eqb n) names = false).
        { destruct (existsb (text_eqb n) names) eqn:Ec; [|reflexivity].
          apply (contains_In names n) in Ec. contradiction. }
        rewrite Hc, dict_get_set_same, Ev. reflexivity.
      * cbn [orb]. rewrite dict_get_set_other; [reflexivity|].
        apply text_eqb_neq. intros E'. subst k.
        rewrite text_eqb_refl in E. discriminate E.
Qed.

(** X7: on a dictionary that has every one of the (pairwise different)
    names, [compact] and [no_indent] return normally; the dictionary keeps
    its keys in their order, each named field holds a [Custom] around its
    former value ([compact] with the separators [','] and [':'],
    [no_indent] with none), and every other field is untouched. *)
Theorem markers_wrap_named_fields :
  forall d names,
    NoDup names ->
    (forall n, In n names -> dict_get d n <> None) ->
    exists dc dn,
      Writer_compact (PDict d) names = Ok (PDict dc) /\
      Writer_no_indent (PDict d) names = Ok (PDict dn) /\
      map fst dc = map fst d /\
      map fst dn = map fst d /\
      forall k,
        dict_get dc k
        = (if contains names k
           then option_map (fun v => PCustom v compact_args) (dict_get d k)
           else dict_get d k) /\
        dict_get dn k
        = (if contains names k
           then option_map (fun v => PCustom v no_indent_args) (dict_get d k)
           else dict_get d k).
Proof.
  intros d names Hnd Hall.
  destruct (wrap_fold_fields compact_args names d Hnd Hall) as [dc [Hc [Hkc Hgc]]].
  destruct (wrap_fold_fields no_indent_args names d Hnd Hall)
    as [dn [Hn [Hkn Hgn]]].
  exists dc, dn. rewrite Writer_compact_wrap, Writer_no_indent_wrap.
  repeat split; try assumption; [apply Hgc | apply Hgn].
Qed.

(** The loop over names that are all present keeps the keys, whether a
    name comes twice or not. *)
Lemma wrap_fold_keys :
  forall specs d,
    (forall s, In s specs -> dict_get d (fst s) <> None) ->
    exists d', wrap_fold (Ok (PDict d)) specs = Ok (PDict d') /\
               map fst d' = map fst d.
Proof.
  induction specs as [|[n a] specs IH]; intros d Hall.
  - exists d. split; reflexivity.
  - destruct (dict_get d n) as [v|] eqn:Ev;
      [|exfalso; apply (Hall (n, a) (or_introl eq_refl)); exact Ev].
    destruct (IH (dict_set d n (PCustom v a))) as [d' [Hw Hk]].
    { intros s Hs. destruct (text_eqb n (fst s)) eqn:E.
      - apply text_eqb_eq in E. rewrite <- E, dict_get_set_same. discriminate.
      - rewrite dict_get_set_other by exact E. apply Hall. right. exact Hs. }
    exists d'. split.
    + rewrite (wrap_fold_step d n a v _ Ev). exact Hw.
    + rewrite Hk. apply (dict_set_keys _ d n v). exact Ev.
Qed.

Lemma dict_get_keys :
  forall (A : Type) (d d' : dict A) k,
    map fst d' = map fst d -> dict_get d k = None -> dict_get d' k = None.
Proof.
  intros A d. induction d as [|[k0 v0] d IH]; intros d' k Hk H.
  - destruct d'; [reflexivity | discriminate Hk].
  - destruct d' as [|[k1 v1] d']; [discriminate Hk|].
    cbn [map fst] in Hk. injection Hk as -> Hk.
    cbn [dict_get] in *. destruct (text_eqb k0 k); [discriminate H|].
    apply IH; assumption.
Qed.

Lemma wrap_fold_missing :
  forall a d before n after,
    (forall m, In m before -> dict_get d m <> None) ->
    dict_get d n = None ->
    wrap_fold (Ok (PDict d)) (map (fun m => (m, a)) (before ++ n :: after))
    = Raise (KeyError n).
Proof.
  intros a d before n after Hall Hn.
  rewrite map_app, <- wrap_fold_app.
  destruct (wrap_fold_keys (map (fun m => (m, a)) before) d) as [d' [Hw Hk]].
  { intros s Hs. apply in_map_iff in Hs. destruct Hs as [m [<- Hm]].
    apply Hall. exact Hm. }
  rewrite Hw. cbn [map]. unfold wrap_fold at 1.
  cbn [fold_left fst snd rbind getitem].
  rewrite (dict_get_keys _ d d' n Hk Hn). cbn [rbind].
  apply wrap_fold_raise.
Qed.

(** X8: when the dictionary lacks one of the names, [compact] and
    [no_indent] raise [KeyError] for the first name that is missing. *)
Theorem markers_raise_on_missing_field :
  forall d before n after,
    (forall m, In m before -> dict_get d m <> None) ->
    dict_get d n = None ->
    Writer_compact (PDict d) (before ++ n :: after) = Raise (KeyError n) /\
    Writer_no_indent (PDict d) (before ++ n :: after) = Raise (KeyError n).
Proof.
  intros d before n after Hall Hn.
  rewrite Writer_compact_wrap, Writer_no_indent_wrap.
  split; apply wrap_fold_missing; assumption.
Qed.

(* ================================================================== *)
(** * Further properties of the encoder *)

(** The base encoder renders the chunks that hold no object for
    [default], and the custom encoder does the same on them without asking
    for a key; any object for [default] makes the base encoder raise. *)
Lemma JSONEncoder_join_outcome :
  forall chunks,
    if dflts chunks =? 0
    then exists t, JSONEncoder_join chunks = Ok t /\
                   forall self w,
                     CustomEncoder_join self chunks w = (Ok (t, self), w)
    else JSONEncoder_join chunks = Raise not_serializable.
Proof.
  induction chunks as [|[t|o] cs IH].
  - cbn. exists []. split; reflexivity.
  - cbn [dflts JSONEncoder_join CustomEncoder_join].
    destruct (dflts cs =? 0).
    + destruct IH as [r [Hr Hc]]. exists (t ++ r). rewrite Hr.
      split; [reflexivity|]. intros self w. unfold bind. rewrite Hc. reflexivity.
    + rewrite IH. reflexivity.
  - reflexivity.
Qed.

Lemma json_dumps_outcome :
  forall v a,
    if markers v =? 0
    then exists r, json_dumps v a = Ok r
    else json_dumps v a = Raise not_serializable.
Proof.
  intros v a. unfold json_dumps, JSONEncoder_encode.
  pose proof (JSONEncoder_join_outcome
                (iterencode (JSONEncoder_init None (separators a)) v 0)) as H.
  rewrite dflts_iterencode in H.
  destruct (markers v =? 0); [|exact H].
  destruct H as [r [Hr _]]. exists r. exact Hr.
Qed.

(** The custom encoder joins the chunks when every one of them can be
    rendered, and raises [TypeError] otherwise. *)
Lemma CustomEncoder_join_outcome :
  forall chunks self w,
    if forallb chunk_renderable chunks
    then exists rs, fst (CustomEncoder_join self chunks w) = Ok rs
    else fst (CustomEncoder_join self chunks w) = Raise not_serializable.
Proof.
  induction chunks as [|[t|o] cs IH]; intros self w.
  - eexists. reflexivity.
  - cbn [forallb chunk_renderable andb CustomEncoder_join]. unfold bind.
    specialize (IH self w).
    destruct (CustomEncoder_join self cs w) as [[rs|e] w1]; cbn [fst] in IH |- *.
    + destruct (forallb chunk_renderable cs); [eexists; reflexivity|].
      discriminate IH.
    + destruct (forallb chunk_renderable cs); [|exact IH].
      destruct IH as [rs H]. discriminate H.
  - cbn [forallb CustomEncoder_join].
    destruct o as [|b|z|f|s|l|d|v a|n]; try reflexivity.
    cbn [chunk_renderable CustomEncoder_default].
    pose proof (json_dumps_outcome v a) as Hd.
    destruct (markers v =? 0).
    + destruct Hd as [r Hr]. cbn [andb].
      rewrite (bind_ok _ _ _ _ _ _ _ (default_marker self v a r w Hr)).
      cbn [fst snd]. unfold bind, ret.
      match goal with |- context [CustomEncoder_join ?s cs ?w1] =>
        specialize (IH s w1);
        destruct (CustomEncoder_join s cs w1) as [[rs|e] w2] end;
        cbn [fst] in IH |- *.
      * destruct (forallb chunk_renderable cs); [eexists; reflexivity|].
        discriminate IH.
      * destruct (forallb chunk_renderable cs); [|exact IH].
        destruct IH as [rs H]. discriminate H.
    + cbn [andb].
      rewrite (bind_raise _ _ _ _ _ _ _ (default_marker_raise self v a _ w Hd)).
      reflexivity.
Qed.

Lemma forallb_join_items :
  forall (P : chunk -> bool) sep items,
    P (Lit sep) = true ->
    forallb P (join_items sep items) = forallb (forallb P) items.
Proof.
  intros P sep items Hsep. induction items as [|x items IH]; [reflexivity|].
  cbn [join_items forallb]. destruct items as [|y items].
  - cbn [forallb]. rewrite andb_true_r. reflexivity.
  - rewrite forallb_app. cbn [forallb]. rewrite Hsep, IH. reflexivity.
Qed.

Lemma forallb_of_map :
  forall (A B : Type) (f : B -> bool) (g : A -> B) l,
    forallb f (map g l) = forallb (fun x => f (g x)) l.
Proof.
  intros A B f g l. induction l as [|x l IH]; [reflexivity|].
  cbn [map forallb]. rewrite IH. reflexivity.
Qed.

Lemma forallb_map_ext :
  forall (A : Type) (f g : A -> bool) l,
    Forall (fun x => f x = g x) l -> forallb f l = forallb g l.
Proof.
  intros A f g l H. induction H as [|x l Hx _ IH]; [reflexivity|].
  cbn [forallb]. rewrite Hx, IH. reflexivity.
Qed.

(** The chunks of a tree can be rendered exactly when the tree can. *)
Lemma renderable_chunks :
  forall o enc level,
    forallb chunk_renderable (iterencode enc o level) = renderable o.
Proof.
  induction o as [|b|z|f|s|l IH|d IH|v a IH|n] using pyobj_ind;
    intros enc level; try reflexivity.
  - destruct b; reflexivity.
  - destruct l as [|x l']; [reflexivity|].
    cbn [iterencode].
    destruct (indent enc) as [wd|]; cbn [forallb chunk_renderable andb];
      rewrite forallb_app, forallb_join_items by reflexivity;
      cbn [forallb chunk_renderable andb]; rewrite andb_true_r;
      rewrite forallb_of_map; apply forallb_map_ext;
      revert IH; apply Forall_impl; intros y Hy; apply Hy.
  - destruct d as [|kv d']; [reflexivity|].
    cbn [iterencode].
    destruct (indent enc) as [wd|]; cbn [forallb chunk_renderable andb];
      rewrite forallb_app, forallb_join_items by reflexivity;
      cbn [forallb chunk_renderable andb]; rewrite andb_true_r;
      rewrite forallb_of_map; apply forallb_map_ext;
      revert IH; apply Forall_impl; intros y Hy;
      cbn [forallb chunk_renderable andb]; apply Hy.
  - cbn [iterencode forallb chunk_renderable renderable]. apply andb_true_r.
Qed.

(** What [json.dumps] with the custom encoder raises is the [TypeError]
    of the base class; it returns exactly on the trees that can be
    rendered. *)
Lemma json_dumps_cls_outcome :
  forall obj kw_indent w,
    if renderable obj
    then exists s, fst (json_dumps_cls obj kw_indent w) = Ok s
    else fst (json_dumps_cls obj kw_indent w) = Raise not_serializable.
Proof.
  intros obj ind w. unfold json_dumps_cls, CustomEncoder_encode.
  pose proof (CustomEncoder_join_outcome
                (iterencode (encoder (CustomEncoder_init ind None)) obj 0)
                (CustomEncoder_init ind None) w) as H.
  rewrite renderable_chunks in H. unfold bind.
  destruct (CustomEncoder_join _ _ w) as [[rs|e] w1]; cbn [fst] in H |- *.
  - destruct (renderable obj); [eexists; reflexivity | discriminate H].
  - destruct (renderable obj); [destruct H as [rs H]; discriminate H|].
    injection H as ->. reflexivity.
Qed.

Lemma save_json_unfold :
  forall obj path kw_indent w,
    Writer_save_json obj path kw_indent w
    = match json_dumps_cls obj kw_indent (snd (file_open path w)) with
      | (Ok s, w1) => file_write path s w1
      | (Raise e, w1) => (Raise e, w1)
      end.
Proof. intros obj path ind w. reflexivity. Qed.


(** X10: [save_json] returns normally exactly on the trees that can be
    rendered: those without a foreign object in which no marker holds
    another marker or a foreign object.  On any other tree it raises
    [TypeError]. *)
Theorem save_json_succeeds_iff_renderable :
  forall obj path kw_indent w,
    (fst (Writer_save_json obj path kw_indent w) = Ok tt <-> renderable obj = true)
    /\ (renderable obj = false ->
        fst (Writer_save_json obj path kw_indent w) = Raise not_serializable).
Proof.
  intros obj path ind w. rewrite save_json_unfold.
  pose proof (json_dumps_cls_outcome obj ind (snd (file_open path w))) as Ho.
  destruct (json_dumps_cls obj ind (snd (file_open path w))) as [[s|e'] w1];
    cbn [fst] in Ho |- *.
  - destruct (renderable obj); [|discriminate Ho].
    split; [split; reflexivity | discriminate].
  - destruct (renderable obj).
    + destruct Ho as [s H]. discriminate H.
    + injection Ho as ->. split; [split; discriminate | reflexivity].
Qed.

(** X11: on a tree without any marker the custom encoder is the base
    encoder: the text is the one [json.dumps] gives without [cls], no key
    is drawn and the world is left as it was. *)
Theorem custom_encoder_without_markers :
  forall obj kw_indent w,
    markers obj = 0 ->
    exists s,
      JSONEncoder_encode (JSONEncoder_init kw_indent None) obj = Ok s /\
      json_dumps_cls obj kw_indent w = (Ok s, w).
Proof.
  intros obj ind w Hm. unfold JSONEncoder_encode, json_dumps_cls, CustomEncoder_encode.
  pose proof (JSONEncoder_join_outcome
                (iterencode (JSONEncoder_init ind None) obj 0)) as H.
  rewrite dflts_iterencode, Hm in H. cbn [Nat.eqb] in H.
  destruct H as [s [Hs Hc]]. exists s. split; [exact Hs|].
  cbn [CustomEncoder_init encoder]. unfold bind. rewrite Hc. reflexivity.
Qed.

(* ================================================================== *)
(** * The rendering of a marked value *)

Lemma oneline_app : forall a b, oneline a -> oneline b -> oneline (a ++ b).
Proof.
  intros a b Ha Hb H. apply in_app_or in H. destruct H; [apply Ha | apply Hb];
    assumption.
Qed.

Lemma escape_char_oneline : forall c, oneline (escape_char c).
Proof.
  intros c. destruct c as [[] [] [] [] [] [] [] []]; cbv; intros H;
    repeat (destruct H as [H | H]; [discriminate H|]); exact H.
Qed.

Lemma string_literal_oneline : forall s, oneline (encode_basestring_ascii s).
Proof.
  intros s. unfold encode_basestring_ascii.
  change (quote :: flat_map escape_char s ++ [quote])
    with ([quote] ++ flat_map escape_char s ++ [quote]).
  apply oneline_app; [intros [H|[]]; discriminate H|].
  apply oneline_app; [|intros [H|[]]; discriminate H].
  induction s as [|c s IH]; [intros []|]. cbn [flat_map].
  apply oneline_app; [apply escape_char_oneline | exact IH].
Qed.

Lemma numchars_oneline : forall t, forallb is_numchar t = true -> oneline t.
Proof.
  intros t H Hin. rewrite forallb_forall in H. specialize (H newline Hin).
  discriminate H.
Qed.

Lemma int_repr_oneline : forall z, oneline (int_repr z).
Proof.
  intros z. apply numchars_oneline.
  destruct (int_repr_start z) as [c [T [E [_ H]]]]. rewrite E. exact H.
Qed.

Lemma chunk_oneline_lit : forall t, oneline t -> chunk_oneline (Lit t).
Proof. intros t H r Hr. cbn in Hr. injection Hr as <-. exact H. Qed.

Lemma list_sum_zero :
  forall (A : Type) (f : A -> nat) l x,
    list_sum (map f l) = 0 -> In x l -> f x = 0.
Proof.
  intros A f l x. unfold list_sum. induction l as [|y l IH]; intros H Hx;
    [destruct Hx|].
  cbn [map fold_right] in H. destruct Hx as [-> | Hx]; [lia|].
  apply IH; [lia | exact Hx].
Qed.

Ltac oneline_const := apply chunk_oneline_lit; cbv; intros H;
  repeat (destruct H as [H | H]; [discriminate H|]); exact H.

(** Without indentation, with separators on one line, a tree without
    markers is encoded on one line: the encoder escapes the line breaks of
    the strings. *)
Lemma chunks_oneline :
  forall v enc level,
    encodable v = true -> markers v = 0 ->
    indent enc = None ->
    oneline (item_separator enc) -> oneline (key_separator enc) ->
    Forall chunk_oneline (iterencode enc v level).
Proof.
  induction v as [|b|z|f|s|l IH|d IH|v a IH|n] using pyobj_ind;
    intros enc level Hok Hm Hind Hi Hk; try discriminate Hm.
  - split_chunks. oneline_const.
  - destruct b; split_chunks; oneline_const.
  - split_chunks. apply chunk_oneline_lit. apply int_repr_oneline.
  - destruct f as [|[]|r]; split_chunks; try oneline_const.
    apply chunk_oneline_lit. apply numchars_oneline.
    apply float_repr_numchars. exact Hok.
  - split_chunks. apply chunk_oneline_lit. apply string_literal_oneline.
  - destruct l as [|x l']; [split_chunks; oneline_const|].
    cbn [iterencode]. rewrite Hind. constructor; [oneline_const|].
    apply Forall_app. split; [|split_chunks; oneline_const].
    apply Forall_join_items; [apply chunk_oneline_lit; exact Hi|].
    apply Forall_forall. intros cs Hcs. apply in_map_iff in Hcs.
    destruct Hcs as [y [<- Hy]]. rewrite Forall_forall in IH.
    apply (IH y Hy); try assumption.
    + cbn [encodable] in Hok. rewrite forallb_forall in Hok. apply Hok. exact Hy.
    + cbn [markers] in Hm. apply (list_sum_zero _ markers _ y Hm Hy).
  - destruct d as [|kv d']; [split_chunks; oneline_const|].
    cbn [iterencode]. rewrite Hind. constructor; [oneline_const|].
    apply Forall_app. split; [|split_chunks; oneline_const].
    apply Forall_join_items; [apply chunk_oneline_lit; exact Hi|].
    apply Forall_forall. intros cs Hcs. apply in_map_iff in Hcs.
    destruct Hcs as [y [<- Hy]]. rewrite Forall_forall in IH.
    constructor; [apply chunk_oneline_lit, string_literal_oneline|].
    constructor; [apply chunk_oneline_lit; exact Hk|].
    apply (IH y Hy); try assumption.
    + cbn [encodable] in Hok. rewrite forallb_forall in Hok. apply Hok. exact Hy.
    + cbn [markers] in Hm.
      apply (list_sum_zero _ (fun kv => markers (snd kv)) _ y Hm Hy).
Qed.

Lemma expand_oneline :
  forall chunks T,
    Forall chunk_oneline chunks -> expand chunks = Ok T -> oneline T.
Proof.
  intros chunks T H. revert T. induction H as [|c chunks Hc _ IH]; intros T HT.
  - cbn in HT. injection HT as <-. intros [].
  - cbn [expand] in HT. destruct (chunk_text c) as [t|e] eqn:Et; [|discriminate HT].
    cbn [rbind] in HT. destruct (expand chunks) as [r|e]; [|discriminate HT].
    cbn in HT. injection HT as <-.
    apply oneline_app; [apply (Hc t Et) | apply IH; reflexivity].
Qed.

(** X12: a value wrapped by [no_indent] or by [compact] is rendered by
    [CustomEncoder.default] on one line, whatever the strings of the value
    hold: [default] puts the rendering under a new key of the replacement
    map and returns the placeholder of the key, and for a JSON value the
    rendering reads back as the value.  The encoding of the dictionary the
    method has returned meets the marker, and in the file [save_json]
    writes for any document whose encoding meets it, the rendering stands
    in the place of the marker, as it is: on one line inside the indented
    document. *)
Theorem marked_value_on_one_line :
  forall wrap a obj name v,
    (wrap = Writer_no_indent /\ a = no_indent_args) \/
    (wrap = Writer_compact /\ a = compact_args) ->
    getitem obj name = Ok v ->
    encodable v = true ->
    markers v = 0 ->
    exists obj' r,
      wrap obj [name] = Ok obj' /\
      getitem obj' name = Ok (PCustom v a) /\
      json_dumps v a = Ok r /\
      (forall self w,
          CustomEncoder_default self (PCustom v a) w
          = (Ok (placeholder (uuid4_hex w (uuid4_calls w)),
                 {| encoder := encoder self;
                    _replacement_map :=
                      dict_set (_replacement_map self)
                        (uuid4_hex w (uuid4_calls w)) r |}),
             after_calls w 1)) /\
      oneline r /\
      (json_ok v = true -> json_loads r = Some v) /\
      (forall chunks T,
          In (Dflt (PCustom v a)) chunks -> expand chunks = Ok T -> occurs r T) /\
      (forall enc level,
          exists cs1 cs2,
            iterencode enc obj' level = cs1 ++ Dflt (PCustom v a) :: cs2) /\
      (forall doc kw_indent path w cs1 cs2,
          encodable doc = true ->
          fresh_keys w doc = true ->
          iterencode (JSONEncoder_init kw_indent None) doc 0
          = cs1 ++ Dflt (PCustom v a) :: cs2 ->
          fst (Writer_save_json doc path kw_indent w) = Ok tt ->
          exists T1 T2,
            expand cs1 = Ok T1 /\ expand cs2 = Ok T2 /\
            dict_get (files (snd (Writer_save_json doc path kw_indent w))) path
            = Some (T1 ++ r ++ T2)).
Proof.
  intros wrap a obj name v Hw Hget Hok Hm.
  destruct obj as [| | | | |  |d| |]; try discriminate Hget.
  cbn [getitem] in Hget.
  destruct (dict_get d name) as [v0|] eqn:Ed; [|discriminate Hget].
  injection Hget as ->.
  set (enc := JSONEncoder_init None (separators a)).
  assert (He : json_dumps v a = expand (iterencode enc v 0)).
  { unfold json_dumps, JSONEncoder_encode. apply join_is_expand.
    rewrite dflts_iterencode. exact Hm. }
  pose proof (json_dumps_outcome v a) as Ho. rewrite Hm in Ho.
  cbn [Nat.eqb] in Ho. destruct Ho as [r Hr].
  exists (PDict (dict_set d name (PCustom v a))), r.
  split; [|split; [|split; [|split; [|split; [|split; [|split; [|split]]]]]]].
  - destruct Hw as [[-> ->] | [-> ->]].
    + unfold Writer_no_indent. cbn [fold_left rbind getitem]. rewrite Ed.
      reflexivity.
    + unfold Writer_compact. cbn [fold_left rbind getitem]. rewrite Ed.
      reflexivity.
  - cbn [getitem]. rewrite dict_get_set_same. reflexivity.
  - exact Hr.
  - intros self w. apply default_marker. exact Hr.
  - apply (expand_oneline (iterencode enc v 0)); [|rewrite <- He; exact Hr].
    subst enc.
    destruct Hw as [[_ ->] | [_ ->]]; apply chunks_oneline; try assumption;
      try reflexivity; cbv; intros H;
      repeat (destruct H as [H | H]; [discriminate H|]); exact H.
  - intros Hj.
    destruct (lexes_value true v (json_ok_marked_ok v Hj) (or_introl eq_refl)
                enc 0) as [T [HT Hl]].
    { apply enc_lexable_args. destruct Hw as [[_ ->] | [_ ->]]; reflexivity. }
    rewrite He, HT in Hr. injection Hr as <-.
    rewrite (loads_lexed T v (json_ok_marked_ok v Hj) Hl).
    rewrite (unmark_json v Hj). reflexivity.
  - intros chunks T Hin HT.
    apply (expand_contains (Dflt (PCustom v a)) chunks T r Hin HT). exact Hr.
  - intros enc0 level.
    apply (marker_in_dict_chunks enc0 level _ name).
    apply dict_get_set_same.
  - intros doc ind path w cs1 cs2 Hwf Hfr Hcs Hrun.
    apply (marker_in_saved_text doc ind path w v a r cs1 cs2); assumption.
Qed.

(* ================================================================== *)
(** * The other save operations *)

Lemma mark_domain_marked :
  forall obj obj1 obj2,
    json_ok obj = true ->
    mark_axes obj = Ok obj1 ->
    mark_referencing obj1 = Ok obj2 ->
    marked_ok obj2 = true /\ unmark obj2 = obj.
Proof.
  intros obj obj1 obj2 Hok H1 H2.
  apply mark_axes_inv in H1.
  destruct H1 as [d [dd [da [da' [-> [Hdom [Hax [Hfa ->]]]]]]]].
  apply mark_referencing_inv in H2.
  destruct H2 as [d1 [dd1 [refs [refs' [E1 [Hdom1 [Href [Hfr ->]]]]]]]].
  injection E1 as <-. rewrite dict_get_set_same in Hdom1. injection Hdom1 as <-.
  rewrite dict_get_set_other in Href by reflexivity.
  rewrite dict_set_set.
  pose proof (json_ok_value d _ _ Hok Hdom) as Hokdd.
  pose proof (json_ok_value dd _ _ Hokdd Hax) as Hokda.
  pose proof (json_ok_value dd _ _ Hokdd Href) as Hokrefs.
  destruct (for_values_marked _ da da' compact_values_marked Hokda Hfa) as [Ma Ua].
  destruct (rmap_marked _ refs refs' no_indent_coordinates_marked Hokrefs Hfr)
    as [Mr Ur].
  destruct (marked_set dd (str "axes") (PDict da) (PDict da')
              (json_ok_marked_ok _ Hokdd) Hax Ma) as [Mdd1 Udd1].
  { rewrite Ua. symmetry. apply unmark_json. exact Hokda. }
  destruct (marked_set (dict_set dd (str "axes") (PDict da')) (str "referencing")
              (PList refs) (PList refs') Mdd1) as [Mdd2 Udd2].
  { rewrite dict_get_set_other by reflexivity. exact Href. }
  { exact Mr. }
  { rewrite Ur. symmetry. apply unmark_json. exact Hokrefs. }
  destruct (marked_set d (str "domain") (PDict dd)
              (PDict (dict_set (dict_set dd (str "axes") (PDict da'))
                        (str "referencing") (PList refs')))
              (json_ok_marked_ok _ Hok) Hdom Mdd2) as [Md1 Ud1].
  { rewrite Udd2, Udd1. reflexivity. }
  split; [exact Md1|].
  exact (eq_trans Ud1 (unmark_json _ Hok)).
Qed.

Lemma mark_ranges_marked :
  forall obj obj1,
    json_ok obj = true ->
    mark_ranges obj = Ok obj1 ->
    marked_ok obj1 = true /\ unmark obj1 = obj.
Proof.
  intros obj obj1 Hok H.
  apply mark_ranges_inv in H.
  destruct H as [d [dr [dr' [-> [Hrg [Hfg ->]]]]]].
  pose proof (json_ok_value d _ _ Hok Hrg) as Hokdr.
  destruct (for_values_marked _ dr dr' range_marked Hokdr Hfg) as [Mg Ug].
  destruct (marked_set d (str "ranges") (PDict dr) (PDict dr')
              (json_ok_marked_ok _ Hok) Hrg Mg) as [Md Ud].
  { rewrite Ug. symmetry. apply unmark_json. exact Hokdr. }
  split; [exact Md|].
  exact (eq_trans Ud (unmark_json _ Hok)).
Qed.

Lemma domain_can_be_marked :
  forall obj, has_domain obj = true -> exists marked, mark_domain obj = Ok marked.
Proof.
  intros obj H. unfold has_domain in H.
  destruct obj as [| | | | |  |d| |]; try discriminate H.
  destruct (dict_get d (str "domain")) as [[| | | | |  |dd| |]|] eqn:Edom;
    try discriminate H.
  destruct (dict_get dd (str "axes")) as [[| | | | |  |da| |]|] eqn:Eax;
    try discriminate H.
  destruct (dict_get dd (str "referencing")) as [[| | | | |refs| | |]|] eqn:Eref;
    try discriminate H.
  apply andb_true_iff in H. destruct H as [Hda Hrefs].
  rewrite forallb_forall in Hda, Hrefs.
  destruct (for_values_total
              (fun axis => Writer_compact axis [str "values"]) da) as [da' Hda'].
  { intros kv Hkv. rewrite Writer_compact_wrap. apply wrap_fold_total.
    apply (Hda kv Hkv). }
  destruct (rmap_total _ _
              (fun ref => Writer_no_indent ref [str "coordinates"]) refs)
    as [refs' Hrefs'].
  { intros x Hx. rewrite Writer_no_indent_wrap. apply wrap_fold_total.
    apply (Hrefs x Hx). }
  eexists. unfold mark_domain, mark_axes, mark_referencing.
  cbn [getitem]. rewrite Edom. cbn [rbind getitem]. rewrite Eax.
  cbn [rbind values_of]. rewrite Hda'. cbn [rbind setitem getitem].
  rewrite dict_get_set_same. cbn [rbind getitem].
  rewrite dict_get_set_other by reflexivity. rewrite Eref.
  cbn [rbind iter_list]. rewrite Hrefs'. cbn [rbind setitem]. reflexivity.
Qed.

Lemma ranges_can_be_marked :
  forall obj, has_ranges obj = true -> exists marked, mark_ranges obj = Ok marked.
Proof.
  intros obj H. unfold has_ranges in H.
  destruct obj as [| | | | |  |d| |]; try discriminate H.
  destruct (dict_get d (str "ranges")) as [[| | | | |  |dr| |]|] eqn:Erg;
    try discriminate H.
  rewrite forallb_forall in H.
  destruct (for_values_total
              (fun covrange =>
                 rbind (Writer_no_indent covrange [str "axisNames"; str "shape"])
                       (fun r => Writer_compact r [str "values"])) dr)
    as [dr' Hdr'].
  { intros kv Hkv. rewrite Writer_no_indent_wrap.
    rewrite (wrap_fold_bind_ext _ _ [(str "values", compact_args)])
      by (intros r; apply Writer_compact_wrap).
    rewrite wrap_fold_app. apply wrap_fold_total. apply (H kv Hkv). }
  eexists. unfold mark_ranges. cbn [getitem]. rewrite Erg.
  cbn [rbind values_of]. rewrite Hdr'. cbn [rbind setitem]. reflexivity.
Qed.

Lemma save_covjson_tiled_unfold :
  forall obj path w,
    Writer_save_covjson_tiled obj path w
    = match mark_domain obj with
      | Ok marked => Writer_save_json marked path (Some 2) w
      | Raise e => (Raise e, w)
      end.
Proof.
  intros obj path w. unfold Writer_save_covjson_tiled, mark_domain, bind, lift.
  destruct (mark_axes obj) as [o1|e]; [|reflexivity]. cbn [rbind].
  destruct (mark_referencing o1) as [o2|e]; reflexivity.
Qed.

Lemma save_covjson_range_unfold :
  forall obj path w,
    Writer_save_covjson_range obj path w
    = match mark_ranges obj with
      | Ok marked => Writer_save_json marked path (Some 2) w
      | Raise e => (Raise e, w)
      end.
Proof.
  intros obj path w. unfold Writer_save_covjson_range, bind, lift.
  destruct (mark_ranges obj) as [o1|e]; reflexivity.
Qed.

(** A marked form of a JSON value is written as JSON for the value. *)
Lemma save_marked_round_trip :
  forall obj marked path w,
    marked_ok marked = true ->
    unmark marked = obj ->
    fresh_keys w marked = true ->
    exists T,
      fst (Writer_save_json marked path (Some 2) w) = Ok tt /\
      dict_get (files (snd (Writer_save_json marked path (Some 2) w))) path
      = Some T /\
      json_loads T = Some obj.
Proof.
  intros obj marked path w Hmo Hu Hfr.
  destruct (mixed_dumps_loads marked (Some 2) Hmo) as [T [HT Hl]].
  destruct (save_json_spec marked path (Some 2) w
              (marked_ok_encodable marked Hmo) Hfr) as [R F].
  exists T. rewrite R, F, HT.
  split; [reflexivity|]. split; [apply dict_get_set_same|].
  rewrite Hl, Hu. reflexivity.
Qed.

(** X13: [save_covjson_tiled] on a mapping whose domain has the shape
    it walks through, made of JSON values, with fresh unique keys: it
    returns normally and the text it leaves in the file is JSON that reads
    back as the mapping before it was marked.  The mapping needs no
    [ranges] entry, and the ranges it has are written as they are. *)
Theorem save_covjson_tiled_round_trip :
  forall obj path w,
    has_domain obj = true ->
    json_ok obj = true ->
    marks_fresh mark_domain w obj = true ->
    exists T,
      fst (Writer_save_covjson_tiled obj path w) = Ok tt /\
      dict_get (files (snd (Writer_save_covjson_tiled obj path w))) path = Some T /\
      json_loads T = Some obj.
Proof.
  intros obj path w Hd Hok Hfr.
  destruct (domain_can_be_marked obj Hd) as [marked Hm].
  unfold marks_fresh in Hfr. rewrite Hm in Hfr.
  rewrite save_covjson_tiled_unfold, Hm.
  unfold mark_domain in Hm.
  destruct (mark_axes obj) as [o1|e] eqn:E1; [|discriminate Hm].
  cbn [rbind] in Hm.
  destruct (mark_domain_marked obj o1 marked Hok E1 Hm) as [Hmo Hu].
  apply save_marked_round_trip; assumption.
Qed.

(** X14: [save_covjson_range] on a mapping whose [ranges] have the
    fields it wraps, made of JSON values, with fresh unique keys: it
    returns normally and the text it leaves in the file is JSON that reads
    back as the mapping before it was marked. *)
Theorem save_covjson_range_round_trip :
  forall obj path w,
    has_ranges obj = true ->
    json_ok obj = true ->
    marks_fresh mark_ranges w obj = true ->
    exists T,
      fst (Writer_save_covjson_range obj path w) = Ok tt /\
      dict_get (files (snd (Writer_save_covjson_range obj path w))) path = Some T /\
      json_loads T = Some obj.
Proof.
  intros obj path w Hd Hok Hfr.
  destruct (ranges_can_be_marked obj Hd) as [marked Hm].
  unfold marks_fresh in Hfr. rewrite Hm in Hfr.
  rewrite save_covjson_range_unfold, Hm.
  destruct (mark_ranges_marked obj marked Hok Hm) as [Hmo Hu].
  apply save_marked_round_trip; assumption.
Qed.

(** X15: a mapping that lacks the entry a save operation starts from is
    refused before the file is opened: [_save_covjson] and
    [save_covjson_tiled] raise [KeyError] for [domain], [save_covjson_range]
    and, once the domain is marked, [_save_covjson] raise [KeyError] for
    [ranges]; the world is left as it was, no empty file appears. *)
Theorem save_refuses_missing_entry :
  forall d path w,
    (dict_get d (str "domain") = None ->
     Writer__save_covjson (PDict d) path w = (Raise (KeyError (str "domain")), w) /\
     Writer_save_covjson_tiled (PDict d) path w
     = (Raise (KeyError (str "domain")), w)) /\
    (dict_get d (str "ranges") = None ->
     Writer_save_covjson_range (PDict d) path w
     = (Raise (KeyError (str "ranges")), w) /\
     (has_domain (PDict d) = true ->
      Writer__save_covjson (PDict d) path w
      = (Raise (KeyError (str "ranges")), w))).
Proof.
  intros d path w. split.
  - intros H. rewrite save_covjson_unfold, save_covjson_tiled_unfold.
    unfold mark_covjson, mark_domain, mark_axes. cbn [getitem]. rewrite H.
    split; reflexivity.
  - intros H. split.
    + rewrite save_covjson_range_unfold. unfold mark_ranges. cbn [getitem].
      rewrite H. reflexivity.
    + intros Hd. rewrite save_covjson_unfold.
      destruct (domain_can_be_marked _ Hd) as [m Hm].
      unfold mark_domain in Hm. unfold mark_covjson.
      destruct (mark_axes (PDict d)) as [o1|e] eqn:E1; [|discriminate Hm].
      cbn [rbind] in Hm |- *. rewrite Hm. cbn [rbind].
      apply mark_axes_inv in E1.
      destruct E1 as [d0 [dd [da [da' [E0 [Hdom [_ [_ ->]]]]]]]].
      injection E0 as <-.
      apply mark_referencing_inv in Hm.
      destruct Hm as [d1 [dd1 [refs [refs' [E1 [_ [_ [_ ->]]]]]]]].
      injection E1 as <-.
      unfold mark_ranges. cbn [getitem].
      rewrite !dict_get_set_other by reflexivity. rewrite H. reflexivity.
Qed.

(* ================================================================== *)
(** * A string that looks like a placeholder *)

(** X16: the placeholders are told from the data by their text alone: a
    string of the document that equals the placeholder of a key the
    generator hands out is replaced by the rendering of the marked value,
    as the marker itself is.  This is why the keys have to be fresh. *)
Theorem placeholder_string_is_replaced :
  forall v a r path w k,
    k = uuid4_hex w (uuid4_calls w) ->
    is_uuid_hex k = true ->
    json_dumps v a = Ok r ->
    fst (Writer_save_json (PList [PStr (placeholder k); PCustom v a]) path
           (Some 2) w) = Ok tt /\
    dict_get (files (snd (Writer_save_json
                            (PList [PStr (placeholder k); PCustom v a]) path
                            (Some 2) w))) path
    = Some (str "[" ++ newline_indent 2 1 ++ r ++ str ","
            ++ newline_indent 2 1 ++ r ++ newline_indent 2 0 ++ str "]").
Proof.
  intros v a r path w k Hk Hu Hr.
  rewrite save_json_unfold.
  set (w0 := snd (file_open path w)).
  assert (Hk0 : k = uuid4_hex w0 (uuid4_calls w0)) by exact Hk.
  assert (He : json_dumps_cls (PList [PStr (placeholder k); PCustom v a])
                 (Some 2) w0
               = (Ok (str "[" ++ newline_indent 2 1 ++ r ++ str ","
                      ++ newline_indent 2 1 ++ r ++ newline_indent 2 0
                      ++ str "]"), after_calls w0 1)).
  { unfold json_dumps_cls, CustomEncoder_encode.
    cbn [CustomEncoder_init encoder JSONEncoder_init iterencode indent
         item_separator key_separator map join_items List.app].
    cbn [CustomEncoder_join]. unfold bind.
    rewrite (default_marker _ v a r w0 Hr). rewrite <- Hk0.
    unfold ret. cbn [fst snd _replacement_map dict_set fold_left].
    rewrite (escape_placeholder k Hu).
    f_equal. f_equal.
    cbn [CustomEncoder_init _replacement_map dict_set fold_left fst snd Nat.add].
    rewrite str_replace_quoted. unfold quoted_placeholder.
    change (quote :: placeholder k ++ [quote]) with (quoted (placeholder k)).
    pose proof (placeholder_like_uuid k Hu) as HW.
    rewrite (replace_hit (placeholder k) HW r ("["%char :: newline_indent 2 1)).
    - rewrite (replace_hit (placeholder k) HW r (str "," ++ newline_indent 2 1)).
      + rewrite replace_none; [rewrite List.app_nil_r; reflexivity|].
        apply safe_occ. apply safe_at_free; [exact HW|].
        cbv. intros H.
        repeat (destruct H as [H | H]; [discriminate H|]); exact H.
      + apply safe_at_free; [exact HW|]. cbv. intros H.
        repeat (destruct H as [H | H]; [discriminate H|]); exact H.
    - apply safe_at_free; [exact HW|]. cbv. intros H.
      repeat (destruct H as [H | H]; [discriminate H|]); exact H. }
  rewrite He. unfold file_write. cbn [fst snd files after_calls].
  split; [reflexivity|]. rewrite dict_get_set_same.
  subst w0. cbn [file_open snd files]. rewrite dict_get_set_same. reflexivity.
Qed.

(* ================================================================== *)
(** * From the data source to the file *)

Section WriterEndToEnd.

Variable TileSet_get_tiles :
  list Z -> text -> list Z -> ndarray -> result (list (ndarray * list text)).
Variable TileSet_generate_url_template :
  list Z -> text -> text -> list text -> text.
Variable TileSet_create_tileset : list Z -> text -> list Z -> pyobj.

(** Without tiling, [write] saves the coverage of the first variable. *)
Lemma write_nontiled_unfold :
  forall self first rest w names shp vals dt dom par,
    tiled self = false ->
    vars_to_write self = first :: rest ->
    get_axis (reader self) first = Ok names ->
    get_shape (reader self) first = Ok shp ->
    get_values (reader self) first = Ok vals ->
    get_type (reader self) first = Ok dt ->
    Writer__construct_domain self = Ok dom ->
    Writer__construct_params self = Ok par ->
    Writer_write TileSet_get_tiles TileSet_generate_url_template
      TileSet_create_tileset self w
    = Writer__save_covjson
        (Coverage_to_dict dom
           {| range_range_type := str "NdArray";
              data_type := dt;
              axes := map str_lower names;
              shape := shp;
              values := flatten_tolist vals;
              range_variable_name := first;
              tile_sets := PList [] |}
           par (Writer__construct_refs self))
        (output_name self) w.
Proof.
  intros self first rest w names shp vals dt dom par
         Ht Hv Ha Hs Hvals Hdt Hdom Hpar.
  unfold Writer_write, Writer__construct_coverage.
  unfold bind at 1. unfold bind at 1. unfold lift at 1. rewrite Hdom.
  unfold bind at 1.
  rewrite (nontiled_range_of_first TileSet_get_tiles
             TileSet_generate_url_template TileSet_create_tileset
             self first rest w names shp vals dt Ht Hv Ha Hs Hvals Hdt).
  unfold bind at 1. unfold lift at 1. rewrite Hpar.
  unfold ret at 1. rewrite Ht. reflexivity.
Qed.

(** X19: from the data source to the file.  Without tiling, when the
    accessors answer for the first variable and the coverage they give is
    made of JSON values, [write] returns normally and leaves in the file
    named [output_name] a JSON text that reads back as that coverage: the
    domain, the range of the first variable, the parameter and the
    references. *)
Theorem write_round_trip :
  forall self first rest w names shp vals dt dom par,
    tiled self = false ->
    vars_to_write self = first :: rest ->
    get_axis (reader self) first = Ok names ->
    get_shape (reader self) first = Ok shp ->
    get_values (reader self) first = Ok vals ->
    get_type (reader self) first = Ok dt ->
    Writer__construct_domain self = Ok dom ->
    Writer__construct_params self = Ok par ->
    json_ok (Coverage_to_dict dom
               {| range_range_type := str "NdArray";
                  data_type := dt;
                  axes := map str_lower names;
                  shape := shp;
                  values := flatten_tolist vals;
                  range_variable_name := first;
                  tile_sets := PList [] |}
               par (Writer__construct_refs self)) = true ->
    covjson_keys_fresh w
      (Coverage_to_dict dom
         {| range_range_type := str "NdArray";
            data_type := dt;
            axes := map str_lower names;
            shape := shp;
            values := flatten_tolist vals;
            range_variable_name := first;
            tile_sets := PList [] |}
         par (Writer__construct_refs self)) = true ->
    exists T,
      fst (Writer_write TileSet_get_tiles TileSet_generate_url_template
             TileSet_create_tileset self w) = Ok tt /\
      dict_get (files (snd (Writer_write TileSet_get_tiles
                              TileSet_generate_url_template
                              TileSet_create_tileset self w)))
               (output_name self) = Some T /\
      json_loads T
      = Some (Coverage_to_dict dom
                {| range_range_type := str "NdArray";
                   data_type := dt;
                   axes := map str_lower names;
                   shape := shp;
                   values := flatten_tolist vals;
                   range_variable_name := first;
                   tile_sets := PList [] |}
                par (Writer__construct_refs self)).
Proof.
  intros self first rest w names shp vals dt dom par
         Ht Hv Ha Hs Hvals Hdt Hdom Hpar Hok Hfr.
  rewrite (write_nontiled_unfold self first rest w names shp vals dt dom par
             Ht Hv Ha Hs Hvals Hdt Hdom Hpar).
  set (cov := Coverage_to_dict _ _ _ _) in *.
  assert (Hcov : is_coverage cov = true).
  { apply Coverage_to_dict_is_coverage. reflexivity. }
  destruct (coverage_can_be_marked cov Hcov) as [marked Hm].
  unfold covjson_keys_fresh in Hfr. rewrite Hm in Hfr.
  destruct (mark_covjson_ok cov marked Hok Hm) as [Hmo Hu].
  rewrite save_covjson_unfold, Hm.
  apply save_marked_round_trip; assumption.
Qed.

(** The parameter the loop ends with carries the name of the last
    variable. *)
Lemma construct_params_loop_name :
  forall self vars last acc p,
    construct_params_loop self acc (vars ++ [last]) = Ok (Some p) ->
    param_variable_name p = last.
Proof.
  intros self vars last. induction vars as [|v vars IH]; intros acc p H.
  - cbn [List.app construct_params_loop] in H.
    unfold construct_params_body in H.
    destruct (get_std_name (reader self) last); [|discriminate H].
    destruct (get_units (reader self) last); [|discriminate H].
    cbn [rbind] in H.
    destruct (dataset (reader self) last) as [da|]; [|discriminate H].
    cbn [rbind] in H.
    destruct (da_units da); [|discriminate H]. cbn [rbind] in H.
    destruct (da_long_name da); [|discriminate H]. cbn [rbind] in H.
    injection H as <-. reflexivity.
  - rewrite <- app_comm_cons in H. cbn [construct_params_loop] in H.
    destruct (construct_params_body self v) as [q|e]; [|discriminate H].
    cbn [rbind] in H. apply (IH (Some q) p H).
Qed.

(** X20: with two or more variables and no tiling, the coverage
    [_construct_coverage] builds puts together the range of the first
    variable and the parameter of the last one: the range loop returns in
    its first turn, the parameter loop keeps its last turn. *)
Theorem coverage_joins_first_range_and_last_parameter :
  forall self first middle last w names shp vals dt dom par,
    tiled self = false ->
    vars_to_write self = first :: middle ++ [last] ->
    get_axis (reader self) first = Ok names ->
    get_shape (reader self) first = Ok shp ->
    get_values (reader self) first = Ok vals ->
    get_type (reader self) first = Ok dt ->
    Writer__construct_domain self = Ok dom ->
    Writer__construct_params self = Ok par ->
    Writer__construct_coverage TileSet_get_tiles TileSet_generate_url_template
      TileSet_create_tileset self w
    = (Ok (Coverage_to_dict dom
             {| range_range_type := str "NdArray";
                data_type := dt;
                axes := map str_lower names;
                shape := shp;
                values := flatten_tolist vals;
                range_variable_name := first;
                tile_sets := PList [] |}
             par (Writer__construct_refs self)), w) /\
    param_variable_name par = last.
Proof.
  intros self first middle last w names shp vals dt dom par
         Ht Hv Ha Hs Hvals Hdt Hdom Hpar.
  split.
  - unfold Writer__construct_coverage.
    unfold bind at 1. unfold lift at 1. rewrite Hdom.
    unfold bind at 1.
    rewrite (nontiled_range_of_first TileSet_get_tiles
               TileSet_generate_url_template TileSet_create_tileset
               self first (middle ++ [last]) w names shp vals dt
               Ht Hv Ha Hs Hvals Hdt).
    unfold bind, lift. rewrite Hpar. reflexivity.
  - unfold Writer__construct_params in Hpar. rewrite Hv in Hpar.
    destruct (construct_params_loop self None (first :: middle ++ [last]))
      as [[p|]|e] eqn:El; try discriminate Hpar.
    cbn [rbind] in Hpar. injection Hpar as <-.
    apply (construct_params_loop_name self (first :: middle) last None p).
    exact El.
Qed.

End WriterEndToEnd.

(* ================================================================== *)
(** * The statements on sample data *)

(** The constructor on a data source with the axes x, y and t. *)
Lemma ref_list_follows_axes_witness :
  demo_open ["x"; "y"; "t"]%string [2; 2]%Z demo_values (str "data.nc")
  = Ok (demo_reader ["x"; "y"; "t"]%string [2; 2]%Z demo_values) /\
  get_axes (demo_reader ["x"; "y"; "t"]%string [2; 2]%Z demo_values)
  = Ok [(str "x", PNone); (str "y", PNone); (str "t", PNone)] /\
  exists w,
    demo_writer ["x"; "y"; "t"]%string [2; 2]%Z [str "ab"; str "cde"] false false
    = Ok w /\
    ref_list w = [TemporalReferenceSystem; SpatialReferenceSystem2d].
Proof.
  split; [reflexivity|]. split; [reflexivity|].
  destruct (ref_list_follows_axes
              (demo_open ["x"; "y"; "t"]%string [2; 2]%Z demo_values)
              (str "out.covjson") (str "data.nc") [str "ab"; str "cde"] None
              false [2; 2]%Z false
              (demo_reader ["x"; "y"; "t"]%string [2; 2]%Z demo_values)
              [(str "x", PNone); (str "y", PNone); (str "t", PNone)]
              eq_refl eq_refl) as [w [Hw [_ [_ [H2 _]]]]].
  exists w. split; [exact Hw|]. apply H2; reflexivity.
Defined.

(** Two variables: the parameter is the one of the second. *)
Lemma construct_params_returns_last_witness :
  vars_to_write (demo_self ["x"; "y"; "t"]%string [2; 2]%Z [str "ab"; str "cde"]
                   false false)
  = [str "ab"] ++ [str "cde"] /\
  Writer__construct_params
    (demo_self ["x"; "y"; "t"]%string [2; 2]%Z [str "ab"; str "cde"] false false)
  = Ok {| description := PStr (str "standard name of cde");
          param_variable_name := str "cde";
          symbol := PText "K";
          unit_ := PText "kelvin";
          observed_property := PText "air temperature" |}.
Proof.
  split; [reflexivity|].
  apply (construct_params_returns_last
           (demo_self ["x"; "y"; "t"]%string [2; 2]%Z [str "ab"; str "cde"]
              false false)
           [str "ab"] (str "cde") (PStr (str "standard name of cde"))
           (PText "kelvin") (demo_variable (demo_values (str "cde")))
           (PText "K") (PText "air temperature")).
  - reflexivity.
  - intros v Hv. eexists. reflexivity.
  - reflexivity.
  - reflexivity.
  - reflexivity.
  - reflexivity.
  - reflexivity.
Defined.

(** No variable: [write] raises and leaves the world as it was. *)
Lemma write_without_variables_raises_witness :
  vars_to_write (demo_self ["x"; "y"]%string [2; 2]%Z [] false false) = [] /\
  Writer_write demo_get_tiles demo_url_template demo_tileset
    (demo_self ["x"; "y"]%string [2; 2]%Z [] false false) demo_world
  = (Raise (UnboundLocalError "params"), demo_world).
Proof.
  split; [reflexivity|].
  destruct (write_without_variables_raises demo_get_tiles demo_url_template
              demo_tileset
              (demo_self ["x"; "y"]%string [2; 2]%Z [] false false)
              demo_world eq_refl) as [e [Hw He]].
  rewrite Hw. f_equal. f_equal. eapply He. reflexivity.
Defined.

(** A tiled writer on an array of three tiles writes none of them. *)
Lemma tiled_range_writes_no_tile_witness :
  tiled (demo_self ["x"; "y"; "t"]%string [2; 2]%Z [str "cde"] true false) = true /\
  vars_to_write (demo_self ["x"; "y"; "t"]%string [2; 2]%Z [str "cde"] true false)
  = [str "cde"] /\
  (exists tiles,
      demo_get_tiles [2; 2]%Z (str "localhost:8080/{t}.covjson") [2; 2]%Z
        (da_values (demo_variable (demo_values (str "cde")))) = Ok tiles /\
      List.length tiles = 3) /\
  Writer__construct_range demo_get_tiles demo_url_template demo_tileset
    (demo_self ["x"; "y"; "t"]%string [2; 2]%Z [str "cde"] true false) demo_world
  = (Raise (AttributeError "urlTemplate"), demo_world).
Proof.
  split; [reflexivity|]. split; [reflexivity|].
  split; [eexists; split; reflexivity|].
  destruct (tiled_range_writes_no_tile demo_get_tiles demo_url_template
              demo_tileset
              (demo_self ["x"; "y"; "t"]%string [2; 2]%Z [str "cde"] true false)
              (str "cde") [] demo_world eq_refl eq_refl) as [e [Hw He]].
  rewrite Hw. f_equal. f_equal. eapply He. reflexivity.
Defined.

(** C4 as stated fails: with the variables [ab] and [cde] the range
    returned is the one of [ab], not the one of the last variable [cde]. *)
Lemma construct_range_is_not_last :
  tiled (demo_self ["x"; "y"]%string [2; 2]%Z [str "ab"; str "cde"] false false)
  = false /\
  last (vars_to_write
          (demo_self ["x"; "y"]%string [2; 2]%Z [str "ab"; str "cde"] false false))
       [] = str "cde" /\
  Writer__construct_range demo_get_tiles demo_url_template demo_tileset
    (demo_self ["x"; "y"]%string [2; 2]%Z [str "ab"; str "cde"] false false)
    demo_world
  = (Ok (Some (demo_range [2; 2]%Z (str "ab"))), demo_world) /\
  demo_range [2; 2]%Z (str "ab") <> demo_range [2; 2]%Z (str "cde").
Proof.
  split; [reflexivity|]. split; [reflexivity|]. split; [reflexivity|].
  intros H. discriminate H.
Qed.

(** Two variables: the range is the one of the first. *)
Lemma construct_range_returns_first_witness :
  tiled (demo_self ["x"; "y"]%string [2; 2]%Z [str "ab"; str "cde"] false false)
  = false /\
  vars_to_write
    (demo_self ["x"; "y"]%string [2; 2]%Z [str "ab"; str "cde"] false false)
  = str "ab" :: str "cde" :: [] /\
  Writer__construct_range demo_get_tiles demo_url_template demo_tileset
    (demo_self ["x"; "y"]%string [2; 2]%Z [str "ab"; str "cde"] false false)
    demo_world
  = (Ok (Some (demo_range [2; 2]%Z (str "ab"))), demo_world).
Proof.
  split; [reflexivity|]. split; [reflexivity|].
  apply (construct_range_returns_first demo_get_tiles demo_url_template
           demo_tileset
           (demo_self ["x"; "y"]%string [2; 2]%Z [str "ab"; str "cde"] false false)
           (str "ab") (str "cde") [] demo_world [str "Y"; str "X"] [2; 2]%Z
           {| nd_shape := [2; 2]%Z; nd_flat := demo_values (str "ab") |}
           (PText "integer")); reflexivity.
Defined.

(** C6 as stated fails: three values under the shape 2 x 2 are written,
    and no error is raised. *)
Lemma write_accepts_shape_mismatch :
  get_shape (reader mismatch_writer) (str "abc") = Ok [2; 2]%Z /\
  rbind (get_values (reader mismatch_writer) (str "abc"))
        (fun a => Ok (List.length (flatten_tolist a))) = Ok 3 /\
  fst (Writer_write demo_get_tiles demo_url_template demo_tileset
         mismatch_writer demo_world) = Ok tt /\
  exists T doc,
    dict_get (files (snd (Writer_write demo_get_tiles demo_url_template
                            demo_tileset mismatch_writer demo_world)))
             (str "out.covjson") = Some T /\
    json_loads T = Some doc /\
    range_field doc (str "abc") (str "shape") = Ok (PList [PInt 2; PInt 2]) /\
    range_field doc (str "abc") (str "values")
    = Ok (PList [PInt 97; PInt 98; PInt 99]).
Proof.
  split; [reflexivity|]. split; [reflexivity|]. split; [vm_compute; reflexivity|].
  eexists. eexists. split; [vm_compute; reflexivity|].
  split; [vm_compute; reflexivity|]. split; vm_compute; reflexivity.
Qed.

(** The coverage of the mismatching variable goes to [_save_covjson] as
    it is. *)
Lemma write_does_not_check_shape_witness :
  tiled mismatch_writer = false /\
  vars_to_write mismatch_writer = str "abc" :: [] /\
  exists dom par,
    Writer__construct_domain mismatch_writer = Ok dom /\
    Writer__construct_params mismatch_writer = Ok par /\
    Writer_write demo_get_tiles demo_url_template demo_tileset
      mismatch_writer demo_world
    = Writer__save_covjson
        (Coverage_to_dict dom (demo_range [2; 2]%Z (str "abc")) par
           (Writer__construct_refs mismatch_writer))
        (str "out.covjson") demo_world.
Proof.
  split; [reflexivity|]. split; [reflexivity|].
  eexists. eexists. split; [reflexivity|]. split; [reflexivity|].
  apply (write_does_not_check_shape demo_get_tiles demo_url_template
           demo_tileset mismatch_writer (str "abc") [] demo_world
           [str "Y"; str "X"] [2; 2]%Z
           {| nd_shape := [2; 2]%Z; nd_flat := demo_values (str "abc") |}
           (PText "integer")); reflexivity.
Defined.

(** C1 as stated fails: a coverage whose values hold a NaN is written
    with the token [NaN], and the text is not JSON. *)
Lemma nan_coverage_is_not_json :
  is_coverage (demo_coverage nan_values) = true /\
  covjson_keys_fresh demo_world (demo_coverage nan_values) = true /\
  fst (Writer__save_covjson (demo_coverage nan_values) (str "out.covjson")
         demo_world) = Ok tt /\
  exists T,
    dict_get (files (snd (Writer__save_covjson (demo_coverage nan_values)
                            (str "out.covjson") demo_world)))
             (str "out.covjson") = Some T /\
    occursb (str "[1.5,NaN,3,4]") T = true /\
    json_loads T = None.
Proof.
  split; [vm_compute; reflexivity|]. split; [vm_compute; reflexivity|].
  split; [vm_compute; reflexivity|].
  eexists. split; [vm_compute; reflexivity|].
  split; vm_compute; reflexivity.
Qed.

(** The sample coverage with finite values is read back. *)
Lemma save_covjson_round_trip_witness :
  is_coverage (demo_coverage finite_values) = true /\
  json_ok (demo_coverage finite_values) = true /\
  covjson_keys_fresh demo_world (demo_coverage finite_values) = true /\
  exists T,
    fst (Writer__save_covjson (demo_coverage finite_values) (str "out.covjson")
           demo_world) = Ok tt /\
    dict_get (files (snd (Writer__save_covjson (demo_coverage finite_values)
                            (str "out.covjson") demo_world)))
             (str "out.covjson") = Some T /\
    json_loads T = Some (demo_coverage finite_values).
Proof.
  split; [vm_compute; reflexivity|]. split; [vm_compute; reflexivity|].
  split; [vm_compute; reflexivity|].
  apply (save_covjson_round_trip (demo_coverage finite_values)
           (str "out.covjson") demo_world); vm_compute; reflexivity.
Defined.


(** Two runs with different keys on the marked sample coverage. *)
Lemma save_json_is_deterministic_witness :
  encodable demo_marked = true /\
  fresh_keys demo_world demo_marked = true /\
  fresh_keys other_world demo_marked = true /\
  files demo_world = files other_world /\
  uuid4_hex demo_world 0 <> uuid4_hex other_world 7 /\
  fst (Writer_save_json demo_marked (str "out.covjson") (Some 2) demo_world)
  = fst (Writer_save_json demo_marked (str "out.covjson") (Some 2) other_world) /\
  files (snd (Writer_save_json demo_marked (str "out.covjson") (Some 2) demo_world))
  = files (snd (Writer_save_json demo_marked (str "out.covjson") (Some 2)
                  other_world)).
Proof.
  split; [vm_compute; reflexivity|]. split; [vm_compute; reflexivity|].
  split; [vm_compute; reflexivity|]. split; [reflexivity|].
  split; [intros H; vm_compute in H; discriminate H|].
  destruct (save_json_is_deterministic demo_marked (str "out.covjson") (Some 2)
              demo_world other_world) as [H1 [H2 _]];
    try (vm_compute; reflexivity).
  split; [exact H1 | exact H2].
Defined.

(* ================================================================== *)
(** * The further properties on sample data *)

(** A tiled writer on the sample data source. *)
Lemma tiled_write_always_raises_witness :
  tiled (demo_self ["x"; "y"; "t"]%string [2; 2]%Z [str "cde"] true false) = true /\
  exists e,
    Writer_write demo_get_tiles demo_url_template demo_tileset
      (demo_self ["x"; "y"; "t"]%string [2; 2]%Z [str "cde"] true false)
      stocked_world
    = (Raise e, stocked_world).
Proof.
  split; [reflexivity|].
  apply (tiled_write_always_raises demo_get_tiles demo_url_template demo_tileset
           (demo_self ["x"; "y"; "t"]%string [2; 2]%Z [str "cde"] true false)
           stocked_world).
  reflexivity.
Defined.

(** The file [notes.txt] is kept while [out.covjson] is written. *)
Lemma write_touches_only_output_witness :
  text_eqb (output_name square_writer) (str "notes.txt") = false /\
  dict_get (files (snd (Writer_write demo_get_tiles demo_url_template
                          demo_tileset square_writer stocked_world)))
           (str "notes.txt")
  = Some (str "kept").
Proof.
  split; [reflexivity|].
  rewrite (write_touches_only_output demo_get_tiles demo_url_template
             demo_tileset square_writer stocked_world (str "notes.txt"));
    reflexivity.
Defined.

(** Two writers that differ in the attributes [write] does not read. *)
Lemma write_reads_six_attributes_witness :
  endpoint_url (demo_self ["x"; "y"]%string [2; 2]%Z [str "abcd"] false false)
  <> endpoint_url (demo_self_variant ["x"; "y"]%string [2; 2]%Z [str "abcd"] false)
  /\
  Writer_write demo_get_tiles demo_url_template demo_tileset
    (demo_self ["x"; "y"]%string [2; 2]%Z [str "abcd"] false false) demo_world
  = Writer_write demo_get_tiles demo_url_template demo_tileset
      (demo_self_variant ["x"; "y"]%string [2; 2]%Z [str "abcd"] false) demo_world.
Proof.
  split; [discriminate|].
  apply (write_reads_six_attributes demo_get_tiles demo_url_template demo_tileset
           (demo_self ["x"; "y"]%string [2; 2]%Z [str "abcd"] false false)
           (demo_self_variant ["x"; "y"]%string [2; 2]%Z [str "abcd"] false)
           demo_world); reflexivity.
Defined.

(** A data source with the axes x, y and z. *)
Lemma ref_list_empty_for_z_without_t_witness :
  exists w,
    demo_writer ["x"; "y"; "z"]%string [2; 2]%Z [str "ab"] false false = Ok w /\
    ref_list w = [] /\
    Writer__construct_refs w = {| obj_list := [] |}.
Proof.
  apply (ref_list_empty_for_z_without_t
           (demo_open ["x"; "y"; "z"]%string [2; 2]%Z demo_values)
           (str "out.covjson") (str "data.nc") [str "ab"] None false [2; 2]%Z
           false (demo_reader ["x"; "y"; "z"]%string [2; 2]%Z demo_values)
           [(str "x", PNone); (str "y", PNone); (str "z", PNone)]);
    reflexivity.
Defined.

(** The variable [bad] stands in the middle of the list. *)
Lemma construct_params_stops_at_first_failure_witness :
  vars_to_write (failing_self [str "ab"; str "bad"; str "cde"])
  = [str "ab"] ++ str "bad" :: [str "cde"] /\
  Writer__construct_params (failing_self [str "ab"; str "bad"; str "cde"])
  = Raise (DataSourceError "no standard name").
Proof.
  split; [reflexivity|].
  apply (construct_params_stops_at_first_failure
           (failing_self [str "ab"; str "bad"; str "cde"])
           [str "ab"] (str "bad") [str "cde"]).
  - reflexivity.
  - intros u [<- | []]. eexists. reflexivity.
  - reflexivity.
Defined.

(** The fields [axisNames] and [shape] of a range. *)
Lemma markers_wrap_named_fields_witness :
  exists dc dn,
    Writer_compact (PDict demo_range_fields) [str "axisNames"; str "shape"]
    = Ok (PDict dc) /\
    Writer_no_indent (PDict demo_range_fields) [str "axisNames"; str "shape"]
    = Ok (PDict dn) /\
    map fst dc = map fst demo_range_fields /\
    map fst dn = map fst demo_range_fields /\
    dict_get dc (str "shape")
    = Some (PCustom (PList [PInt 2; PInt 2]) compact_args) /\
    dict_get dn (str "values") = Some (PList finite_values).
Proof.
  destruct (markers_wrap_named_fields demo_range_fields
              [str "axisNames"; str "shape"]) as [dc [dn [Hc [Hn [Kc [Kn Hg]]]]]].
  - repeat constructor; cbn; intros H;
      repeat (destruct H as [H | H]; [discriminate H|]); exact H.
  - intros n [<- | [<- | []]]; discriminate.
  - exists dc, dn. repeat split; try assumption.
    + rewrite (proj1 (Hg (str "shape"))). reflexivity.
    + rewrite (proj2 (Hg (str "values"))). reflexivity.
Defined.

(** A range without [values], as a tiled range is. *)
Lemma markers_raise_on_missing_field_witness :
  Writer_compact (PDict [(str "axisNames", PList []); (str "tileSets", PList [])])
    ([str "axisNames"] ++ str "values" :: [])
  = Raise (KeyError (str "values")).
Proof.
  apply (markers_raise_on_missing_field
           [(str "axisNames", PList []); (str "tileSets", PList [])]
           [str "axisNames"] (str "values") []).
  - intros m [<- | []]. discriminate.
  - reflexivity.
Defined.


(** The sample coverage before it is marked. *)
Lemma custom_encoder_without_markers_witness :
  markers (demo_coverage finite_values) = 0 /\
  exists s,
    JSONEncoder_encode (JSONEncoder_init (Some 2) None)
      (demo_coverage finite_values) = Ok s /\
    json_dumps_cls (demo_coverage finite_values) (Some 2) demo_world
    = (Ok s, demo_world).
Proof.
  split; [reflexivity|].
  apply (custom_encoder_without_markers (demo_coverage finite_values) (Some 2)
           demo_world).
  reflexivity.
Defined.

(** A value with a line break in a string and a NaN, wrapped by
    [no_indent] and saved. *)
Lemma marked_value_on_one_line_witness :
  getitem (PDict [(str "coordinates", multiline_value)]) (str "coordinates")
  = Ok multiline_value /\
  encodable multiline_value = true /\
  markers multiline_value = 0 /\
  exists obj' r T1 T2,
    Writer_no_indent (PDict [(str "coordinates", multiline_value)])
      [str "coordinates"] = Ok obj' /\
    json_dumps multiline_value no_indent_args = Ok r /\
    fst (CustomEncoder_default (CustomEncoder_init (Some 2) None)
           (PCustom multiline_value no_indent_args) demo_world)
    = Ok (placeholder (demo_uuid 0),
          {| encoder := JSONEncoder_init (Some 2) None;
             _replacement_map := [(demo_uuid 0, r)] |}) /\
    oneline r /\
    dict_get (files (snd (Writer_save_json obj' (str "out.covjson") (Some 2)
                            demo_world)))
             (str "out.covjson")
    = Some (T1 ++ r ++ T2).
Proof.
  split; [reflexivity|]. split; [reflexivity|]. split; [reflexivity|].
  destruct (marked_value_on_one_line Writer_no_indent no_indent_args
              (PDict [(str "coordinates", multiline_value)])
              (str "coordinates") multiline_value
              (or_introl (conj eq_refl eq_refl)) eq_refl eq_refl eq_refl)
    as [obj' [r [Hc [_ [Hj [Hd [Ho [_ [_ [Hin Hfin]]]]]]]]]].
  unfold Writer_no_indent in Hc. cbn [fold_left rbind getitem dict_get] in Hc.
  change (text_eqb (str "coordinates") (str "coordinates")) with true in Hc.
  cbn [rbind setitem dict_set] in Hc.
  change (text_eqb (str "coordinates") (str "coordinates")) with true in Hc.
  injection Hc as <-.
  destruct (Hin (JSONEncoder_init (Some 2) None) 0) as [cs1 [cs2 Hcs]].
  destruct (Hfin (PDict [(str "coordinates",
                          PCustom multiline_value no_indent_args)])
              (Some 2) (str "out.covjson") demo_world cs1 cs2)
    as [T1 [T2 [_ [_ Hf]]]];
    [vm_compute; reflexivity | vm_compute; reflexivity | exact Hcs
     | vm_compute; reflexivity |].
  exists (PDict [(str "coordinates", PCustom multiline_value no_indent_args)]),
    r, T1, T2.
  split; [reflexivity|]. split; [exact Hj|]. split; [rewrite Hd; reflexivity|].
  split; [exact Ho | exact Hf].
Defined.

(** The sample coverage, saved as the tiled writer saves it. *)
Lemma save_covjson_tiled_round_trip_witness :
  has_domain (demo_coverage finite_values) = true /\
  json_ok (demo_coverage finite_values) = true /\
  marks_fresh mark_domain demo_world (demo_coverage finite_values) = true /\
  exists T,
    fst (Writer_save_covjson_tiled (demo_coverage finite_values)
           (str "out.covjson") demo_world) = Ok tt /\
    dict_get (files (snd (Writer_save_covjson_tiled (demo_coverage finite_values)
                            (str "out.covjson") demo_world)))
             (str "out.covjson") = Some T /\
    json_loads T = Some (demo_coverage finite_values).
Proof.
  split; [vm_compute; reflexivity|]. split; [vm_compute; reflexivity|].
  split; [vm_compute; reflexivity|].
  apply (save_covjson_tiled_round_trip (demo_coverage finite_values)
           (str "out.covjson") demo_world); vm_compute; reflexivity.
Defined.

(** A document of one range. *)
Lemma save_covjson_range_round_trip_witness :
  has_ranges demo_range_document = true /\
  json_ok demo_range_document = true /\
  marks_fresh mark_ranges demo_world demo_range_document = true /\
  exists T,
    fst (Writer_save_covjson_range demo_range_document (str "1.covjson")
           demo_world) = Ok tt /\
    dict_get (files (snd (Writer_save_covjson_range demo_range_document
                            (str "1.covjson") demo_world)))
             (str "1.covjson") = Some T /\
    json_loads T = Some demo_range_document.
Proof.
  split; [vm_compute; reflexivity|]. split; [vm_compute; reflexivity|].
  split; [vm_compute; reflexivity|].
  apply (save_covjson_range_round_trip demo_range_document (str "1.covjson")
           demo_world); vm_compute; reflexivity.
Defined.

(** A mapping without entries. *)
Lemma save_refuses_missing_entry_witness :
  Writer__save_covjson (PDict []) (str "out.covjson") stocked_world
  = (Raise (KeyError (str "domain")), stocked_world) /\
  Writer_save_covjson_range (PDict []) (str "out.covjson") stocked_world
  = (Raise (KeyError (str "ranges")), stocked_world).
Proof.
  destruct (save_refuses_missing_entry [] (str "out.covjson") stocked_world)
    as [Hd Hr].
  split; [exact (proj1 (Hd eq_refl)) | exact (proj1 (Hr eq_refl))].
Defined.

(** A string that equals the placeholder of the first key. *)
Lemma placeholder_string_is_replaced_witness :
  is_uuid_hex (demo_uuid 0) = true /\
  json_dumps (PList [PInt 1; PInt 2]) compact_args = Ok (str "[1,2]") /\
  dict_get (files (snd (Writer_save_json
                          (PList [PStr (placeholder (demo_uuid 0));
                                  PCustom (PList [PInt 1; PInt 2]) compact_args])
                          (str "out.covjson") (Some 2) demo_world)))
           (str "out.covjson")
  = Some (str "[" ++ newline_indent 2 1 ++ str "[1,2]" ++ str ","
          ++ newline_indent 2 1 ++ str "[1,2]" ++ newline_indent 2 0 ++ str "]").
Proof.
  split; [reflexivity|]. split; [reflexivity|].
  apply (placeholder_string_is_replaced (PList [PInt 1; PInt 2]) compact_args
           (str "[1,2]") (str "out.covjson") demo_world (demo_uuid 0));
    reflexivity.
Defined.

(** The replacement map of the marked sample coverage, visited from its
    last entry to its first. *)
Lemma encode_order_irrelevant_witness :
  encodable demo_marked = true /\
  fresh_keys demo_world demo_marked = true /\
  exists rs w',
    demo_joined = (Ok rs, w') /\
    mixed_dumps demo_marked (Some 2)
    = Ok (fold_left replace_step (List.rev (_replacement_map (snd rs))) (fst rs)).
Proof.
  split; [vm_compute; reflexivity|]. split; [vm_compute; reflexivity|].
  eexists. eexists. split; [vm_compute; reflexivity|].
  eapply (encode_order_irrelevant demo_marked (Some 2) demo_world).
  - vm_compute. reflexivity.
  - vm_compute. reflexivity.
  - vm_compute. reflexivity.
  - apply Permutation_sym. apply Permutation_rev.
Defined.


(** The sample writer on the variable [abcd]. *)
Lemma write_round_trip_witness :
  exists T,
    fst (Writer_write demo_get_tiles demo_url_template demo_tileset
           square_writer demo_world) = Ok tt /\
    dict_get (files (snd (Writer_write demo_get_tiles demo_url_template
                            demo_tileset square_writer demo_world)))
             (str "out.covjson") = Some T /\
    json_loads T
    = Some (Coverage_to_dict square_domain (demo_range [2; 2]%Z (str "abcd"))
              square_param (Writer__construct_refs square_writer)).
Proof.
  apply (write_round_trip demo_get_tiles demo_url_template demo_tileset
           square_writer (str "abcd") [] demo_world [str "Y"; str "X"] [2; 2]%Z
           {| nd_shape := [2; 2]%Z; nd_flat := demo_values (str "abcd") |}
           (PText "integer") square_domain square_param);
    vm_compute; reflexivity.
Defined.

(** The variables [ab] and [cde]: the range of [ab] with the parameter of
    [cde]. *)
Lemma coverage_joins_first_range_and_last_parameter_witness :
  exists dom par,
    fst (Writer__construct_coverage demo_get_tiles demo_url_template demo_tileset
           (demo_self ["x"; "y"]%string [2; 2]%Z [str "ab"; str "cde"] false false)
           demo_world)
    = Ok (Coverage_to_dict dom (demo_range [2; 2]%Z (str "ab")) par
            (Writer__construct_refs
               (demo_self ["x"; "y"]%string [2; 2]%Z [str "ab"; str "cde"]
                  false false))) /\
    param_variable_name par = str "cde".
Proof.
  eexists. eexists.
  destruct (coverage_joins_first_range_and_last_parameter demo_get_tiles
              demo_url_template demo_tileset
              (demo_self ["x"; "y"]%string [2; 2]%Z [str "ab"; str "cde"]
                 false false)
              (str "ab") [] (str "cde") demo_world [str "Y"; str "X"] [2; 2]%Z
              {| nd_shape := [2; 2]%Z; nd_flat := demo_values (str "ab") |}
              (PText "integer")
              {| domain_type := str "Grid";
                 x_values := [PInt 10; PInt 20];
                 y_values := [PInt 50; PInt 60];
                 z_values := [];
                 t_values := [] |}
              {| description := PStr (str "standard name of cde");
                 param_variable_name := str "cde";
                 symbol := PText "K";
                 unit_ := PText "kelvin";
                 observed_property := PText "air temperature" |}
              eq_refl eq_refl eq_refl eq_refl eq_refl eq_refl eq_refl eq_refl)
    as [Hc Hp].
  split; [rewrite Hc; reflexivity | exact Hp].
Defined.
